(** * iss-tracker: the overlay layer and the position feed of [src/main.js]

    A shallow embedding of the two coupled parts of [main.js]: the custom
    render layer [issCustomLayer] (its [onAdd], [createISSModel] and [render]
    methods, with the loader callbacks) and the poll loop [fetchIssPosition]
    with the module's start-up code.

    JavaScript numbers are IEEE 754 binary64 values, modelled by Rocq's
    primitive floats.  The page state the code mutates (the layer object,
    the THREE objects it shares with the scene, the map's sources, the DOM
    text, the console, the timers and the requests in flight) is one record
    [World], threaded through a small state-and-exception monad.  What
    happens to the page (the map's [load] event, the loader's callbacks, a
    frame, the passing of time, a response, a click) is an [Event], and
    the page's history a list of events run from the state the module's
    top level leaves.

    Of the UI, the functions that write the state the feed and the layer
    share ([updateStatusIndicator], [updateISSInfo], [toggleFollowISS],
    [resetMapView]) act on [World]; the info panel and the keyboard
    dispatch ([toggleInfoPanel], [handleKeydown]) act on [Page], a [World]
    with the panel's flag and classes.  The resize handler only calls the
    host's [map.resize()]. *)

From Stdlib Require Import ZArith Lia Bool Ascii String Floats.
From stdpp Require Import gmap strings list pretty.

Set Warnings "-inexact-float,-register-all".

(** ** JavaScript values and the built-ins the program calls *)

Module JS.

(** A value as [response.json()] hands it over, plus [undefined], which a
    property read of an absent key yields.  An object is a finite map from
    property names to values. *)
Inductive jsval :=
| JUndefined
| JNull
| JBool (b : bool)
| JNum (f : float)
| JStr (s : string)
| JArr (l : list jsval)
| JObj (m : gmap string jsval).

(** What a [throw] carries: a [TypeError] of the engine, or [new Error(msg)]. *)
Inductive Exception :=
| TypeError (msg : string)
| SyntaxError (msg : string)
| NewError (msg : string).

Definition message (e : Exception) : string :=
  match e with
  | TypeError msg | SyntaxError msg | NewError msg => msg
  end.

(** [data.key] for the two keys the program reads, [latitude] and
    [longitude]: reading a property of [undefined] or [null] throws; a
    primitive or an array has no own or inherited property of either
    name, so the read yields [undefined]. *)
Definition get_property (v : jsval) (key : string) : Exception + jsval :=
  match v with
  | JUndefined | JNull =>
      inl (TypeError ("Cannot read properties of undefined or null: " +:+ key))
  | JObj m => inr (default JUndefined (m !! key))
  | _ => inr JUndefined
  end.

(** *** [parseFloat] on strings (ECMAScript 19.2.4)

    A string is the UTF-8 text of the JavaScript string.  [white_space s]
    is what follows one [StrWhiteSpaceChar] at the start of [s]: TAB, LF,
    VT, FF, CR, SP, and, in their encodings, U+00A0, U+1680,
    U+2000..U+200A, U+2028, U+2029, U+202F, U+205F, U+3000 and U+FEFF. *)

Definition byte_of (c : ascii) : nat := nat_of_ascii c.

Definition white_space (s : string) : option string :=
  match s with
  | String c r =>
      let n := byte_of c in
      if (Nat.leb 9 n && Nat.leb n 13) || Nat.eqb n 32 then Some r
      else
        match r with
        | String c1 r1 =>
            let n1 := byte_of c1 in
            if Nat.eqb n 194 && Nat.eqb n1 160 then Some r1
            else
              match r1 with
              | String c2 r2 =>
                  let n2 := byte_of c2 in
                  if Nat.eqb n 225 && Nat.eqb n1 154 && Nat.eqb n2 128 then Some r2
                  else if Nat.eqb n 226 && Nat.eqb n1 128
                          && ((Nat.leb 128 n2 && Nat.leb n2 138)
                              || Nat.eqb n2 168 || Nat.eqb n2 169 || Nat.eqb n2 175)
                  then Some r2
                  else if Nat.eqb n 226 && Nat.eqb n1 129 && Nat.eqb n2 159 then Some r2
                  else if Nat.eqb n 227 && Nat.eqb n1 128 && Nat.eqb n2 128 then Some r2
                  else if Nat.eqb n 239 && Nat.eqb n1 187 && Nat.eqb n2 191 then Some r2
                  else None
              | EmptyString => None
              end
        | EmptyString => None
        end
  | EmptyString => None
  end.

(** [TrimString(s, start)]; [fuel] bounds the characters looked at. *)
Fixpoint trim_start (fuel : nat) (s : string) : string :=
  match fuel with
  | O => s
  | S fuel =>
      match white_space s with
      | Some r => trim_start fuel r
      | None => s
      end
  end.

Definition TrimStart (s : string) : string := trim_start (String.length s) s.

Definition digit_value (c : ascii) : option N :=
  let n := N_of_ascii c in
  if (48 <=? n)%N && (n <=? 57)%N then Some (n - 48)%N else None.

(** [DecimalDigits s acc cnt]: the digits at the start of [s], accumulated
    in base ten onto [acc]; also how many were read and the rest. *)
Fixpoint DecimalDigits (s : string) (acc : N) (cnt : nat) : N * nat * string :=
  match s with
  | String c r =>
      match digit_value c with
      | Some d => DecimalDigits r (10 * acc + d)%N (S cnt)
      | None => (acc, cnt, s)
      end
  | EmptyString => (acc, cnt, s)
  end.

Fixpoint strip_prefix (p s : string) : option string :=
  match p, s with
  | EmptyString, _ => Some s
  | String a p', String b s' => if Ascii.eqb a b then strip_prefix p' s' else None
  | String _ _, EmptyString => None
  end.

(** The mathematical value of a literal before rounding: an infinity, or
    [(-1)^neg * digits * 10^exp10]. *)
Inductive StrNumber :=
| SInfinity (neg : bool)
| SDecimal (neg : bool) (digits : N) (exp10 : Z).

(** [ExponentPart]: [e] or [E], an optional sign and at least one digit;
    when no digit follows, the exponent is not part of the literal. *)
Definition ExponentPart (s : string) : Z * string :=
  match s with
  | String c r =>
      if Ascii.eqb c "e" || Ascii.eqb c "E" then
        let '(neg, r') :=
          match r with
          | String "+"%char r' => (false, r')
          | String "-"%char r' => (true, r')
          | _ => (false, r)
          end in
        let '(n, cnt, rest) := DecimalDigits r' 0 0 in
        match cnt with
        | O => (0%Z, s)
        | S _ => (if neg then (- Z.of_N n)%Z else Z.of_N n, rest)
        end
      else (0%Z, s)
  | EmptyString => (0%Z, s)
  end.

(** The longest prefix of [s] that is a [StrUnsignedDecimalLiteral], with
    what follows it. *)
Definition StrUnsignedDecimalLiteral (neg : bool) (s : string)
  : option (StrNumber * string) :=
  match strip_prefix "Infinity"%string s with
  | Some rest => Some (SInfinity neg, rest)
  | None =>
      let '(ip, ni, r1) := DecimalDigits s 0 0 in
      match r1 with
      | String "."%char r2 =>
          let '(m, nf, r3) := DecimalDigits r2 ip 0 in
          match ni, nf with
          | O, O => None
          | _, _ =>
              let '(e, r4) := ExponentPart r3 in
              Some (SDecimal neg m (e - Z.of_nat nf), r4)
          end
      | _ =>
          match ni with
          | O => None
          | S _ =>
              let '(e, r2) := ExponentPart r1 in
              Some (SDecimal neg ip e, r2)
          end
      end
  end.

Definition StrDecimalLiteral (s : string) : option (StrNumber * string) :=
  match s with
  | String "+"%char r => StrUnsignedDecimalLiteral false r
  | String "-"%char r => StrUnsignedDecimalLiteral true r
  | _ => StrUnsignedDecimalLiteral false s
  end.

(** The Number value of a literal: round to nearest, ties to even.  The
    quotient of the two integers is rounded once by [SFdiv]. *)
Definition RoundMV (n : StrNumber) : float :=
  match n with
  | SInfinity neg => if neg then neg_infinity else infinity
  | SDecimal neg N0 _ => if neg then neg_zero else zero
  | SDecimal neg (Npos p) e =>
      let num := (p * Z.to_pos (10 ^ Z.max e 0))%positive in
      let den := Z.to_pos (10 ^ Z.max (- e) 0) in
      SF2Prim (SFdiv prec emax (S754_finite neg num 0) (S754_finite false den 0))
  end.

Definition parseFloat_string (s : string) : float :=
  match StrDecimalLiteral (TrimStart s) with
  | Some (n, _) => RoundMV n
  | None => nan
  end.

(** [parseFloat v] is [parseFloat_string (ToString v)].
    - [undefined], [null], booleans and plain objects print as
      ["undefined"], ["null"], ["true"]/["false"] and ["[object Object]"],
      none of which starts with a number;
    - a number prints as ["NaN"], ["Infinity"], ["0"] for either zero, and
      otherwise as a decimal that reads back as the same number;
    - an array prints its elements joined by commas; a comma ends every
      literal, so only the first element is read ([undefined] and [null]
      elements print as the empty string). *)
Fixpoint parseFloat (v : jsval) : float :=
  match v with
  | JUndefined | JNull | JBool _ | JObj _ => nan
  | JNum f => if is_nan f then nan else if is_zero f then zero else f
  | JStr s => parseFloat_string s
  | JArr l =>
      match l with
      | [] => nan
      | x :: _ => parseFloat x
      end
  end.

Definition isNaN (f : float) : bool := is_nan f.

(** [x || 0] on a number: [x] is falsy when it is a zero or NaN. *)
Definition or_zero (x : float) : float :=
  if is_nan x || is_zero x then zero else x.

(** [Math.max(a, b)]: NaN if either is, and [+0] above [-0]. *)
Definition Math_max (a b : float) : float :=
  if is_nan a || is_nan b then nan
  else if (a <? b)%float then b
  else if (b <? a)%float then a
  else if get_sign a then b else a.

(** [!s] for a value that is a string or [undefined]. *)
Definition falsy_string (s : option string) : bool :=
  match s with
  | None => true
  | Some EmptyString => true
  | Some _ => false
  end.

(** A decimal numeric string: the whole text, white space at both ends
    apart, is one [StrDecimalLiteral]. *)
Definition all_white_space (s : string) : bool :=
  match TrimStart s with
  | EmptyString => true
  | String _ _ => false
  end.

Definition is_numeric_string (s : string) : bool :=
  match StrDecimalLiteral (TrimStart s) with
  | Some (_, rest) => all_white_space rest
  | None => false
  end.

(** A field value is numeric when it is a number other than NaN or a
    numeric string. *)
Definition is_numeric (v : jsval) : bool :=
  match v with
  | JNum f => negb (is_nan f)
  | JStr s => is_numeric_string s
  | _ => false
  end.

End JS.

Import JS.


(** ** The part of three.js the layer uses

    [Matrix4] stores its sixteen elements column by column ([te0] .. [te15]
    are [elements[0]] .. [elements[15]]).  The methods are written once over
    any number type, so that they can be read over the floats the program
    runs on and over exact integers. *)

Module THREE.

Record Vector3 {num : Type} := mkVector3 { x : num; y : num; z : num }.
Arguments Vector3 : clear implicits.
Arguments mkVector3 {num} x y z.

Record Matrix4 {num : Type} := mkMatrix4 {
  te0 : num; te1 : num; te2 : num; te3 : num;
  te4 : num; te5 : num; te6 : num; te7 : num;
  te8 : num; te9 : num; te10 : num; te11 : num;
  te12 : num; te13 : num; te14 : num; te15 : num }.
Arguments Matrix4 : clear implicits.

Section Methods.
Context {num : Type} (zero one : num) (add mul : num -> num -> num).

(** [set] takes its arguments row by row. *)
Definition set (n11 n12 n13 n14 n21 n22 n23 n24
                n31 n32 n33 n34 n41 n42 n43 n44 : num) : Matrix4 num :=
  {| te0 := n11; te4 := n12; te8 := n13; te12 := n14;
     te1 := n21; te5 := n22; te9 := n23; te13 := n24;
     te2 := n31; te6 := n32; te10 := n33; te14 := n34;
     te3 := n41; te7 := n42; te11 := n43; te15 := n44 |}.

(** [new THREE.Matrix4()] *)
Definition identity : Matrix4 num :=
  set one zero zero zero  zero one zero zero
      zero zero one zero  zero zero zero one.

Definition makeTranslation (tx ty tz : num) : Matrix4 num :=
  set one zero zero tx  zero one zero ty
      zero zero one tz  zero zero zero one.

Definition makeScale (sx sy sz : num) : Matrix4 num :=
  set sx zero zero zero  zero sy zero zero
      zero zero sz zero  zero zero zero one.

(** [m.scale(v)]: the first three columns are multiplied by [v.x], [v.y]
    and [v.z]; the fourth is left alone. *)
Definition scale (m : Matrix4 num) (v : Vector3 num) : Matrix4 num :=
  {| te0 := mul (te0 m) (x v); te4 := mul (te4 m) (y v); te8 := mul (te8 m) (z v);
     te1 := mul (te1 m) (x v); te5 := mul (te5 m) (y v); te9 := mul (te9 m) (z v);
     te2 := mul (te2 m) (x v); te6 := mul (te6 m) (y v); te10 := mul (te10 m) (z v);
     te3 := mul (te3 m) (x v); te7 := mul (te7 m) (y v); te11 := mul (te11 m) (z v);
     te12 := te12 m; te13 := te13 m; te14 := te14 m; te15 := te15 m |}.

(** [a1*b1 + a2*b2 + a3*b3 + a4*b4], summed from the left. *)
Definition row_col (a1 a2 a3 a4 b1 b2 b3 b4 : num) : num :=
  add (add (add (mul a1 b1) (mul a2 b2)) (mul a3 b3)) (mul a4 b4).

(** [a.multiply(b)], that is [multiplyMatrices(a, b)]: row [i] of [a]
    against column [j] of [b]. *)
Definition multiply (a b : Matrix4 num) : Matrix4 num :=
  let r1 := row_col (te0 a) (te4 a) (te8 a) (te12 a) in
  let r2 := row_col (te1 a) (te5 a) (te9 a) (te13 a) in
  let r3 := row_col (te2 a) (te6 a) (te10 a) (te14 a) in
  let r4 := row_col (te3 a) (te7 a) (te11 a) (te15 a) in
  {| te0 := r1 (te0 b) (te1 b) (te2 b) (te3 b);
     te4 := r1 (te4 b) (te5 b) (te6 b) (te7 b);
     te8 := r1 (te8 b) (te9 b) (te10 b) (te11 b);
     te12 := r1 (te12 b) (te13 b) (te14 b) (te15 b);
     te1 := r2 (te0 b) (te1 b) (te2 b) (te3 b);
     te5 := r2 (te4 b) (te5 b) (te6 b) (te7 b);
     te9 := r2 (te8 b) (te9 b) (te10 b) (te11 b);
     te13 := r2 (te12 b) (te13 b) (te14 b) (te15 b);
     te2 := r3 (te0 b) (te1 b) (te2 b) (te3 b);
     te6 := r3 (te4 b) (te5 b) (te6 b) (te7 b);
     te10 := r3 (te8 b) (te9 b) (te10 b) (te11 b);
     te14 := r3 (te12 b) (te13 b) (te14 b) (te15 b);
     te3 := r4 (te0 b) (te1 b) (te2 b) (te3 b);
     te7 := r4 (te4 b) (te5 b) (te6 b) (te7 b);
     te11 := r4 (te8 b) (te9 b) (te10 b) (te11 b);
     te15 := r4 (te12 b) (te13 b) (te14 b) (te15 b) |}.

(** [m.fromArray(array)]: [elements[i] = array[i]] for the sixteen
    entries of the array the host passes. *)
Definition fromArray (array : Matrix4 num) : Matrix4 num :=
  {| te0 := te0 array; te1 := te1 array; te2 := te2 array; te3 := te3 array;
     te4 := te4 array; te5 := te5 array; te6 := te6 array; te7 := te7 array;
     te8 := te8 array; te9 := te9 array; te10 := te10 array; te11 := te11 array;
     te12 := te12 array; te13 := te13 array; te14 := te14 array; te15 := te15 array |}.
End Methods.

(** Geometries and materials, as the constructors are called. *)
Inductive Geometry :=
| BoxGeometry (width height depth : float)
| CylinderGeometry (radiusTop radiusBottom height : float)
| SphereGeometry (radius : float).

Inductive MaterialType := MeshBasicMaterial | MeshLambertMaterial.

Record Material := {
  material_type : MaterialType;
  color : N;
  emissive : option N;
  emissiveIntensity : option float;
  wireframe : bool;
  transparent : bool;
  opacity : float }.

(** A mesh hanging below a model's root. *)
Record Mesh := {
  geometry : Geometry;
  material : Material;
  mesh_position : Vector3 float;
  rotation_z : float }.

Inductive ObjectKind :=
| AmbientLight (light_color : N) (intensity : float)
| DirectionalLight (light_color : N) (intensity : float)
| MeshObject (g : Geometry) (m : Material)
| Group
| GltfScene.

(** An object the scene refers to.  [matrix] is its local matrix, which
    the renderer uses as it stands when [matrixAutoUpdate] is false. *)
Record Object3D := {
  kind : ObjectKind;
  position : Vector3 float;
  object_scale : Vector3 float;
  children : list Mesh;
  matrix : Matrix4 float;
  matrixAutoUpdate : bool }.

Definition Vector3_sub (a b : Vector3 float) : Vector3 float :=
  {| x := (x a - x b)%float; y := (y a - y b)%float; z := (z a - z b)%float |}.

Definition new_Object3D (k : ObjectKind) : Object3D :=
  {| kind := k;
     position := mkVector3 0%float 0%float 0%float;
     object_scale := mkVector3 1%float 1%float 1%float;
     children := [];
     matrix := identity 0%float 1%float;
     matrixAutoUpdate := true |}.

End THREE.

(** ** The part of Mapbox GL the program uses *)

Module mapboxgl.

Record LngLat := { lng : float; lat : float }.

(** [LngLat.convert({lng, lat})], which Mapbox applies to every position
    it is given: it calls [new LngLat(lng, lat)], and the constructor
    throws for a NaN and for a latitude outside [-90, 90].  The longitude
    is not checked. *)
Definition LngLat_convert (p : LngLat) : Exception + LngLat :=
  if isNaN (lng p) || isNaN (lat p) then
    inl (NewError "Invalid LngLat object")
  else if ((90 <? lat p) || (lat p <? -90))%float then
    inl (NewError "Invalid LngLat latitude value: must be between -90 and 90")
  else inr p.

Record MercatorCoordinate := { x : float; y : float; z : float }.

(** The data of a GeoJSON point source. *)
Record PointFeature := { coordinates : float * float }.

Record CameraOptions := {
  center : float * float;
  zoom : float;
  pitch : option float;
  bearing : option float;
  duration : float }.

End mapboxgl.

(** ** The state of the page *)

Definition ObjId := nat.

Record Camera := { projectionMatrix : THREE.Matrix4 float }.

Record WebGLRenderer := { autoClear : bool }.

(** The properties of the object [issCustomLayer]; each is [undefined]
    until the code assigns it. *)
Record Layer := {
  camera : option Camera;
  scene : option (list ObjId);
  testCube : option ObjId;
  issModel : option ObjId;
  issPosition : option mapboxgl.LngLat;
  map : bool;
  renderer : option WebGLRenderer }.

(** One call of [renderer.render(scene, camera)]: the objects the scene
    refers to as they were at the call, and the camera's projection
    matrix. *)
Record Frame := {
  drawn : list THREE.Object3D;
  projection : THREE.Matrix4 float }.

Inductive CameraMove :=
| EaseTo (o : mapboxgl.CameraOptions)
| FlyTo (o : mapboxgl.CameraOptions).

(** The [mapboxgl.Map] instance [map]. *)
Record MapState := {
  loaded : bool;
  sources : gmap string mapboxgl.PointFeature;
  layers : list string;
  repaints : nat;
  moves : list CameraMove;
  getZoom : float }.

(** The elements of the page.  [index.html] is not among the sources: the
    elements [main.js] looks up once at load time and uses unguarded are
    taken to be there; [elements] holds the text of the elements the code
    looks up by id and guards ([position], [lastUpdate]), and of no other:
    the button [followISS] and the status text have fields of their own,
    and a key other than the two stands for nothing on the page. *)
Record Dom := {
  statusDot_className : string;
  statusText_textContent : string;
  elements : gmap string string;
  followISSBtn_textContent : string;
  followISSBtn_background : string;
  loadingScreen_hidden : bool;
  alerts : list string }.

Inductive Level := Log | ErrorLevel.

Inductive Callback := CbFetchIssPosition | CbHideLoadingScreen.

(** A timer of the host: when it is due next, and its period when it
    repeats. *)
Record Timer := {
  callback : Callback;
  due : nat;
  period : option nat }.

(** A call of [fetch]: when it was issued, with which argument, and
    whether its promise has settled. *)
Record Request := {
  req_time : nat;
  req_url : option string;
  req_settled : bool }.

Record Sys := {
  console : list (Level * string);
  now : nat;
  timers : list Timer;
  requests : list Request;
  loader_pending : bool }.

Record World := {
  layer : Layer;
  heap : gmap ObjId THREE.Object3D;
  next_id : ObjId;
  frames : list Frame;
  mapbox : MapState;
  dom : Dom;
  sys : Sys;
  isFollowingISS : bool }.

Definition with_layer (f : Layer -> Layer) (w : World) : World :=
  {| layer := f (layer w); heap := heap w; next_id := next_id w;
     frames := frames w; mapbox := mapbox w; dom := dom w; sys := sys w;
     isFollowingISS := isFollowingISS w |}.

Definition with_heap (f : gmap ObjId THREE.Object3D -> gmap ObjId THREE.Object3D)
    (w : World) : World :=
  {| layer := layer w; heap := f (heap w); next_id := next_id w;
     frames := frames w; mapbox := mapbox w; dom := dom w; sys := sys w;
     isFollowingISS := isFollowingISS w |}.

Definition with_mapbox (f : MapState -> MapState) (w : World) : World :=
  {| layer := layer w; heap := heap w; next_id := next_id w;
     frames := frames w; mapbox := f (mapbox w); dom := dom w; sys := sys w;
     isFollowingISS := isFollowingISS w |}.

Definition with_dom (f : Dom -> Dom) (w : World) : World :=
  {| layer := layer w; heap := heap w; next_id := next_id w;
     frames := frames w; mapbox := mapbox w; dom := f (dom w); sys := sys w;
     isFollowingISS := isFollowingISS w |}.

Definition with_sys (f : Sys -> Sys) (w : World) : World :=
  {| layer := layer w; heap := heap w; next_id := next_id w;
     frames := frames w; mapbox := mapbox w; dom := dom w; sys := f (sys w);
     isFollowingISS := isFollowingISS w |}.

Definition set_isFollowingISS (b : bool) (w : World) : World :=
  {| layer := layer w; heap := heap w; next_id := next_id w;
     frames := frames w; mapbox := mapbox w; dom := dom w; sys := sys w;
     isFollowingISS := b |}.

Definition push_frame (f : Frame) (w : World) : World :=
  {| layer := layer w; heap := heap w; next_id := next_id w;
     frames := frames w ++ [f]; mapbox := mapbox w; dom := dom w; sys := sys w;
     isFollowingISS := isFollowingISS w |}.

(** ** Computations: state, and exceptions that keep the state *)

Inductive Result (A : Type) :=
| Normal (a : A)
| Throw (e : Exception).
Arguments Normal {A} a.
Arguments Throw {A} e.

Definition M (A : Type) : Type := World -> Result A * World.

Definition ret {A} (a : A) : M A := fun w => (Normal a, w).

Definition bind {A B} (m : M A) (k : A -> M B) : M B :=
  fun w =>
    match m w with
    | (Normal a, w') => k a w'
    | (Throw e, w') => (Throw e, w')
    end.

Definition throw {A} (e : Exception) : M A := fun w => (Throw e, w).

(** [try { m } catch (error) { h error }] *)
Definition try_catch {A} (m : M A) (h : Exception -> M A) : M A :=
  fun w =>
    match m w with
    | (Throw e, w') => h e w'
    | r => r
    end.

Definition gets {A} (f : World -> A) : M A := fun w => (Normal (f w), w).

Definition modify (f : World -> World) : M unit := fun w => (Normal tt, f w).

#[global] Instance M_ret : MRet M := @ret.
#[global] Instance M_bind : MBind M := fun A B k m => bind m k.

(** What a callback leaves behind; an exception that escapes it is the
    host's to report. *)
Definition exec (m : M unit) (w : World) : World := snd (m w).

Definition when (b : bool) (m : M unit) : M unit := if b then m else ret tt.

(** *** Field updates *)

Definition set_issModel (v : option ObjId) (l : Layer) : Layer :=
  {| camera := camera l; scene := scene l; testCube := testCube l;
     issModel := v; issPosition := issPosition l; map := map l;
     renderer := renderer l |}.

Definition set_issPosition (v : option mapboxgl.LngLat) (l : Layer) : Layer :=
  {| camera := camera l; scene := scene l; testCube := testCube l;
     issModel := issModel l; issPosition := v; map := map l;
     renderer := renderer l |}.

Definition set_camera (v : option Camera) (l : Layer) : Layer :=
  {| camera := v; scene := scene l; testCube := testCube l;
     issModel := issModel l; issPosition := issPosition l; map := map l;
     renderer := renderer l |}.

Definition set_scene (v : option (list ObjId)) (l : Layer) : Layer :=
  {| camera := camera l; scene := v; testCube := testCube l;
     issModel := issModel l; issPosition := issPosition l; map := map l;
     renderer := renderer l |}.

Definition set_testCube (v : option ObjId) (l : Layer) : Layer :=
  {| camera := camera l; scene := scene l; testCube := v;
     issModel := issModel l; issPosition := issPosition l; map := map l;
     renderer := renderer l |}.

Definition set_map_renderer (r : WebGLRenderer) (l : Layer) : Layer :=
  {| camera := camera l; scene := scene l; testCube := testCube l;
     issModel := issModel l; issPosition := issPosition l; map := true;
     renderer := Some r |}.

Definition set_matrix (m : THREE.Matrix4 float) (o : THREE.Object3D) : THREE.Object3D :=
  {| THREE.kind := THREE.kind o; THREE.position := THREE.position o;
     THREE.object_scale := THREE.object_scale o;
     THREE.children := THREE.children o;
     THREE.matrix := m; THREE.matrixAutoUpdate := THREE.matrixAutoUpdate o |}.

Definition set_matrixAutoUpdate (b : bool) (o : THREE.Object3D) : THREE.Object3D :=
  {| THREE.kind := THREE.kind o; THREE.position := THREE.position o;
     THREE.object_scale := THREE.object_scale o;
     THREE.children := THREE.children o;
     THREE.matrix := THREE.matrix o; THREE.matrixAutoUpdate := b |}.

Definition set_position (p : THREE.Vector3 float) (o : THREE.Object3D) : THREE.Object3D :=
  {| THREE.kind := THREE.kind o; THREE.position := p;
     THREE.object_scale := THREE.object_scale o;
     THREE.children := THREE.children o;
     THREE.matrix := THREE.matrix o; THREE.matrixAutoUpdate := THREE.matrixAutoUpdate o |}.

Definition set_object_scale (v : THREE.Vector3 float) (o : THREE.Object3D) : THREE.Object3D :=
  {| THREE.kind := THREE.kind o; THREE.position := THREE.position o;
     THREE.object_scale := v;
     THREE.children := THREE.children o;
     THREE.matrix := THREE.matrix o; THREE.matrixAutoUpdate := THREE.matrixAutoUpdate o |}.

Definition set_children (c : list THREE.Mesh) (o : THREE.Object3D) : THREE.Object3D :=
  {| THREE.kind := THREE.kind o; THREE.position := THREE.position o;
     THREE.object_scale := THREE.object_scale o;
     THREE.children := c;
     THREE.matrix := THREE.matrix o; THREE.matrixAutoUpdate := THREE.matrixAutoUpdate o |}.

Definition set_sources (v : gmap string mapboxgl.PointFeature) (m : MapState) : MapState :=
  {| loaded := loaded m; sources := v; layers := layers m;
     repaints := repaints m; moves := moves m; getZoom := getZoom m |}.

Definition set_layers (v : list string) (m : MapState) : MapState :=
  {| loaded := loaded m; sources := sources m; layers := v;
     repaints := repaints m; moves := moves m; getZoom := getZoom m |}.

Definition set_loaded (v : bool) (m : MapState) : MapState :=
  {| loaded := v; sources := sources m; layers := layers m;
     repaints := repaints m; moves := moves m; getZoom := getZoom m |}.

Definition set_repaints (v : nat) (m : MapState) : MapState :=
  {| loaded := loaded m; sources := sources m; layers := layers m;
     repaints := v; moves := moves m; getZoom := getZoom m |}.

Definition set_moves (v : list CameraMove) (m : MapState) : MapState :=
  {| loaded := loaded m; sources := sources m; layers := layers m;
     repaints := repaints m; moves := v; getZoom := getZoom m |}.

Definition set_getZoom (v : float) (m : MapState) : MapState :=
  {| loaded := loaded m; sources := sources m; layers := layers m;
     repaints := repaints m; moves := moves m; getZoom := v |}.

Definition set_status (cls text : string) (d : Dom) : Dom :=
  {| statusDot_className := cls; statusText_textContent := text;
     elements := elements d;
     followISSBtn_textContent := followISSBtn_textContent d;
     followISSBtn_background := followISSBtn_background d;
     loadingScreen_hidden := loadingScreen_hidden d; alerts := alerts d |}.

Definition set_elements (v : gmap string string) (d : Dom) : Dom :=
  {| statusDot_className := statusDot_className d;
     statusText_textContent := statusText_textContent d;
     elements := v;
     followISSBtn_textContent := followISSBtn_textContent d;
     followISSBtn_background := followISSBtn_background d;
     loadingScreen_hidden := loadingScreen_hidden d; alerts := alerts d |}.

Definition set_followISSBtn (text : string) (background : option string) (d : Dom) : Dom :=
  {| statusDot_className := statusDot_className d;
     statusText_textContent := statusText_textContent d;
     elements := elements d;
     followISSBtn_textContent := text;
     followISSBtn_background := default (followISSBtn_background d) background;
     loadingScreen_hidden := loadingScreen_hidden d; alerts := alerts d |}.

Definition set_loadingScreen_hidden (v : bool) (d : Dom) : Dom :=
  {| statusDot_className := statusDot_className d;
     statusText_textContent := statusText_textContent d;
     elements := elements d;
     followISSBtn_textContent := followISSBtn_textContent d;
     followISSBtn_background := followISSBtn_background d;
     loadingScreen_hidden := v; alerts := alerts d |}.

Definition set_alerts (v : list string) (d : Dom) : Dom :=
  {| statusDot_className := statusDot_className d;
     statusText_textContent := statusText_textContent d;
     elements := elements d;
     followISSBtn_textContent := followISSBtn_textContent d;
     followISSBtn_background := followISSBtn_background d;
     loadingScreen_hidden := loadingScreen_hidden d; alerts := v |}.

Definition set_console (v : list (Level * string)) (s : Sys) : Sys :=
  {| console := v; now := now s; timers := timers s;
     requests := requests s; loader_pending := loader_pending s |}.

Definition set_now (v : nat) (s : Sys) : Sys :=
  {| console := console s; now := v; timers := timers s;
     requests := requests s; loader_pending := loader_pending s |}.

Definition set_timers (v : list Timer) (s : Sys) : Sys :=
  {| console := console s; now := now s; timers := v;
     requests := requests s; loader_pending := loader_pending s |}.

Definition set_requests (v : list Request) (s : Sys) : Sys :=
  {| console := console s; now := now s; timers := timers s;
     requests := v; loader_pending := loader_pending s |}.

Definition set_loader_pending (v : bool) (s : Sys) : Sys :=
  {| console := console s; now := now s; timers := timers s;
     requests := requests s; loader_pending := v |}.

(** ** The program *)

(** [import.meta.env]: each variable is a string or [undefined]. *)
Record Env := {
  VITE_ISS_API_URL : option string;
  VITE_MAPBOX_ACCESS_TOKEN : option string }.

(** How a call of [fetch] ends: its promise rejects, or a response
    arrives, whose [json()] yields a value or rejects ([None]). *)
Inductive FetchOutcome :=
| Rejected
| Responded (ok : bool) (status : nat) (statusText : string) (json : option jsval).

(** The object [modelTransform] of [render]. *)
Record ModelTransform := {
  translateX : float;
  translateY : float;
  translateZ : float;
  scale : float }.

Section Program.

(** What the host supplies: Mapbox's projection of a coordinate (one
    that [LngLat.convert] has let pass) and an altitude, the number and
    time formatting of the engine, and the centre of a loaded model's
    bounding box.  Each is a function: a call of the host returns, and
    returns the same for the same arguments. *)
Variable fromLngLat : mapboxgl.LngLat -> float -> mapboxgl.MercatorCoordinate.
Variable meterInMercatorCoordinateUnits : mapboxgl.MercatorCoordinate -> float.
Variable toFixed : float -> nat -> string.
Variable toLocaleTimeString : nat -> string.
Variable Box3_getCenter : THREE.Object3D -> THREE.Vector3 float.

Variable env : Env.

(** *** Configuration *)

Definition ISS_API_URL : option string := VITE_ISS_API_URL env.
Definition ISS_MODEL_PATH : string := "/ISS_stationary.glb".
Definition MAPBOX_ACCESS_TOKEN : option string := VITE_MAPBOX_ACCESS_TOKEN env.

(** *** Host calls *)

Definition console_log (text : string) : M unit :=
  modify (with_sys (fun s => set_console (console s ++ [(Log, text)]) s)).

Definition console_error (text : string) : M unit :=
  modify (with_sys (fun s => set_console (console s ++ [(ErrorLevel, text)]) s)).

Definition alert (text : string) : M unit :=
  modify (with_dom (fun d => set_alerts (alerts d ++ [text]) d)).

(** [fetch(url)] issues the request at once and returns a promise. *)
Definition fetch (url : option string) : M unit :=
  modify (with_sys (fun s =>
    set_requests
      (requests s ++ [{| req_time := now s; req_url := url; req_settled := false |}]) s)).

Definition setInterval (cb : Callback) (delay : nat) : M unit :=
  modify (with_sys (fun s =>
    set_timers
      (timers s ++ [{| callback := cb; due := now s + delay; period := Some delay |}]) s)).

Definition setTimeout (cb : Callback) (delay : nat) : M unit :=
  modify (with_sys (fun s =>
    set_timers
      (timers s ++ [{| callback := cb; due := now s + delay; period := None |}]) s)).

Definition map_getSource (id : string) : M (option mapboxgl.PointFeature) :=
  gets (fun w => sources (mapbox w) !! id).

(** [map.addSource(id, ...)] and [source.setData(...)] *)
Definition map_setSource (id : string) (data : mapboxgl.PointFeature) : M unit :=
  modify (with_mapbox (fun m => set_sources (<[id := data]> (sources m)) m)).

Definition map_addLayer (id : string) : M unit :=
  modify (with_mapbox (fun m => set_layers (layers m ++ [id]) m)).

Definition map_triggerRepaint : M unit :=
  modify (with_mapbox (fun m => set_repaints (S (repaints m)) m)).

(** [map.easeTo(...)] and [map.flyTo(...)]: the request is recorded; what
    the camera does with it is the host's, and the call is taken to
    return. *)
Definition map_move (c : CameraMove) : M unit :=
  modify (with_mapbox (fun m => set_moves (moves m ++ [c]) m)).

(** [new THREE....(...)]: a fresh object. *)
Definition new_object (o : THREE.Object3D) : M ObjId :=
  fun w =>
    let id := next_id w in
    (Normal id,
     {| layer := layer w; heap := <[id := o]> (heap w); next_id := S id;
        frames := frames w; mapbox := mapbox w; dom := dom w; sys := sys w;
        isFollowingISS := isFollowingISS w |}).

Definition update_object (id : ObjId) (f : THREE.Object3D -> THREE.Object3D) : M unit :=
  modify (with_heap (alter f id)).

(** [this.scene.add(object)] *)
Definition scene_add (id : ObjId) : M unit :=
  sc ← gets (fun w => scene (layer w));
  match sc with
  | None => throw (TypeError "Cannot read properties of undefined (reading 'add')")
  | Some l => modify (with_layer (set_scene (Some (l ++ [id]))))
  end.

(** *** The UI functions the feed calls *)

Definition updateStatusIndicator (status text : string) : M unit :=
  modify (with_dom (set_status ("status-dot " +:+ status) text)).

Definition set_textContent (id text : string) : M unit :=
  modify (with_dom (fun d => set_elements (<[id := text]> (elements d)) d)).

(** The position passed is an object, so the early return on a falsy
    argument is not taken. *)
Definition updateISSInfo (issPosition : mapboxgl.LngLat) : M unit :=
  positionElement ← gets (fun w => elements (dom w) !! "position");
  when (bool_decide (is_Some positionElement))
    (set_textContent "position"
       (toFixed (mapboxgl.lat issPosition) 4 +:+ "°, "
        +:+ toFixed (mapboxgl.lng issPosition) 4 +:+ "°"));;
  lastUpdateElement ← gets (fun w => elements (dom w) !! "lastUpdate");
  when (bool_decide (is_Some lastUpdateElement))
    (t ← gets (fun w => now (sys w));
     set_textContent "lastUpdate" (toLocaleTimeString t)).

Definition toggleFollowISS : M unit :=
  following ← gets isFollowingISS;
  let following := negb following in
  modify (set_isFollowingISS following);;
  (if following then
     modify (with_dom (set_followISSBtn "Stop Following" (Some "#ef4444")));;
     updateStatusIndicator "connected" "Following ISS"
   else
     modify (with_dom (set_followISSBtn "Follow ISS" (Some "#3b82f6")));;
     updateStatusIndicator "connected" "ISS Connected");;
  console_log (if following then "🎯 Started following ISS" else "⏹️ Stopped following ISS").

Definition resetMapView : M unit :=
  map_move (FlyTo {| mapboxgl.center := (0, 0)%float; mapboxgl.zoom := 1.5;
                     mapboxgl.pitch := Some 0%float; mapboxgl.bearing := Some 0%float;
                     mapboxgl.duration := 2000 |});;
  modify (set_isFollowingISS false);;
  modify (with_dom (set_followISSBtn "Follow ISS" (Some "#3b82f6")));;
  updateStatusIndicator "connected" "ISS Connected";;
  console_log "🌍 Map view reset".

(** *** [fetchIssPosition]

    The call runs up to the first [await]: it issues the request.  The
    rest runs when the request's promise settles. *)

Definition fetchIssPosition : M unit := fetch ISS_API_URL.

Definition lift {A} (r : Exception + A) : M A :=
  match r with
  | inl e => throw e
  | inr a => ret a
  end.

Definition fetchIssPosition_resume (outcome : FetchOutcome) : M unit :=
  try_catch
    (match outcome with
     | Rejected => throw (TypeError "Failed to fetch")
     | Responded ok status statusText json =>
         if negb ok then
           throw (NewError ("HTTP " +:+ pretty status +:+ ": " +:+ statusText))
         else
           match json with
           | None => throw (SyntaxError "Unexpected token in JSON")
           | Some data =>
               longitude ← lift (get_property data "longitude");
               latitude ← lift (get_property data "latitude");
               let issPosition :=
                 {| mapboxgl.lng := parseFloat longitude;
                    mapboxgl.lat := parseFloat latitude |} in
               if isNaN (mapboxgl.lng issPosition) || isNaN (mapboxgl.lat issPosition)
               then throw (NewError "Invalid coordinates received from API")
               else
                 modify (with_layer (set_issPosition (Some issPosition)));;
                 source ← map_getSource "iss-marker";
                 when (bool_decide (is_Some source))
                   (map_setSource "iss-marker"
                      {| mapboxgl.coordinates :=
                           (mapboxgl.lng issPosition, mapboxgl.lat issPosition) |});;
                 following ← gets isFollowingISS;
                 when following
                   (zoom ← gets (fun w => getZoom (mapbox w));
                    map_move (EaseTo
                      {| mapboxgl.center :=
                           (mapboxgl.lng issPosition, mapboxgl.lat issPosition);
                         mapboxgl.zoom := Math_max zoom 3;
                         mapboxgl.pitch := None; mapboxgl.bearing := None;
                         mapboxgl.duration := 1000 |}));;
                 updateISSInfo issPosition;;
                 updateStatusIndicator "connected" "ISS Connected";;
                 map_triggerRepaint;;
                 console_log ("🛰️ ISS Position: "
                              +:+ toFixed (mapboxgl.lat issPosition) 4 +:+ "°, "
                              +:+ toFixed (mapboxgl.lng issPosition) 4
                              +:+ "° | Altitude: ~408km")
           end
     end)
    (fun error =>
       console_error ("❌ Error fetching ISS position: " +:+ message error);;
       updateStatusIndicator "error" "Connection Error").

(** *** [issCustomLayer] *)

Definition basic_material (c : N) : THREE.Material :=
  {| THREE.material_type := THREE.MeshBasicMaterial; THREE.color := c;
     THREE.emissive := None; THREE.emissiveIntensity := None;
     THREE.wireframe := false; THREE.transparent := false;
     THREE.opacity := 1 |}.

Definition lambert_material (c e : N) : THREE.Material :=
  {| THREE.material_type := THREE.MeshLambertMaterial; THREE.color := c;
     THREE.emissive := Some e; THREE.emissiveIntensity := None;
     THREE.wireframe := false; THREE.transparent := false;
     THREE.opacity := 1 |}.

Definition new_Mesh (g : THREE.Geometry) (m : THREE.Material)
    (px py pz : float) (rz : float) : THREE.Mesh :=
  {| THREE.geometry := g; THREE.material := m;
     THREE.mesh_position := THREE.mkVector3 px py pz;
     THREE.rotation_z := rz |}.

(** [Math.PI / 2] *)
Definition half_pi : float := 0x1.921fb54442d18p+0%float.

(** The procedural model: a group of eight meshes, scaled by a tenth. *)
Definition createISSModel : THREE.Object3D :=
  let bodyGeometry := THREE.BoxGeometry 4 0.6 0.6 in
  let bodyMaterial := lambert_material 0xFFFFFF 0x333333 in
  let body := new_Mesh bodyGeometry bodyMaterial 0 0 0 0 in
  let panelGeometry := THREE.BoxGeometry 3 0.1 1.6 in
  let panelMaterial := lambert_material 0x0066FF 0x001133 in
  let leftPanel1 := new_Mesh panelGeometry panelMaterial (-3) 0.8 0 0 in
  let leftPanel2 := new_Mesh panelGeometry panelMaterial (-3) (-0.8) 0 0 in
  let rightPanel1 := new_Mesh panelGeometry panelMaterial 3 0.8 0 0 in
  let rightPanel2 := new_Mesh panelGeometry panelMaterial 3 (-0.8) 0 0 in
  let moduleGeometry := THREE.CylinderGeometry 0.3 0.3 1.6 in
  let moduleMaterial := lambert_material 0xFFFFFF 0x222222 in
  let module1 := new_Mesh moduleGeometry moduleMaterial 1 0 0.6 half_pi in
  let module2 := new_Mesh moduleGeometry moduleMaterial (-1) 0 0.6 half_pi in
  let markerGeometry := THREE.SphereGeometry 0.2 in
  let markerMaterial :=
    {| THREE.material_type := THREE.MeshBasicMaterial; THREE.color := 0xFF0000;
       THREE.emissive := Some 0xFF0000%N; THREE.emissiveIntensity := None;
       THREE.wireframe := false; THREE.transparent := false;
       THREE.opacity := 1 |} in
  let marker := new_Mesh markerGeometry markerMaterial 0 0 1 0 in
  let issGroup := THREE.new_Object3D THREE.Group in
  let issGroup :=
    set_children [body; leftPanel1; leftPanel2; rightPanel1; rightPanel2;
                  module1; module2; marker] issGroup in
  set_object_scale (THREE.mkVector3 0.1 0.1 0.1)%float issGroup.

(** The loader's success callback.  [gltf.scene] is an object the loader
    has just built, with the meshes of the asset below it. *)
Definition brighten (m : THREE.Mesh) : THREE.Mesh :=
  {| THREE.geometry := THREE.geometry m;
     THREE.material :=
       {| THREE.material_type := THREE.material_type (THREE.material m);
          THREE.color := 0xFFFFFF;
          THREE.emissive := Some 0x444444%N;
          THREE.emissiveIntensity := Some 0.5%float;
          THREE.wireframe := THREE.wireframe (THREE.material m);
          THREE.transparent := false;
          THREE.opacity := 1 |};
     THREE.mesh_position := THREE.mesh_position m;
     THREE.rotation_z := THREE.rotation_z m |}.

Definition add_child (m : THREE.Mesh) (o : THREE.Object3D) : THREE.Object3D :=
  set_children (THREE.children o ++ [m]) o.

Definition onLoad (meshes : list THREE.Mesh) : M unit :=
  let gltf_scene := set_children meshes (THREE.new_Object3D THREE.GltfScene) in
  console_log "📦 GLB file loaded, processing model...";;
  model ← new_object gltf_scene;
  modify (with_layer (set_issModel (Some model)));;
  let meshCount := length (THREE.children gltf_scene) in
  console_log "🔍 Model analysis:";;
  console_log "   - Total children:";;
  console_log ("   - Mesh objects: " +:+ pretty meshCount);;
  console_log "   - Original size:";;
  let targetScale := 0.1%float in
  update_object model
    (set_object_scale (THREE.mkVector3 targetScale targetScale targetScale));;
  console_log "   - Applied scale: 0.1";;
  let simpleISS :=
    new_Mesh (THREE.BoxGeometry 0.5 0.5 0.5) (basic_material 0xFF0000) 0 0 0 0 in
  update_object model (add_child simpleISS);;
  console_log "   - Added simple red cube for visibility";;
  update_object model
    (fun o => set_position (THREE.Vector3_sub (THREE.position o) (Box3_getCenter o)) o);;
  update_object model (fun o => set_children (List.map brighten (THREE.children o)) o);;
  let debugBox :=
    new_Mesh (THREE.BoxGeometry 2 2 2)
      {| THREE.material_type := THREE.MeshBasicMaterial; THREE.color := 0x00FF00;
         THREE.emissive := None; THREE.emissiveIntensity := None;
         THREE.wireframe := true; THREE.transparent := false;
         THREE.opacity := 1 |} 0 0 0 0 in
  update_object model (add_child debugBox);;
  scene_add model;;
  console_log "✅ ISS GLB model added to scene successfully";;
  console_log "🌟 All materials enhanced for maximum visibility";;
  console_log "📦 Added debug wireframe box".

(** The loader's progress callback logs a percentage, not modelled. *)
Definition onProgress : M unit :=
  console_log "📥 Loading ISS model:".

(** The loader's error callback. *)
Definition onError : M unit :=
  console_error "❌ CRITICAL: Failed to load ISS GLB model:";;
  console_log "🔄 Falling back to procedural model...";;
  model ← new_object createISSModel;
  modify (with_layer (set_issModel (Some model)));;
  scene_add model;;
  console_log "✅ Fallback procedural model created and added".

(** [loader.load(ISS_MODEL_PATH, onLoad, onProgress, onError)]: the
    loader calls back later, [onLoad] or [onError] once. *)
Definition loader_load : M unit :=
  modify (with_sys (set_loader_pending true)).

Definition onAdd : M unit :=
  modify (with_layer
    (set_camera (Some {| projectionMatrix := THREE.identity 0%float 1%float |})));;
  modify (with_layer (set_scene (Some [])));;
  ambientLight ← new_object (THREE.new_Object3D (THREE.AmbientLight 0xffffff 0.8));
  scene_add ambientLight;;
  directionalLight ←
    new_object (set_position (THREE.mkVector3 5 3 5)%float
                  (THREE.new_Object3D (THREE.DirectionalLight 0xffffff 1)));
  scene_add directionalLight;;
  cube ←
    new_object (THREE.new_Object3D
                  (THREE.MeshObject (THREE.BoxGeometry 0.1 0.1 0.1)
                                    (basic_material 0xFF00FF)));
  modify (with_layer (set_testCube (Some cube)));;
  scene_add cube;;
  console_log "🧪 Added magenta test cube for verification";;
  console_log ("🚀 Starting ISS GLB model loading from: " +:+ ISS_MODEL_PATH);;
  loader_load;;
  modify (with_layer (set_map_renderer {| autoClear := false |})).

(** The constant of [render]. *)
Definition altitude : float := 800000.

(** [mapboxgl.MercatorCoordinate.fromLngLat(position, altitude)]: the
    position is converted first, which throws for a latitude out of
    range; [fromLngLat] is the projection of a position that has passed. *)
Definition MercatorCoordinate_fromLngLat (position : mapboxgl.LngLat) (altitude : float)
  : Exception + mapboxgl.MercatorCoordinate :=
  match mapboxgl.LngLat_convert position with
  | inl e => inl e
  | inr lngLat => inr (fromLngLat lngLat altitude)
  end.

(** Lines 293-298 of [render]: the projection as translation and scale. *)
Definition modelTransform (modelAsMercator : mapboxgl.MercatorCoordinate)
  : ModelTransform :=
  {| translateX := mapboxgl.x modelAsMercator;
     translateY := mapboxgl.y modelAsMercator;
     translateZ := or_zero (mapboxgl.z modelAsMercator);
     scale := meterInMercatorCoordinateUnits modelAsMercator |}.

Definition modelMatrix (t : ModelTransform) : THREE.Matrix4 float :=
  THREE.scale PrimFloat.mul
    (THREE.makeTranslation 0%float 1%float
       (translateX t) (translateY t) (translateZ t))
    (THREE.mkVector3 (scale t) (- scale t)%float (scale t)).

Definition Matrix4_multiply := THREE.multiply PrimFloat.add PrimFloat.mul.

(** [this.renderer.state.reset()]; the state of the graphics context is
    not part of the model. *)
Definition renderer_state_reset : M unit :=
  r ← gets (fun w => renderer (layer w));
  match r with
  | Some _ => ret tt
  | None => throw (TypeError "Cannot read properties of undefined (reading 'state')")
  end.

(** [this.renderer.render(this.scene, this.camera)] *)
Definition renderer_render : M unit :=
  r ← gets (fun w => renderer (layer w));
  sc ← gets (fun w => scene (layer w));
  cam ← gets (fun w => camera (layer w));
  match r, sc, cam with
  | Some _, Some ids, Some c =>
      modify (fun w =>
        push_frame {| drawn := omap (fun id => heap w !! id) ids;
                      projection := projectionMatrix c |} w)
  | _, _, _ => throw (TypeError "Cannot read properties of undefined")
  end.

(** [render(gl, matrix)]; [random] is what the one call of
    [Math.random()] on the path taken returns. *)
Definition render (matrix : THREE.Matrix4 float) (random : float) : M unit :=
  model ← gets (fun w => issModel (layer w));
  match model with
  | None =>
      when (random <? 0.01)%float
        (console_log "⏸️ Render skipped - ISS model not loaded yet")
  | Some model =>
      published ← gets (fun w => issPosition (layer w));
      let position :=
        default {| mapboxgl.lng := 0; mapboxgl.lat := 0 |} published in
      modelAsMercator ← lift (MercatorCoordinate_fromLngLat position altitude);
      let t := modelTransform modelAsMercator in
      when (random <? 0.001)%float (console_log "🎯 Render transform:");;
      let modelMatrix := modelMatrix t in
      update_object model
        (set_matrix (Matrix4_multiply (THREE.fromArray matrix) modelMatrix));;
      update_object model (set_matrixAutoUpdate false);;
      cube ← gets (fun w => testCube (layer w));
      match cube with
      | Some cube =>
          update_object cube
            (set_matrix (Matrix4_multiply (THREE.fromArray matrix) modelMatrix));;
          update_object cube (set_matrixAutoUpdate false)
      | None => ret tt
      end;;
      cam ← gets (fun w => camera (layer w));
      match cam with
      | None => throw (TypeError "Cannot set properties of undefined (setting 'projectionMatrix')")
      | Some _ =>
          modify (with_layer
            (set_camera (Some {| projectionMatrix := THREE.fromArray matrix |})))
      end;;
      renderer_state_reset;;
      renderer_render;;
      attached ← gets (fun w => map (layer w));
      if attached : bool then map_triggerRepaint
      else throw (TypeError "Cannot read properties of undefined (reading 'triggerRepaint')")
  end.

(** *** The handlers of the map's [load] event, in the order they are
    registered: the layer and the ground marker (line 350), then the
    timeout of [initializeUI].  [map.addLayer] calls the layer's [onAdd].
    The handler of line 47 touches the map's request manager only. *)
Definition on_map_load : M unit :=
  modify (with_mapbox (set_loaded true));;
  map_addLayer "iss-layer";;
  onAdd;;
  map_setSource "iss-marker" {| mapboxgl.coordinates := (0, 0)%float |};;
  map_addLayer "iss-marker-layer";;
  setTimeout CbHideLoadingScreen 2000.

Definition initializeUI : M unit :=
  updateStatusIndicator "connecting" "Connecting...";;
  console_log "🎮 Responsive UI initialized".

(** *** The module's top level, in source order: the two checks of the
    configuration, the map and its handlers (which run at [MapLoad]), the
    first poll and the interval timer, then the UI.

    [new mapboxgl.Map(...)] of lines 22-44 runs on the host's side and is
    taken to return: [main] describes the pages on which the map was
    constructed.  Nothing here says that start-up goes on when the host
    refuses the token. *)
Definition main : M unit :=
  when (falsy_string MAPBOX_ACCESS_TOKEN
        || bool_decide (MAPBOX_ACCESS_TOKEN = Some "YOUR_MAPBOX_ACCESS_TOKEN"))
    (console_error "❌ Missing Mapbox access token! Please set VITE_MAPBOX_ACCESS_TOKEN in your .env file";;
     alert "Missing Mapbox access token! Please check your .env file.");;
  when (falsy_string ISS_API_URL)
    (console_error "❌ Missing ISS API URL! Please set VITE_ISS_API_URL in your .env file");;
  fetchIssPosition;;
  setInterval CbFetchIssPosition 2000;;
  modify (set_isFollowingISS false);;
  initializeUI;;
  console_log "📱 Responsive ISS Tracker initialized successfully!".

(** The page before the module runs: [page] holds the text of the
    guarded elements that [index.html] has. *)
Definition blank (page : gmap string string) : World :=
  {| layer := {| camera := None; scene := None; testCube := None;
                 issModel := None; issPosition := None; map := false;
                 renderer := None |};
     heap := ∅; next_id := 0; frames := [];
     mapbox := {| loaded := false; sources := ∅; layers := [];
                  repaints := 0; moves := []; getZoom := 1.5 |};
     dom := {| statusDot_className := ""; statusText_textContent := "";
               elements := page;
               followISSBtn_textContent := ""; followISSBtn_background := "";
               loadingScreen_hidden := false; alerts := [] |};
     sys := {| console := []; now := 0; timers := []; requests := [];
               loader_pending := false |};
     isFollowingISS := false |}.

Definition start (page : gmap string string) : World := exec main (blank page).

(** *** The event loop *)

Definition run_callback (c : Callback) : M unit :=
  match c with
  | CbFetchIssPosition => fetchIssPosition
  | CbHideLoadingScreen =>
      modify (with_dom (set_loadingScreen_hidden true));;
      updateStatusIndicator "connected" "ISS Connected"
  end.

Definition is_due (t : nat) (tm : Timer) : bool := Nat.eqb (due tm) t.

Definition reschedule (t : nat) (tm : Timer) : list Timer :=
  if is_due t tm then
    match period tm with
    | Some p => [{| callback := callback tm; due := due tm + p; period := Some p |}]
    | None => []
    end
  else [tm].

(** One millisecond passes; the timers due then fire in the order they
    were registered, and a repeating one is set again a period later. *)
Definition tick (w : World) : World :=
  let t := S (now (sys w)) in
  let registered := timers (sys w) in
  let due_now := List.filter (is_due t) registered in
  let w1 :=
    with_sys (fun s => set_timers (flat_map (reschedule t) registered) (set_now t s)) w in
  fold_left (fun w tm => exec (run_callback (callback tm)) w) due_now w1.

(** What can happen to the page: the map fires [load]; the loader
    reports progress, success or failure; the host draws a frame, calling
    [render] with its camera matrix; time passes; the promise of the
    [id]-th call of [fetch] settles; the user zooms, or asks to follow the
    station or to reset the view (by button or by key). *)
Inductive Event :=
| MapLoad
| ModelProgress
| ModelLoaded (meshes : list THREE.Mesh)
| ModelError
| HostFrame (matrix : THREE.Matrix4 float) (random : float)
| Advance (ms : nat)
| Response (id : nat) (outcome : FetchOutcome)
| Zoom (z : float)
| ClickFollow
| ClickReset.

Definition settle (r : Request) : Request :=
  {| req_time := req_time r; req_url := req_url r; req_settled := true |}.

(** The map fires [load] once, the loader calls back only while pending,
    a frame is drawn only once the layer is on the map, and a promise
    settles once. *)
Definition step (e : Event) (w : World) : World :=
  match e with
  | MapLoad => if loaded (mapbox w) then w else exec on_map_load w
  | ModelProgress => if loader_pending (sys w) then exec onProgress w else w
  | ModelLoaded meshes =>
      if loader_pending (sys w)
      then exec (onLoad meshes) (with_sys (set_loader_pending false) w)
      else w
  | ModelError =>
      if loader_pending (sys w)
      then exec onError (with_sys (set_loader_pending false) w)
      else w
  | HostFrame matrix random =>
      if bool_decide ("iss-layer" ∈ layers (mapbox w))
      then exec (render matrix random) w
      else w
  | Advance ms => Nat.iter ms tick w
  | Response id outcome =>
      match requests (sys w) !! id with
      | Some r =>
          if req_settled r then w
          else exec (fetchIssPosition_resume outcome)
                 (with_sys (fun s => set_requests (<[id := settle r]> (requests s)) s) w)
      | None => w
      end
  | Zoom z => with_mapbox (set_getZoom z) w
  | ClickFollow => exec toggleFollowISS w
  | ClickReset => exec resetMapView w
  end.

Definition run (events : list Event) (w : World) : World :=
  fold_left (fun w e => step e w) events w.
End Program.

Arguments MercatorCoordinate_fromLngLat : simpl never.

(** ** What the claims observe, and the words of the specification *)

(** The published position: the register the feed writes and [render]
    and the UI read. *)
Definition published (w : World) : option mapboxgl.LngLat := issPosition (layer w).

(** The connectivity status shown: the class of the status dot. *)
Definition status (w : World) : string := statusDot_className (dom w).

(** The model's world matrix and the camera's projection matrix. *)
Definition model_matrix (w : World) : option (THREE.Matrix4 float) :=
  id ← issModel (layer w);
  o ← heap w !! id;
  Some (THREE.matrix o).



(** The position [render] projects: the published one, or the origin. *)
Definition current_position (w : World) : mapboxgl.LngLat :=
  default {| mapboxgl.lng := 0; mapboxgl.lat := 0 |} (published w).

Inductive ModelReadiness := loading | ready_primary | ready_fallback.

(** Readiness is implicit in the code: no model yet, the loader's scene,
    or the group [createISSModel] builds. *)
Definition readiness (w : World) : ModelReadiness :=
  match issModel (layer w) with
  | None => loading
  | Some id =>
      match THREE.kind <$> heap w !! id with
      | Some THREE.Group => ready_fallback
      | _ => ready_primary
      end
  end.

(** What decides the layer's lifecycle: its references, the objects, the
    map's [load] flag and the loader's pending callback. *)
Definition structure (w : World) :=
  (issModel (layer w), scene (layer w), camera (layer w), renderer (layer w),
   map (layer w), testCube (layer w), heap w, next_id w, loaded (mapbox w),
   loader_pending (sys w)).

(** The part of it that a frame leaves alone. *)
Definition skeleton (w : World) :=
  (issModel (layer w), scene (layer w), renderer (layer w), map (layer w),
   testCube (layer w), next_id w, loaded (mapbox w), loader_pending (sys w)).

(** The kind and the meshes of an object: what a frame does not touch. *)
Definition shape (o : THREE.Object3D) : THREE.ObjectKind * list THREE.Mesh :=
  (THREE.kind o, THREE.children o).

(** [onAdd] has run. *)
Definition layer_added (w : World) : Prop :=
  is_Some (camera (layer w)) /\ is_Some (scene (layer w))
  /\ is_Some (renderer (layer w)) /\ map (layer w) = true.

(** Before the map has loaded there is no loader and no model; while the
    loader is pending there is no model yet and the layer is set up. *)
Definition lifecycle (w : World) : Prop :=
  (loaded (mapbox w) = false ->
   loader_pending (sys w) = false /\ issModel (layer w) = None)
  /\ (loader_pending (sys w) = true ->
      issModel (layer w) = None /\ layer_added w).

(** The procedural model is attached as object [id], it is in the scene,
    and the loader has called back. *)
Definition fallback_attached (id : ObjId) (w : World) : Prop :=
  issModel (layer w) = Some id
  /\ shape <$> heap w !! id = Some (shape createISSModel)
  /\ (exists ids, scene (layer w) = Some ids /\ id ∈ ids)
  /\ layer_added w
  /\ loaded (mapbox w) = true
  /\ loader_pending (sys w) = false.

(** When each call of [fetch] was issued, oldest first. *)
Definition poll_times (w : World) : list nat := req_time <$> requests (sys w).

(** The timers, the clock and the requests. *)
Definition clock (w : World) : list Timer * nat * list Request :=
  (timers (sys w), now (sys w), requests (sys w)).

(** The interval timer of the poll loop, due next at [t]. *)
Definition poll_timer (t : nat) : Timer :=
  {| callback := CbFetchIssPosition; due := t; period := Some 2000 |}.

(** A timer set with [setTimeout] to hide the loading screen. *)
Definition is_hide_timeout (tm : Timer) : Prop :=
  callback tm = CbHideLoadingScreen /\ period tm = None.

(** The state of the poll loop after its [k]-th tick: the interval timer
    is the first timer and is due at [2000 * (k + 1)], the clock has not
    reached that, and the fetches so far were issued at [0], [2000], ...,
    [2000 * k], each with the configured endpoint. *)
Definition poll_loop (url : option string) (k : nat) (w : World) : Prop :=
  (exists rest, timers (sys w) = poll_timer (2000 * (k + 1)) :: rest
                /\ Forall is_hide_timeout rest)
  /\ 2000 * k <= now (sys w) < 2000 * (k + 1)
  /\ poll_times w = (fun i => 2000 * i) <$> seq 0 (S k)
  /\ Forall (fun r => req_url r = url) (requests (sys w)).

Definition in_range (lo hi x : float) : bool := ((lo <=? x) && (x <=? hi))%float.

(** The invariant of [GeoPosition] in the specification's data model. *)
Definition valid_GeoPosition (p : mapboxgl.LngLat) : bool :=
  is_finite (mapboxgl.lat p) && is_finite (mapboxgl.lng p)
  && in_range (-90) 90 (mapboxgl.lat p)
  && in_range (-180) 180 (mapboxgl.lng p).

(** A field of the payload as the specification words it: missing, or
    present with a value that is numeric or not. *)
Definition field_missing (data : jsval) (key : string) : bool :=
  match get_property data key with
  | inr JUndefined | inl _ => true
  | inr _ => false
  end.

Definition field_numeric (data : jsval) (key : string) : bool :=
  match get_property data key with
  | inr v => is_numeric v
  | inl _ => false
  end.

(** What [parseFloat] makes of a field; a read that throws yields nothing
    to parse. *)
Definition field_parsed (data : jsval) (key : string) : float :=
  match get_property data key with
  | inr v => parseFloat v
  | inl _ => nan
  end.

(** A response that arrived with a success status and a JSON body. *)
Definition payload (data : jsval) : FetchOutcome :=
  Responded true 200 "OK" (Some data).

(** The position with which the [try] block of [fetchIssPosition] gets
    past its validation, if it does. *)
Definition accepted (outcome : FetchOutcome) : option mapboxgl.LngLat :=
  match outcome with
  | Responded true _ _ (Some data) =>
      match get_property data "longitude", get_property data "latitude" with
      | inr longitude, inr latitude =>
          if isNaN (parseFloat longitude) || isNaN (parseFloat latitude) then None
          else Some {| mapboxgl.lng := parseFloat longitude;
                       mapboxgl.lat := parseFloat latitude |}
      | _, _ => None
      end
  | _ => None
  end.

(** The text [updateISSInfo] writes at time [t], where the elements exist. *)
Definition shown (toFixed : float -> nat -> string) (toLocaleTimeString : nat -> string)
    (p : mapboxgl.LngLat) (t : nat) (els : gmap string string) : gmap string string :=
  let els1 :=
    if bool_decide (is_Some (els !! "position"))
    then <["position" := toFixed (mapboxgl.lat p) 4 +:+ "°, "
                         +:+ toFixed (mapboxgl.lng p) 4 +:+ "°"]> els
    else els in
  if bool_decide (is_Some (els1 !! "lastUpdate"))
  then <["lastUpdate" := toLocaleTimeString t]> els1
  else els1.

(** ** A host to run the program on

    Stand-ins for what the host supplies, so that the program can be run
    on concrete inputs: a projection that is linear in the coordinates,
    and formatting that prints nothing. *)

Module Sample.

Definition earthCircumference : float := 40075016.68.

Definition fromLngLat (p : mapboxgl.LngLat) (altitude : float)
  : mapboxgl.MercatorCoordinate :=
  {| mapboxgl.x := ((180 + mapboxgl.lng p) / 360)%float;
     mapboxgl.y := ((180 - mapboxgl.lat p) / 360)%float;
     mapboxgl.z := (altitude / earthCircumference)%float |}.

Definition meterInMercatorCoordinateUnits (m : mapboxgl.MercatorCoordinate) : float :=
  (1 / earthCircumference)%float.

Definition toFixed (x : float) (digits : nat) : string := "".

Definition toLocaleTimeString (t : nat) : string := "".

Definition Box3_getCenter (o : THREE.Object3D) : THREE.Vector3 float :=
  THREE.mkVector3 0%float 0%float 0%float.

Definition env : Env :=
  {| VITE_ISS_API_URL := Some "http://api.open-notify.org/iss-now.json";
     VITE_MAPBOX_ACCESS_TOKEN := Some "pk.token" |}.

(** No endpoint configured. *)
Definition env_no_url : Env :=
  {| VITE_ISS_API_URL := None; VITE_MAPBOX_ACCESS_TOKEN := Some "pk.token" |}.

(** A page with the two guarded elements. *)
Definition page : gmap string string :=
  <["position" := "--"]> (<["lastUpdate" := "--"]> ∅).

Definition run (e : Env) : list Event -> World -> World :=
  run fromLngLat meterInMercatorCoordinateUnits toFixed toLocaleTimeString
      Box3_getCenter e.

Definition resume : FetchOutcome -> M unit :=
  fetchIssPosition_resume toFixed toLocaleTimeString.

Definition render : THREE.Matrix4 float -> float -> M unit :=
  render fromLngLat meterInMercatorCoordinateUnits.

(** The payload of the specification's example, and three that the
    specification would have rejected. *)
Definition london : jsval :=
  JObj (<["latitude" := JStr "51.6"]> (<["longitude" := JStr "-0.1"]> ∅)).

Definition out_of_range : jsval :=
  JObj (<["latitude" := JStr "200"]> (<["longitude" := JStr "500"]> ∅)).

Definition infinite : jsval :=
  JObj (<["latitude" := JStr "Infinity"]> (<["longitude" := JStr "0"]> ∅)).

Definition trailing_text : jsval :=
  JObj (<["latitude" := JStr "12abc"]> (<["longitude" := JStr "5"]> ∅)).

Definition no_longitude : jsval :=
  JObj (<["latitude" := JNum 51.6]> ∅).

(** Two camera matrices. *)
Definition cameraMatrix : THREE.Matrix4 float :=
  (THREE.mkMatrix4 float 1 2 3 4 5 6 7 8 9 10 11 12 13 14 15 16)%float.

Definition otherMatrix : THREE.Matrix4 float :=
  (THREE.mkMatrix4 float 2 0 0 0 0 2 0 0 0 0 2 0 0 0 0 1)%float.

(** The page once the module has run; once the map has loaded and the
    asset has failed to load; and once a position has been published. *)
Definition started : World := start env page.

Definition fallen_back : World := run env [MapLoad; ModelError] started.


End Sample.

(** ** Computations that leave an observation of the state alone *)

Definition preserves {A X : Type} (f : World -> X) (m : M A) : Prop :=
  forall w, f (snd (m w)) = f w.

(** ** The rest of the UI: the info panel and the keyboard *)

(** The page with the state of the info panel, which the layer and the
    feed do not read: the flag [panelOpen], and whether the panel and the
    menu button carry their classes [open] and [active]. *)
Record Page := {
  world : World;
  panelOpen : bool;
  infoPanel_open : bool;
  menuToggle_active : bool }.

Definition with_world (f : World -> World) (pg : Page) : Page :=
  {| world := f (world pg); panelOpen := panelOpen pg;
     infoPanel_open := infoPanel_open pg;
     menuToggle_active := menuToggle_active pg |}.

(** [classList.toggle(name, force)] leaves the class present exactly when
    [force] holds. *)
Definition toggleInfoPanel (pg : Page) : Page :=
  let open := negb (panelOpen pg) in
  {| world :=
       with_dom
         (set_followISSBtn
            (if isFollowingISS (world pg) then "Stop Following" else "Follow ISS")
            None)
         (world pg);
     panelOpen := open;
     infoPanel_open := open;
     menuToggle_active := open |}.

(** [handleKeydown(event)], on [event.key]. *)
Definition handleKeydown (key : string) (pg : Page) : Page :=
  if String.eqb key "Escape" then
    if panelOpen pg then toggleInfoPanel pg else pg
  else if String.eqb key "f" || String.eqb key "F" then
    with_world (exec toggleFollowISS) pg
  else if String.eqb key "r" || String.eqb key "R" then
    with_world (exec resetMapView) pg
  else if String.eqb key "i" || String.eqb key "I" then
    toggleInfoPanel pg
  else pg.

(** What can happen to the page with its panel: an event of the loop, a
    key, or a click on the menu button or on the panel's close button
    (both are bound to [toggleInfoPanel]). *)
Inductive PageEvent :=
| Loop (e : Event)
| Keydown (key : string)
| ClickMenuToggle
| ClickClosePanel.

Section PageLoop.
Variable fromLngLat : mapboxgl.LngLat -> float -> mapboxgl.MercatorCoordinate.
Variable meterInMercatorCoordinateUnits : mapboxgl.MercatorCoordinate -> float.
Variable toFixed : float -> nat -> string.
Variable toLocaleTimeString : nat -> string.
Variable Box3_getCenter : THREE.Object3D -> THREE.Vector3 float.
Variable env : Env.

Definition page_step (e : PageEvent) (pg : Page) : Page :=
  match e with
  | Loop e =>
      with_world
        (step fromLngLat meterInMercatorCoordinateUnits toFixed toLocaleTimeString
              Box3_getCenter env e) pg
  | Keydown key => handleKeydown key pg
  | ClickMenuToggle | ClickClosePanel => toggleInfoPanel pg
  end.

Definition page_run (events : list PageEvent) (pg : Page) : Page :=
  fold_left (fun pg e => page_step e pg) events pg.

(** The page once the module has run: [let panelOpen = false]; the panel
    and the menu button are taken to come without their classes. *)
Definition page_start (page : gmap string string) : Page :=
  {| world := start env page; panelOpen := false;
     infoPanel_open := false; menuToggle_active := false |}.
End PageLoop.

(** ** More of what the code keeps *)

(** Where the ground marker is, once its source exists. *)
Definition marker (w : World) : option (float * float) :=
  mapboxgl.coordinates <$> sources (mapbox w) !! "iss-marker".

Definition lng_lat (p : mapboxgl.LngLat) : float * float :=
  (mapboxgl.lng p, mapboxgl.lat p).

(** The marker is where [addSource] put it, or at the published position. *)
Definition marker_follows_register (w : World) : Prop :=
  match marker w with
  | None => True
  | Some c => c = (0, 0)%float \/ Some c = lng_lat <$> published w
  end.

(** The map has loaded, a position is published, and the marker is at it. *)
Definition marker_mirrors (w : World) : Prop :=
  loaded (mapbox w) = true
  /\ exists p, published w = Some p /\ marker w = Some (lng_lat p).

(** The layers and sources of the map: none before [load], and after it
    the two layers and the one source the [load] handler adds. *)
Definition map_objects (w : World) : Prop :=
  if loaded (mapbox w)
  then layers (mapbox w) = ["iss-layer"; "iss-marker-layer"]
       /\ base.dom (sources (mapbox w)) = ({["iss-marker"]} : gset string)
  else layers (mapbox w) = [] /\ sources (mapbox w) = ∅.

(** The shapes of the three objects [onAdd] puts in the scene. *)
Definition ambientLight_shape : THREE.ObjectKind * list THREE.Mesh :=
  (THREE.AmbientLight 0xffffff 0.8, []).

Definition directionalLight_shape : THREE.ObjectKind * list THREE.Mesh :=
  (THREE.DirectionalLight 0xffffff 1, []).

Definition testCube_shape : THREE.ObjectKind * list THREE.Mesh :=
  (THREE.MeshObject (THREE.BoxGeometry 0.1 0.1 0.1) (basic_material 0xFF00FF), []).

Definition base_objects (w : World) : Prop :=
  shape <$> heap w !! 0 = Some ambientLight_shape
  /\ shape <$> heap w !! 1 = Some directionalLight_shape
  /\ shape <$> heap w !! 2 = Some testCube_shape.

(** The states of the layer: before the map's [load]; set up, with the
    loader pending; and with a model of shape [sh] attached. *)
Inductive Phase :=
| Unloaded
| AssetLoading
| ModelReady (sh : THREE.ObjectKind * list THREE.Mesh).

Definition in_phase (ph : Phase) (w : World) : Prop :=
  match ph with
  | Unloaded =>
      loaded (mapbox w) = false /\ loader_pending (sys w) = false
      /\ issModel (layer w) = None /\ scene (layer w) = None
      /\ testCube (layer w) = None /\ next_id w = 0
  | AssetLoading =>
      loaded (mapbox w) = true /\ loader_pending (sys w) = true
      /\ issModel (layer w) = None /\ scene (layer w) = Some [0; 1; 2]
      /\ testCube (layer w) = Some 2 /\ next_id w = 3
      /\ layer_added w /\ base_objects w
  | ModelReady sh =>
      loaded (mapbox w) = true /\ loader_pending (sys w) = false
      /\ issModel (layer w) = Some 3 /\ scene (layer w) = Some [0; 1; 2; 3]
      /\ testCube (layer w) = Some 2 /\ next_id w = 4
      /\ layer_added w /\ base_objects w
      /\ shape <$> heap w !! 3 = Some sh
  end.

(** The two meshes [onLoad] adds to the asset. *)
Definition simpleISS : THREE.Mesh :=
  new_Mesh (THREE.BoxGeometry 0.5 0.5 0.5) (basic_material 0xFF0000) 0 0 0 0.

Definition debugBox : THREE.Mesh :=
  new_Mesh (THREE.BoxGeometry 2 2 2)
    {| THREE.material_type := THREE.MeshBasicMaterial; THREE.color := 0x00FF00;
       THREE.emissive := None; THREE.emissiveIntensity := None;
       THREE.wireframe := true; THREE.transparent := false;
       THREE.opacity := 1 |} 0 0 0 0.

(** The shape of the loaded asset once [onLoad] has processed it: its
    meshes and the red cube brightened, then the wireframe box. *)
Definition primary_shape (meshes : list THREE.Mesh) : THREE.ObjectKind * list THREE.Mesh :=
  (THREE.GltfScene, List.map brighten (meshes ++ [simpleISS]) ++ [debugBox]).

(** The label and the colour of the follow button for a follow flag. *)
Definition follow_label (following : bool) : string :=
  if following then "Stop Following" else "Follow ISS".

Definition follow_colour (following : bool) : string :=
  if following then "#ef4444" else "#3b82f6".

(** The button shows what the page came with, or what the flag says. *)
Definition button_agrees (initial : Dom) (w : World) : Prop :=
  (followISSBtn_textContent (dom w) = followISSBtn_textContent initial
   \/ followISSBtn_textContent (dom w) = follow_label (isFollowingISS w))
  /\ (followISSBtn_background (dom w) = followISSBtn_background initial
      \/ followISSBtn_background (dom w) = follow_colour (isFollowingISS w)).

(** What the feed and the layer own. *)
Definition feed_and_layer (w : World) :=
  (layer w, heap w, frames w, sources (mapbox w), elements (dom w),
   requests (sys w), timers (sys w), loader_pending (sys w)).

(** A response that carries no payload: the request failed, the status
    is not a success, or the body is not JSON. *)
Definition transport_failure (o : FetchOutcome) : bool :=
  match o with
  | Rejected => true
  | Responded ok _ _ json =>
      negb ok || match json with None => true | Some _ => false end
  end.

(** The move [fetchIssPosition] asks of the map when following. *)
Definition follow_move (p : mapboxgl.LngLat) (currentZoom : float) : CameraMove :=
  EaseTo {| mapboxgl.center := (mapboxgl.lng p, mapboxgl.lat p);
            mapboxgl.zoom := Math_max currentZoom 3;
            mapboxgl.pitch := None; mapboxgl.bearing := None;
            mapboxgl.duration := 1000 |}.

(** The events by which the user asks for a camera move. *)
Definition asks_camera (e : PageEvent) : bool :=
  match e with
  | Loop ClickFollow | Loop ClickReset => true
  | Keydown key =>
      bool_decide (key ∈ ["f"; "F"; "r"; "R"])
  | _ => false
  end.

(** What the map holds and what the feed has published. *)
Definition map_and_register (w : World) :=
  (loaded (mapbox w), layers (mapbox w), sources (mapbox w), published w).

(** The class of the status dot with the text beside it. *)
Definition status_shown (w : World) : string * string :=
  (statusDot_className (dom w), statusText_textContent (dom w)).

(** The pairs [updateStatusIndicator] is called with. *)
Definition status_pairs : list (string * string) :=
  [("status-dot connecting", "Connecting...");
   ("status-dot connected", "ISS Connected");
   ("status-dot connected", "Following ISS");
   ("status-dot error", "Connection Error")].

(** The timeout that hides the loading screen, due at [t]. *)
Definition hide_timer (t : nat) : Timer :=
  {| callback := CbHideLoadingScreen; due := t; period := None |}.

(** Before the map's [load] the interval timer is the only timer and
    the loading screen shows. *)
Definition before_load (w : World) : Prop :=
  loaded (mapbox w) = false ->
  exists d, timers (sys w) = [poll_timer d] /\ now (sys w) < d
            /\ loadingScreen_hidden (dom w) = false.

(** After the map's [load] at a time [h - 2000]: the loading screen shows
    while its timeout is pending, and is hidden from [h] on. *)
Definition after_load (h : nat) (w : World) : Prop :=
  loaded (mapbox w) = true
  /\ exists d, now (sys w) < d
     /\ ((now (sys w) < h /\ timers (sys w) = [poll_timer d; hide_timer h]
          /\ loadingScreen_hidden (dom w) = false)
         \/ (h <= now (sys w) /\ timers (sys w) = [poll_timer d]
             /\ loadingScreen_hidden (dom w) = true)).

(** The timers, the clock and the loading screen. *)
Definition loading_screen (w : World) :=
  (loaded (mapbox w), timers (sys w), now (sys w), loadingScreen_hidden (dom w)).

(** The layer as a machine of three states: the map's [load] starts the
    loader, and the loader's first callback attaches a model; no other
    event changes the state. *)
Definition next_phase (e : Event) (ph : Phase) : Phase :=
  match ph, e with
  | Unloaded, MapLoad => AssetLoading
  | AssetLoading, ModelLoaded meshes => ModelReady (primary_shape meshes)
  | AssetLoading, ModelError => ModelReady (shape createISSModel)
  | _, _ => ph
  end.

Definition phase_after (events : list Event) : Phase :=
  fold_left (fun ph e => next_phase e ph) events Unloaded.

(** A material after the traversal that makes it visible. *)
Definition made_visible (m : THREE.Mesh) : Prop :=
  THREE.color (THREE.material m) = 0xFFFFFF%N
  /\ THREE.emissive (THREE.material m) = Some 0x444444%N
  /\ THREE.emissiveIntensity (THREE.material m) = Some 0.5%float
  /\ THREE.transparent (THREE.material m) = false
  /\ THREE.opacity (THREE.material m) = 1%float.

(** The shapes a model can have. *)
Definition model_shape (sh : THREE.ObjectKind * list THREE.Mesh) : Prop :=
  sh = shape createISSModel \/ exists meshes, sh = primary_shape meshes.

(** The matrix and the update flag of an object. *)
Definition placement (o : THREE.Object3D) : THREE.Matrix4 float * bool :=
  (THREE.matrix o, THREE.matrixAutoUpdate o).

(** What the follow control shows, with the flag it stands for. *)
Definition follow_control (w : World) :=
  (followISSBtn_textContent (dom w), followISSBtn_background (dom w),
   isFollowingISS w).

(** The events that say nothing of the camera. *)
Definition quiet (events : list PageEvent) : bool :=
  forallb (fun e => negb (asks_camera e)) events.

(** The classes of the panel and of the menu button say what the flag
    says. *)
Definition panel_agrees (pg : Page) : Prop :=
  infoPanel_open pg = panelOpen pg /\ menuToggle_active pg = panelOpen pg.

(** * Properties *)

(** ** Comparisons of floats

    A comparison that holds has no NaN on either side. *)

Lemma SFcompare_refl (s : spec_float) : s <> S754_nan -> SFcompare s s = Some Eq.
Proof.
  destruct s as [sg|sg| |sg m e]; simpl; intros H; try congruence.
  - now destruct sg.
  - destruct sg; rewrite Z.compare_refl, Pos.compare_cont_refl; reflexivity.
Qed.

Lemma leb_true_not_nan (a b : float) :
  (a <=? b)%float = true -> is_nan a = false /\ is_nan b = false.
Proof.
  rewrite FloatAxioms.leb_spec. unfold is_nan. rewrite !FloatAxioms.eqb_spec.
  unfold SFleb, SFeqb. intros H.
  assert (Prim2SF a <> S754_nan /\ Prim2SF b <> S754_nan) as [Ha Hb].
  { destruct (Prim2SF a), (Prim2SF b); simpl in H; split; congruence. }
  rewrite !SFcompare_refl by assumption. auto.
Qed.

Lemma SFcompare_antisym (a b : spec_float) :
  SFcompare b a = CompOpp <$> SFcompare a b.
Proof.
  destruct a as [sa|sa| |sa ma ea], b as [sb|sb| |sb mb eb]; simpl;
    try reflexivity;
    try (destruct sa; reflexivity); try (destruct sb; reflexivity);
    try (destruct sa, sb; reflexivity).
  destruct sa, sb; try reflexivity;
    rewrite (Z.compare_antisym ea eb); destruct (ea ?= eb)%Z; simpl;
    try reflexivity;
    rewrite (Pos.compare_cont_antisym ma mb Eq); simpl;
    destruct (Pos.compare_cont Eq ma mb); reflexivity.
Qed.


(** A comparison that holds excludes the strict one the other way, and
    of two numbers one is below the other or they compare equal. *)
Lemma leb_true_ltb_false (a b : float) :
  (a <=? b)%float = true -> (b <? a)%float = false.
Proof.
  rewrite FloatAxioms.leb_spec, FloatAxioms.ltb_spec. unfold SFleb, SFltb.
  rewrite (SFcompare_antisym (Prim2SF a) (Prim2SF b)).
  destruct (SFcompare (Prim2SF a) (Prim2SF b)) as [[]|]; simpl; congruence.
Qed.

Lemma leb_false_ltb_true (a b : float) :
  is_nan a = false -> is_nan b = false ->
  (a <=? b)%float = false -> (b <? a)%float = true.
Proof.
  unfold is_nan. rewrite !FloatAxioms.eqb_spec, FloatAxioms.leb_spec, FloatAxioms.ltb_spec.
  unfold SFeqb, SFleb, SFltb. intros Ha Hb.
  assert (Prim2SF a <> S754_nan) as Hna.
  { intros E. rewrite E in Ha. discriminate. }
  assert (Prim2SF b <> S754_nan) as Hnb.
  { intros E. rewrite E in Hb. discriminate. }
  rewrite (SFcompare_antisym (Prim2SF a) (Prim2SF b)).
  assert (exists c, SFcompare (Prim2SF a) (Prim2SF b) = Some c) as [c ->].
  { destruct (Prim2SF a), (Prim2SF b); simpl; try congruence; eauto.
    all: repeat match goal with s : bool |- _ => destruct s end; eauto.
    all: destruct (_ ?= _)%Z; eauto. }
  destruct c; simpl; congruence.
Qed.

(** [LngLat.convert] lets a position pass exactly when its longitude is
    a number and its latitude lies in [-90, 90]. *)
Lemma LngLat_convert_in_range (p : mapboxgl.LngLat) :
  is_nan (mapboxgl.lng p) = false ->
  ((-90 <=? mapboxgl.lat p) && (mapboxgl.lat p <=? 90))%float = true ->
  mapboxgl.LngLat_convert p = inr p.
Proof.
  intros Hlng Hlat. apply andb_true_iff in Hlat as [Hlo Hhi].
  unfold mapboxgl.LngLat_convert, isNaN.
  rewrite Hlng, (proj1 (leb_true_not_nan _ _ Hhi)),
    (leb_true_ltb_false _ _ Hlo), (leb_true_ltb_false _ _ Hhi).
  reflexivity.
Qed.

Lemma LngLat_convert_out_of_range (p : mapboxgl.LngLat) :
  ((-90 <=? mapboxgl.lat p) && (mapboxgl.lat p <=? 90))%float = false ->
  exists e, mapboxgl.LngLat_convert p = inl e.
Proof.
  intros Hlat. unfold mapboxgl.LngLat_convert, isNaN.
  destruct (is_nan (mapboxgl.lng p)) eqn:Hlng; [eauto|].
  destruct (is_nan (mapboxgl.lat p)) eqn:Hnan; [eauto|]. simpl.
  apply andb_false_iff in Hlat as [Hlo|Hhi].
  - rewrite (leb_false_ltb_true (-90) (mapboxgl.lat p) eq_refl Hnan Hlo), orb_true_r.
    eauto.
  - rewrite (leb_false_ltb_true (mapboxgl.lat p) 90 Hnan eq_refl Hhi). eauto.
Qed.

Section Preserves.
Context {X : Type} (f : World -> X).

Lemma preserves_ret {A} (a : A) : preserves f (ret a).
Proof. intros w. reflexivity. Qed.

Lemma preserves_throw {A} e : preserves f (@throw A e).
Proof. intros w. reflexivity. Qed.

Lemma preserves_gets {A} (g : World -> A) : preserves f (gets g).
Proof. intros w. reflexivity. Qed.

Lemma preserves_modify (g : World -> World) :
  (forall w, f (g w) = f w) -> preserves f (modify g).
Proof. intros H w. apply H. Qed.

Lemma preserves_bind {A B} (m : M A) (k : A -> M B) :
  preserves f m -> (forall a, preserves f (k a)) -> preserves f (bind m k).
Proof.
  intros Hm Hk w. unfold bind. specialize (Hm w).
  destruct (m w) as [[a|e] w']; simpl in *.
  - rewrite Hk. exact Hm.
  - exact Hm.
Qed.

Lemma preserves_try_catch {A} (m : M A) (h : Exception -> M A) :
  preserves f m -> (forall e, preserves f (h e)) -> preserves f (try_catch m h).
Proof.
  intros Hm Hh w. unfold try_catch. specialize (Hm w).
  destruct (m w) as [[a|e] w']; simpl in *.
  - exact Hm.
  - rewrite Hh. exact Hm.
Qed.

Lemma preserves_new_object o :
  (forall w h n, f {| layer := layer w; heap := h; next_id := n;
                      frames := frames w; mapbox := mapbox w; dom := dom w;
                      sys := sys w; isFollowingISS := isFollowingISS w |} = f w) ->
  preserves f (new_object o).
Proof. intros H w. apply H. Qed.

Lemma preserves_exec (m : M unit) w : preserves f m -> f (exec m w) = f w.
Proof. intros H. apply H. Qed.
End Preserves.

Ltac preserves_step :=
  lazymatch goal with
  | |- preserves _ (ret _) => apply preserves_ret
  | |- preserves _ (throw _) => apply preserves_throw
  | |- preserves _ (gets _) => apply preserves_gets
  | |- preserves _ (modify _) => apply preserves_modify; intros; reflexivity
  | |- preserves _ (new_object _) => apply preserves_new_object; intros; reflexivity
  | |- preserves _ (try_catch _ _) => apply preserves_try_catch; [| intros ?]
  | |- preserves _ (bind _ _) => apply preserves_bind; [| intros ?]
  | |- preserves _ (mbind _ _) => apply preserves_bind; [| intros ?]
  | |- preserves _ (match ?x with _ => _ end) => destruct x
  | |- preserves _ (match ?x with _ => _ end _) => destruct x
  | |- preserves _ (match ?x with _ => _ end _ _) => destruct x
  end.

Ltac preserves_unfold :=
  unfold render, renderer_render, renderer_state_reset,
    fetchIssPosition_resume, fetchIssPosition,
    onLoad, onError, onProgress, onAdd, on_map_load, loader_load,
    toggleFollowISS, resetMapView, initializeUI, updateISSInfo,
    updateStatusIndicator, set_textContent, scene_add, update_object,
    map_move, map_triggerRepaint, map_addLayer, map_setSource, map_getSource,
    setTimeout, setInterval, fetch, alert, console_error, console_log,
    lift, when.

(** Running a computation on a state: unfold the monad. *)
Ltac run_monad :=
  unfold exec, try_catch, lift, when, mbind, M_bind, mret, M_ret,
    bind, ret, throw, gets, modify in *;
  simpl in *.

(** Name the fields of a state. *)
Ltac destruct_world w :=
  let cam := fresh "cam" in let sc := fresh "sc" in let cube := fresh "cube" in
  let model := fresh "model" in let pos := fresh "pos" in
  let attached := fresh "attached" in let rd := fresh "rd" in
  let hp := fresh "hp" in let nid := fresh "nid" in let frs := fresh "frs" in
  let mbx := fresh "mbx" in let dm := fresh "dm" in let sy := fresh "sy" in
  let fol := fresh "fol" in
  destruct w as [[cam sc cube model pos attached rd] hp nid frs mbx dm sy fol];
  simpl in *.

Ltac preserves_auto :=
  intros; repeat (progress preserves_unfold); repeat preserves_step.

(** ** The position feed *)

Section Feed.
Variable toFixed : float -> nat -> string.
Variable toLocaleTimeString : nat -> string.

Local Abbreviation resume := (fetchIssPosition_resume toFixed toLocaleTimeString).

Lemma resume_rejected outcome w :
  accepted outcome = None ->
  let w' := exec (resume outcome) w in
  published w' = published w
  /\ status w' = "status-dot error"
  /\ statusText_textContent (dom w') = "Connection Error"
  /\ mapbox w' = mapbox w /\ layer w' = layer w /\ heap w' = heap w.
Proof.
  intros H. destruct outcome as [|ok st stt [data|]]; simpl in H.
  - repeat split.
  - destruct ok; [| repeat split].
    unfold fetchIssPosition_resume.
    destruct (get_property data "longitude") as [e1|vlng]; [repeat split|].
    destruct (get_property data "latitude") as [e2|vlat]; [repeat split|].
    run_monad.
    destruct (isNaN (parseFloat vlng) || isNaN (parseFloat vlat)); [repeat split|].
    discriminate.
  - destruct ok; repeat split.
Qed.

Lemma resume_accepted outcome p w :
  accepted outcome = Some p ->
  let w' := exec (resume outcome) w in
  fst (resume outcome w) = Normal tt
  /\ published w' = Some p
  /\ status w' = "status-dot connected"
  /\ statusText_textContent (dom w') = "ISS Connected"
  /\ elements (dom w') = shown toFixed toLocaleTimeString p (now (sys w)) (elements (dom w))
  /\ sources (mapbox w') =
       (if bool_decide (is_Some (sources (mapbox w) !! "iss-marker"))
        then <["iss-marker" :=
                 {| mapboxgl.coordinates := (mapboxgl.lng p, mapboxgl.lat p) |}]>
               (sources (mapbox w))
        else sources (mapbox w))
  /\ repaints (mapbox w') = S (repaints (mapbox w)).
Proof.
  intros H. destruct outcome as [|ok st stt [data|]]; simpl in H; try discriminate.
  2: { destruct ok; discriminate. }
  destruct ok; [|discriminate].
  unfold fetchIssPosition_resume.
  destruct (get_property data "longitude") as [e1|vlng]; [discriminate|].
  destruct (get_property data "latitude") as [e2|vlat]; [discriminate|].
  unfold shown. preserves_unfold. run_monad.
  destruct (isNaN (parseFloat vlng) || isNaN (parseFloat vlat)); [discriminate|].
  injection H as <-. simpl.
  destruct (sources (mapbox w) !! "iss-marker"); run_monad;
    destruct (isFollowingISS w); run_monad;
    destruct (elements (dom w) !! "position") eqn:Hp; run_monad;
    rewrite ?lookup_insert_ne by discriminate;
    destruct (elements (dom w) !! "lastUpdate") eqn:Hl; run_monad;
    repeat split.
Qed.
(** A number that is neither NaN nor a zero parses to itself. *)
Lemma parseFloat_number (f : float) :
  is_nan f = false -> is_zero f = false -> parseFloat (JNum f) = f.
Proof. intros Hn Hz. simpl. rewrite Hn, Hz. reflexivity. Qed.

Lemma field_missing_parsed data key :
  field_missing data key = true -> is_nan (field_parsed data key) = true.
Proof.
  unfold field_missing, field_parsed.
  destruct (get_property data key) as [e|[]]; try discriminate; reflexivity.
Qed.

Lemma field_parsed_value data key :
  is_nan (field_parsed data key) = false ->
  exists v, get_property data key = inr v /\ field_parsed data key = parseFloat v.
Proof.
  unfold field_parsed. destruct (get_property data key) as [e|v].
  - discriminate.
  - intros _. exists v. split; reflexivity.
Qed.

Lemma accepted_NaN ok st stt data :
  is_nan (field_parsed data "latitude") = true
  \/ is_nan (field_parsed data "longitude") = true ->
  accepted (Responded ok st stt (Some data)) = None.
Proof.
  unfold field_parsed, accepted, isNaN. destruct ok; [|reflexivity].
  destruct (get_property data "longitude") as [e1|vlng]; [reflexivity|].
  destruct (get_property data "latitude") as [e2|vlat]; [reflexivity|].
  intros [-> | ->]; [rewrite orb_true_r|]; reflexivity.
Qed.

Lemma accepted_parsed st stt data :
  is_nan (field_parsed data "latitude") = false ->
  is_nan (field_parsed data "longitude") = false ->
  accepted (Responded true st stt (Some data))
  = Some {| mapboxgl.lng := field_parsed data "longitude";
            mapboxgl.lat := field_parsed data "latitude" |}.
Proof.
  intros Hlat Hlng.
  destruct (field_parsed_value _ _ Hlat) as (vlat & Elat & Plat).
  destruct (field_parsed_value _ _ Hlng) as (vlng & Elng & Plng).
  unfold accepted, isNaN. rewrite Elat, Elng, <- Plat, <- Plng, Hlat, Hlng.
  reflexivity.
Qed.

(** C2 (amended).  For every poll whose payload is missing the latitude
    or the longitude field, or carries for either a value that
    [parseFloat] reads as NaN (one with no number at its start), the
    published position after the poll is the one before it and the
    connectivity status becomes [error]. *)
Theorem unparsable_payload_leaves_position w ok st stt data :
  field_missing data "latitude" = true
  \/ field_missing data "longitude" = true
  \/ is_nan (field_parsed data "latitude") = true
  \/ is_nan (field_parsed data "longitude") = true ->
  let w' := exec (resume (Responded ok st stt (Some data))) w in
  published w' = published w
  /\ status w' = "status-dot error"
  /\ statusText_textContent (dom w') = "Connection Error".
Proof.
  intros H w'.
  assert (accepted (Responded ok st stt (Some data)) = None) as Hacc.
  { apply accepted_NaN.
    destruct H as [H|[H|[H|H]]]; auto using field_missing_parsed. }
  destruct (resume_rejected _ w Hacc) as (H1 & H2 & H3 & _). auto.
Qed.

(** C3.  For every payload whose latitude and longitude fields parse to
    numbers within the valid ranges, a successful poll publishes the
    position with [lat] the parsed latitude field and [lng] the parsed
    longitude field, and sets the connectivity status to [connected]. *)
Theorem in_range_payload_is_published w st stt data :
  in_range (-90) 90 (field_parsed data "latitude") = true ->
  in_range (-180) 180 (field_parsed data "longitude") = true ->
  let w' := exec (resume (Responded true st stt (Some data))) w in
  published w'
  = Some {| mapboxgl.lng := field_parsed data "longitude";
            mapboxgl.lat := field_parsed data "latitude" |}
  /\ status w' = "status-dot connected"
  /\ statusText_textContent (dom w') = "ISS Connected".
Proof.
  intros Hlat Hlng w'. unfold in_range in Hlat, Hlng.
  apply andb_true_iff in Hlat as [_ Hlat]. apply andb_true_iff in Hlng as [_ Hlng].
  apply leb_true_not_nan in Hlat as [Hlat _].
  apply leb_true_not_nan in Hlng as [Hlng _].
  pose proof (accepted_parsed st stt data Hlat Hlng) as Hacc.
  destruct (resume_accepted _ _ w Hacc) as (_ & H1 & H2 & H3 & _). auto.
Qed.

End Feed.

(** ** The render callback *)

(** Over exact numbers, here the integers, [scale] after [makeTranslation]
    is the matrix product of the translation and the scale matrix. *)
Lemma scale_of_translation_is_product (tx ty tz sx sy sz : Z) :
  THREE.scale Z.mul (THREE.makeTranslation 0%Z 1%Z tx ty tz) (THREE.mkVector3 sx sy sz)
  = THREE.multiply Z.add Z.mul
      (THREE.makeTranslation 0%Z 1%Z tx ty tz) (THREE.makeScale 0%Z 1%Z sx sy sz).
Proof.
  unfold THREE.scale, THREE.multiply, THREE.makeTranslation, THREE.makeScale,
    THREE.set, THREE.row_col; simpl.
  f_equal; ring.
Qed.

Section Render.
Variable fromLngLat : mapboxgl.LngLat -> float -> mapboxgl.MercatorCoordinate.
Variable meterInMercatorCoordinateUnits : mapboxgl.MercatorCoordinate -> float.

Local Abbreviation render_frame :=
  (render fromLngLat meterInMercatorCoordinateUnits).
Local Abbreviation project := (MercatorCoordinate_fromLngLat fromLngLat).
Local Abbreviation transform := (modelTransform meterInMercatorCoordinateUnits).

Lemma model_matrix_Some w m :
  model_matrix w = Some m <->
  exists id o, issModel (layer w) = Some id /\ heap w !! id = Some o
               /\ THREE.matrix o = m.
Proof.
  unfold model_matrix. split.
  - destruct (issModel (layer w)) as [id|]; simpl; [|discriminate].
    destruct (heap w !! id) as [o|] eqn:Ho; simpl; [|discriminate].
    intros [= <-]. exists id, o. auto.
  - intros (id & o & -> & Ho & <-). simpl. rewrite Ho. reflexivity.
Qed.

(** C9.  Whenever [render] is invoked while no model is attached, it
    returns normally without drawing, without touching any object's
    matrix or the camera, and without asking the host for another frame:
    no frame is drawn, and the objects, the layer and the map are as they
    were. *)
Theorem render_without_model_is_skipped w matrix random :
  issModel (layer w) = None ->
  fst (render_frame matrix random w) = Normal tt
  /\ frames (exec (render_frame matrix random) w) = frames w
  /\ heap (exec (render_frame matrix random) w) = heap w
  /\ layer (exec (render_frame matrix random) w) = layer w
  /\ mapbox (exec (render_frame matrix random) w) = mapbox w.
Proof.
  intros H. unfold render. preserves_unfold. run_monad. rewrite H.
  destruct (random <? 0.01)%float; repeat split.
Qed.

(** The projection of a position whose longitude is a number and whose
    latitude is in range returns; out of range it throws. *)
Lemma project_in_range p a :
  is_nan (mapboxgl.lng p) = false ->
  in_range (-90) 90 (mapboxgl.lat p) = true ->
  project p a = inr (fromLngLat p a).
Proof.
  intros Hlng Hlat. unfold MercatorCoordinate_fromLngLat.
  rewrite (LngLat_convert_in_range p Hlng Hlat). reflexivity.
Qed.

Lemma project_out_of_range p a :
  in_range (-90) 90 (mapboxgl.lat p) = false -> exists e, project p a = inl e.
Proof.
  intros Hlat. unfold MercatorCoordinate_fromLngLat.
  destruct (LngLat_convert_out_of_range p Hlat) as [e ->]. eauto.
Qed.

(** With a model attached, [render] throws what the projection throws,
    before it has changed anything. *)
Lemma render_throws w matrix random id e :
  issModel (layer w) = Some id ->
  project (current_position w) altitude = inl e ->
  render_frame matrix random w = (Throw e, w).
Proof.
  intros Hid He. unfold render, current_position, published in *.
  unfold mbind, M_bind, bind, gets, lift. rewrite Hid, He. reflexivity.
Qed.

Lemma render_throws_exec w matrix random id e :
  issModel (layer w) = Some id ->
  project (current_position w) altitude = inl e ->
  exec (render_frame matrix random) w = w.
Proof.
  intros Hid He. unfold exec. rewrite (render_throws w matrix random id e Hid He).
  reflexivity.
Qed.

(** What a call of [render] leaves in an object's [matrix]. *)
Lemma render_heap w matrix random id m :
  issModel (layer w) = Some id ->
  project (current_position w) altitude = inr m ->
  THREE.matrix <$> heap (exec (render_frame matrix random) w) !! id
  = (fun _ => Matrix4_multiply (THREE.fromArray matrix) (modelMatrix (transform m)))
    <$> heap w !! id.
Proof.
  intros H Hm. unfold render, current_position, published in *.
  repeat (progress preserves_unfold).
  destruct_world w. subst. run_monad. rewrite Hm.
  destruct (random <? 0.001)%float, cube, cam, rd, sc, attached; simpl;
    rewrite ?lookup_alter; repeat case_decide; subst; try congruence;
    destruct (hp !! id); reflexivity.
Qed.
Lemma render_issModel matrix random :
  preserves (fun w => issModel (layer w)) (render_frame matrix random).
Proof. preserves_auto. Qed.



(** The model's matrix after a call of [render], in a state where a model
    is attached and the position projects. *)
Lemma render_model_matrix w matrix random m :
  is_Some (model_matrix w) ->
  project (current_position w) altitude = inr m ->
  model_matrix (exec (render_frame matrix random) w)
  = Some (Matrix4_multiply (THREE.fromArray matrix) (modelMatrix (transform m))).
Proof.
  intros [m0 Hm0] Hm. apply model_matrix_Some in Hm0 as (id & o & Hid & Ho & _).
  pose proof (render_heap w matrix random id m Hid Hm) as Hheap.
  rewrite Ho in Hheap. simpl in Hheap.
  assert (issModel (layer (exec (render_frame matrix random) w)) = Some id) as Hid'.
  { rewrite <- Hid. apply (render_issModel matrix random w). }
  unfold model_matrix. rewrite Hid'. simpl.
  destruct (heap (exec (render_frame matrix random) w) !! id) as [o'|];
    simpl in *; congruence.
Qed.

(** C4 (amended).  For every camera matrix and every current position
    whose longitude is a number and whose latitude lies in [-90, 90], the
    matrix [render] assigns to the attached model is the camera matrix
    times the translation by Mapbox's projection of the position at the
    fixed altitude (its third coordinate replaced by 0 when it is falsy),
    scaled by [(s, -s, s)], where [s] is the scale of that projection.
    For a latitude outside the range the projection throws, and [render]
    leaves the model's matrix as it was. *)
Theorem render_composes_camera_translation_scale w matrix random :
  is_Some (model_matrix w) ->
  let position := current_position w in
  let modelAsMercator := fromLngLat position 800000 in
  let s := meterInMercatorCoordinateUnits modelAsMercator in
  (is_nan (mapboxgl.lng position) = false ->
   in_range (-90) 90 (mapboxgl.lat position) = true ->
   model_matrix (exec (render_frame matrix random) w)
   = Some (THREE.multiply PrimFloat.add PrimFloat.mul
             (THREE.fromArray matrix)
             (THREE.scale PrimFloat.mul
                (THREE.makeTranslation 0%float 1%float
                   (mapboxgl.x modelAsMercator) (mapboxgl.y modelAsMercator)
                   (or_zero (mapboxgl.z modelAsMercator)))
                (THREE.mkVector3 s (- s)%float s))))
  /\ (in_range (-90) 90 (mapboxgl.lat position) = false ->
      model_matrix (exec (render_frame matrix random) w) = model_matrix w).
Proof.
  intros H position modelAsMercator s. split.
  - intros Hlng Hlat.
    rewrite (render_model_matrix w matrix random modelAsMercator H
               (project_in_range position altitude Hlng Hlat)).
    reflexivity.
  - intros Hlat. destruct (project_out_of_range position altitude Hlat) as [e He].
    destruct H as [m0 Hm0]. apply model_matrix_Some in Hm0 as (id & _ & Hid & _).
    rewrite (render_throws_exec w matrix random id e Hid He). reflexivity.
Qed.


Lemma render_skeleton matrix random :
  preserves skeleton (render_frame matrix random).
Proof. preserves_auto. Qed.

Lemma render_camera_Some w matrix random :
  is_Some (camera (layer w)) ->
  is_Some (camera (layer (exec (render_frame matrix random) w))).
Proof.
  intros [c Hc]. unfold render. repeat (progress preserves_unfold).
  destruct_world w. subst. run_monad.
  destruct model; run_monad.
  - destruct (MercatorCoordinate_fromLngLat _ _ _); run_monad; [eauto|].
    destruct (random <? 0.001)%float, cube, rd, sc, attached; simpl; eauto.
  - destruct (random <? 0.01)%float; simpl; eauto.
Qed.

(** A frame changes no object's kind or meshes. *)
Lemma render_shape w matrix random i :
  shape <$> heap (exec (render_frame matrix random) w) !! i = shape <$> heap w !! i.
Proof.
  unfold render. repeat (progress preserves_unfold).
  destruct_world w. run_monad.
  destruct model as [id|]; run_monad.
  - destruct (MercatorCoordinate_fromLngLat _ _ _); run_monad; [reflexivity|].
    destruct (random <? 0.001)%float, cube, cam, rd, sc, attached; simpl;
      rewrite ?lookup_alter; repeat case_decide; subst;
      destruct (_ !! i); reflexivity.
  - destruct (random <? 0.01)%float; reflexivity.
Qed.

(** The draw path: with a model attached, the layer set up and a
    position that projects, [render] returns normally, draws the scene as
    the frame left it with the camera matrix as projection, and asks for a
    repaint. *)
Lemma render_draws w matrix random id ids m :
  issModel (layer w) = Some id ->
  scene (layer w) = Some ids ->
  layer_added w ->
  project (current_position w) altitude = inr m ->
  let w' := exec (render_frame matrix random) w in
  fst (render_frame matrix random w) = Normal tt
  /\ frames w'
     = frames w ++ [{| drawn := omap (fun i => heap w' !! i) ids;
                       projection := THREE.fromArray matrix |}]
  /\ repaints (mapbox w') = S (repaints (mapbox w)).
Proof.
  intros Hid Hsc ([c Hc] & _ & [r Hr] & Hmap) Hm.
  unfold render, current_position, published in *. repeat (progress preserves_unfold).
  destruct_world w. subst. run_monad. rewrite Hm.
  destruct (random <? 0.001)%float, cube; repeat split.
Qed.
End Render.

(** ** The event loop *)

Section Loop.
Variable fromLngLat : mapboxgl.LngLat -> float -> mapboxgl.MercatorCoordinate.
Variable meterInMercatorCoordinateUnits : mapboxgl.MercatorCoordinate -> float.
Variable toFixed : float -> nat -> string.
Variable toLocaleTimeString : nat -> string.
Variable Box3_getCenter : THREE.Object3D -> THREE.Vector3 float.
Variable env : Env.

Local Abbreviation step :=
  (step fromLngLat meterInMercatorCoordinateUnits toFixed toLocaleTimeString
        Box3_getCenter env).
Local Abbreviation run :=
  (run fromLngLat meterInMercatorCoordinateUnits toFixed toLocaleTimeString
       Box3_getCenter env).
Local Abbreviation resume := (fetchIssPosition_resume toFixed toLocaleTimeString).

Local Arguments Nat.mul : simpl never.

Lemma run_nil w : run [] w = w.
Proof. reflexivity. Qed.

Lemma run_cons e events w : run (e :: events) w = run events (step e w).
Proof. reflexivity. Qed.

Lemma run_app events1 events2 w :
  run (events1 ++ events2) w = run events2 (run events1 w).
Proof. apply fold_left_app. Qed.

(** A property every step keeps holds after any run. *)
Lemma run_invariant (P : World -> Prop) :
  (forall e w, P w -> P (step e w)) ->
  forall events w, P w -> P (run events w).
Proof.
  intros Hstep events. induction events as [|e events IH]; intros w Hw.
  - exact Hw.
  - rewrite run_cons. apply IH, Hstep, Hw.
Qed.

Lemma iter_invariant (P : World -> Prop) (g : World -> World) :
  (forall w, P w -> P (g w)) -> forall n w, P w -> P (Nat.iter n g w).
Proof.
  intros Hg n w Hw. induction n as [|n IH]; simpl; auto.
Qed.

(** The callbacks of the timers due in one tick, run in order. *)
Lemma fold_callbacks {X} (f : World -> X) (l : list Timer) w :
  (forall c, preserves f (run_callback env c)) ->
  f (fold_left (fun w tm => exec (run_callback env (callback tm)) w) l w) = f w.
Proof.
  intros H. revert w. induction l as [|tm l IH]; intros w; simpl.
  - reflexivity.
  - rewrite IH. apply H.
Qed.

(** *** The published position changes only when a response is accepted *)

Lemma tick_published w : published (tick env w) = published w.
Proof.
  unfold tick. rewrite fold_callbacks; [reflexivity|].
  intros []; unfold run_callback; preserves_auto.
Qed.

Lemma step_published e w :
  published (step e w) = published w
  \/ exists id outcome p,
       e = Response id outcome /\ accepted outcome = Some p
       /\ published (step e w) = Some p.
Proof.
  destruct e as [| | g | |matrix random|ms|id outcome|z| |]; simpl.
  - left. destruct (loaded (mapbox w)); [reflexivity|].
    apply preserves_exec. preserves_auto.
  - left. destruct (loader_pending (sys w)); [|reflexivity].
    apply preserves_exec. preserves_auto.
  - left. destruct (loader_pending (sys w)); [|reflexivity].
    rewrite preserves_exec; [reflexivity|]. preserves_auto.
  - left. destruct (loader_pending (sys w)); [|reflexivity].
    rewrite preserves_exec; [reflexivity|]. preserves_auto.
  - left. case_bool_decide; [|reflexivity].
    apply preserves_exec. preserves_auto.
  - left. apply (iter_invariant (fun w' => published w' = published w)); [|reflexivity].
    intros w' Hw'. rewrite tick_published. exact Hw'.
  - destruct (requests (sys w) !! id) as [r|]; [|left; reflexivity].
    destruct (req_settled r); [left; reflexivity|].
    destruct (accepted outcome) as [p|] eqn:Hacc.
    + right. exists id, outcome, p. split; [reflexivity|]. split; [exact Hacc|].
      exact (proj1 (proj2 (resume_accepted toFixed toLocaleTimeString _ _ _ Hacc))).
    + left.
      exact (proj1 (resume_rejected toFixed toLocaleTimeString _ _ Hacc)).
  - left. reflexivity.
  - left. apply preserves_exec. preserves_auto.
  - left. apply preserves_exec. preserves_auto.
Qed.

Lemma accepted_not_NaN outcome p :
  accepted outcome = Some p ->
  is_nan (mapboxgl.lat p) = false /\ is_nan (mapboxgl.lng p) = false.
Proof.
  destruct outcome as [|[] st stt [data|]]; simpl; try discriminate.
  destruct (get_property data "longitude") as [|vlng]; [discriminate|].
  destruct (get_property data "latitude") as [|vlat]; [discriminate|].
  unfold isNaN.
  destruct (is_nan (parseFloat vlng)) eqn:Hlng, (is_nan (parseFloat vlat)) eqn:Hlat;
    simpl; try discriminate.
  intros [= <-]. simpl. auto.
Qed.

Lemma start_published page : published (start env page) = None.
Proof.
  unfold start. rewrite preserves_exec; [reflexivity|].
  unfold main. preserves_auto.
Qed.
(** *** The poll loop *)

Lemma fold_hide_timeouts {X} (f : World -> X) (l : list Timer) w :
  Forall is_hide_timeout l ->
  preserves f (run_callback env CbHideLoadingScreen) ->
  f (fold_left (fun w tm => exec (run_callback env (callback tm)) w) l w) = f w.
Proof.
  intros Hl H. revert w. induction Hl as [|tm l [Htm _] _ IH]; intros w; simpl.
  - reflexivity.
  - rewrite IH, Htm. apply H.
Qed.

Lemma hide_preserves_clock : preserves clock (run_callback env CbHideLoadingScreen).
Proof. unfold run_callback. preserves_auto. Qed.

Lemma filter_hide t l :
  Forall is_hide_timeout l -> Forall is_hide_timeout (List.filter (is_due t) l).
Proof.
  intros H. induction H as [|tm l Htm _ IH]; simpl; [constructor|].
  destruct (is_due t tm); [constructor|]; assumption.
Qed.

Lemma reschedule_hide t l :
  Forall is_hide_timeout l -> Forall is_hide_timeout (flat_map (reschedule t) l).
Proof.
  intros H. induction H as [|tm l Htm _ IH]; simpl; [constructor|].
  unfold reschedule at 1. destruct (is_due t tm).
  - destruct Htm as [_ ->]. exact IH.
  - constructor; assumption.
Qed.

Lemma poll_times_seq_S k :
  (fun i => 2000 * i) <$> seq 0 (S (S k))
  = ((fun i => 2000 * i) <$> seq 0 (S k)) ++ [2000 * (k + 1)].
Proof.
  rewrite (seq_S (S k) 0), fmap_app. simpl. repeat f_equal. lia.
Qed.

(** One tick, seen on the timers, the clock and the requests, when the
    interval timer is the first timer. *)
Lemma tick_clock w d rest :
  timers (sys w) = poll_timer d :: rest ->
  Forall is_hide_timeout rest ->
  clock (tick env w)
  = if Nat.eqb d (S (now (sys w)))
    then (poll_timer (d + 2000) :: flat_map (reschedule (S (now (sys w)))) rest,
          S (now (sys w)),
          requests (sys w)
          ++ [{| req_time := S (now (sys w)); req_url := ISS_API_URL env;
                 req_settled := false |}])
    else (poll_timer d :: flat_map (reschedule (S (now (sys w)))) rest,
          S (now (sys w)), requests (sys w)).
Proof.
  intros Htimers Hrest.
  assert (forall t, is_due t (poll_timer d) = Nat.eqb d t) as Hdue by reflexivity.
  assert (forall t, reschedule t (poll_timer d)
                    = if Nat.eqb d t then [poll_timer (d + 2000)] else [poll_timer d])
    as Hnext.
  { intros t. unfold reschedule. rewrite Hdue. destruct (Nat.eqb d t); reflexivity. }
  unfold tick. rewrite Htimers. cbn [List.filter flat_map].
  rewrite Hdue, Hnext.
  destruct (Nat.eqb d (S (now (sys w)))); cbn [fold_left app];
    rewrite (fold_hide_timeouts clock _ _ (filter_hide _ rest Hrest)
               hide_preserves_clock);
    reflexivity.
Qed.

Lemma tick_poll_loop k w :
  poll_loop (ISS_API_URL env) k w ->
  poll_loop (ISS_API_URL env) k (tick env w)
  \/ poll_loop (ISS_API_URL env) (S k) (tick env w).
Proof.
  intros ((rest & Htimers & Hrest) & Hnow & Htimes & Hurls).
  pose proof (tick_clock w _ rest Htimers Hrest) as Hclock.
  unfold clock in Hclock. unfold poll_loop, poll_times in *.
  destruct (Nat.eqb_spec (2000 * (k + 1)) (S (now (sys w)))) as [Hdue|Hdue];
    injection Hclock as -> -> ->.
  - right. repeat split.
    + eexists. split; [|apply reschedule_hide, Hrest].
      unfold poll_timer. repeat f_equal. lia.
    + lia.
    + lia.
    + rewrite fmap_app, Htimes, poll_times_seq_S. simpl. repeat f_equal. lia.
    + apply Forall_app. split; [exact Hurls|]. constructor; [reflexivity|constructor].
  - left. repeat split.
    + eexists. split; [reflexivity|apply reschedule_hide, Hrest].
    + lia.
    + lia.
    + exact Htimes.
    + exact Hurls.
Qed.

Lemma poll_loop_clock url k w w' :
  clock w' = clock w -> poll_loop url k w -> poll_loop url k w'.
Proof.
  unfold clock, poll_loop, poll_times. intros [= -> -> ->]. auto.
Qed.

Lemma settle_times (l : list Request) id r :
  l !! id = Some r ->
  req_time <$> <[id := settle r]> l = req_time <$> l
  /\ forall url, Forall (fun r => req_url r = url) l ->
                 Forall (fun r => req_url r = url) (<[id := settle r]> l).
Proof.
  intros H. split.
  - rewrite list_fmap_insert. simpl.
    apply list_insert_id. rewrite list_lookup_fmap, H. reflexivity.
  - intros url Hl. apply Forall_insert; [exact Hl|].
    rewrite Forall_forall in Hl. apply (Hl r).
    eapply list_elem_of_lookup_2. exact H.
Qed.

Lemma step_poll_loop e k w :
  poll_loop (ISS_API_URL env) k w ->
  exists k', k <= k' /\ poll_loop (ISS_API_URL env) k' (step e w).
Proof.
  intros Hw.
  destruct e as [| | g | |matrix random|ms|id outcome|z| |]; simpl.
  - destruct (loaded (mapbox w)); [eauto|].
    exists k. split; [lia|].
    destruct Hw as ((rest & Htimers & Hrest) & Hnow & Htimes & Hurls).
    assert (timers (sys (exec on_map_load w))
            = timers (sys w)
              ++ [{| callback := CbHideLoadingScreen; due := now (sys w) + 2000;
                     period := None |}]) as Ht by reflexivity.
    assert (now (sys (exec on_map_load w)) = now (sys w)) as Hn by reflexivity.
    assert (requests (sys (exec on_map_load w)) = requests (sys w)) as Hr
      by reflexivity.
    unfold poll_loop, poll_times. rewrite Ht, Hn, Hr, Htimers.
    repeat split; try assumption; try lia.
    eexists. split; [reflexivity|].
    apply Forall_app. split; [exact Hrest|]. repeat constructor.
  - exists k. split; [lia|].
    destruct (loader_pending (sys w)); [|exact Hw].
    eapply poll_loop_clock; [|exact Hw]. apply preserves_exec. preserves_auto.
  - exists k. split; [lia|].
    destruct (loader_pending (sys w)); [|exact Hw].
    eapply poll_loop_clock; [|exact Hw].
    rewrite preserves_exec; [reflexivity|]. preserves_auto.
  - exists k. split; [lia|].
    destruct (loader_pending (sys w)); [|exact Hw].
    eapply poll_loop_clock; [|exact Hw].
    rewrite preserves_exec; [reflexivity|]. preserves_auto.
  - exists k. split; [lia|].
    case_bool_decide; [|exact Hw].
    eapply poll_loop_clock; [|exact Hw]. apply preserves_exec. preserves_auto.
  - revert w Hw. induction ms as [|ms IH]; intros w Hw; simpl.
    + eauto.
    + destruct (IH w Hw) as (k' & Hk & Hk').
      destruct (tick_poll_loop k' _ Hk') as [H|H]; eauto.
  - exists k. split; [lia|].
    destruct (requests (sys w) !! id) as [r|] eqn:Hr; [|exact Hw].
    destruct (req_settled r); [exact Hw|].
    destruct (settle_times _ _ _ Hr) as [Htimes' Hurls'].
    destruct Hw as (Htimers & Hnow & Htimes & Hurls).
    eapply poll_loop_clock.
    { apply preserves_exec. preserves_auto. }
    unfold poll_loop, poll_times. simpl. rewrite Htimes'. auto.
  - exists k. split; [lia|]. exact Hw.
  - exists k. split; [lia|].
    eapply poll_loop_clock; [|exact Hw]. apply preserves_exec. preserves_auto.
  - exists k. split; [lia|].
    eapply poll_loop_clock; [|exact Hw]. apply preserves_exec. preserves_auto.
Qed.

Lemma start_poll_loop page : poll_loop (ISS_API_URL env) 0 (start env page).
Proof.
  unfold poll_loop. repeat split.
  - exists []. split; [|constructor].
    unfold start, main. destruct (falsy_string _ || _), (falsy_string _); reflexivity.
  - lia.
  - unfold start, main.
    destruct (falsy_string _ || _), (falsy_string (ISS_API_URL env)); simpl; lia.
  - unfold start, main.
    destruct (falsy_string _ || _), (falsy_string (ISS_API_URL env)); reflexivity.
  - unfold start, main.
    destruct (falsy_string _ || _), (falsy_string (ISS_API_URL env));
      repeat constructor.
Qed.

Lemma run_poll_loop page events :
  exists k, poll_loop (ISS_API_URL env) k (run events (start env page)).
Proof.
  apply (run_invariant (fun w => exists k, poll_loop (ISS_API_URL env) k w)).
  - intros e w [k Hk]. destruct (step_poll_loop e k w Hk) as (k' & _ & Hk'). eauto.
  - exists 0. apply start_poll_loop.
Qed.

(** C7.  Starting the feed issues one fetch at time 0, and one more each
    time the clock reaches a multiple of 2000 ms, whatever happens in
    between: after any events, with responses of any outcome arriving at
    any time or never, the fetches issued so far are those of the times
    [0], [2000], ..., up to the present; and the clock can always advance. *)
Theorem polls_every_2000_ms page events :
  let w := run events (start env page) in
  poll_times w = (fun k => 2000 * k) <$> seq 0 (S (now (sys w) / 2000))
  /\ forall ms, now (sys (step (Advance ms) w)) = now (sys w) + ms.
Proof.
  intros w. split.
  - destruct (run_poll_loop page events) as (k & _ & Hnow & Htimes & _).
    fold w in Hnow, Htimes. rewrite Htimes.
    replace (now (sys w) / 2000) with k; [reflexivity|].
    apply (Nat.div_unique _ 2000 k (now (sys w) - 2000 * k)); lia.
  - intros ms. simpl. induction ms as [|ms IH]; simpl; [lia|].
    rewrite <- Nat.add_succ_comm. simpl. rewrite <- IH.
    destruct (run_poll_loop page (events ++ [Advance ms])) as (k & (rest & Ht & Hrest) & _).
    rewrite run_app in Ht. simpl in Ht. fold w in Ht.
    pose proof (tick_clock _ _ rest Ht Hrest) as Hc.
    unfold clock in Hc.
    destruct (Nat.eqb _ _); injection Hc as _ -> _; reflexivity.
Qed.

(** *** The lifecycle of the model *)

Lemma tick_structure w : structure (tick env w) = structure w.
Proof.
  unfold tick. rewrite fold_callbacks; [reflexivity|].
  intros []; unfold run_callback; preserves_auto.
Qed.

(** Events other than the map's [load], the loader's callbacks and a
    frame leave the structure alone. *)
Lemma step_structure e w :
  match e with
  | MapLoad | ModelLoaded _ | ModelError | HostFrame _ _ => True
  | _ => structure (step e w) = structure w
  end.
Proof.
  destruct e as [| | g | |matrix random|ms|id outcome|z| |]; simpl; try exact I.
  - destruct (loader_pending (sys w)); [|reflexivity].
    apply preserves_exec. preserves_auto.
  - apply (iter_invariant (fun w' => structure w' = structure w)); [|reflexivity].
    intros w' Hw'. rewrite tick_structure. exact Hw'.
  - destruct (requests (sys w) !! id) as [r|]; [|reflexivity].
    destruct (req_settled r); [reflexivity|].
    rewrite preserves_exec; [reflexivity|]. preserves_auto.
  - reflexivity.
  - apply preserves_exec. preserves_auto.
  - apply preserves_exec. preserves_auto.
Qed.

Lemma lifecycle_structure w w' :
  structure w' = structure w -> lifecycle w -> lifecycle w'.
Proof.
  unfold structure, lifecycle, layer_added.
  intros [= -> -> -> -> -> _ _ _ -> ->]. auto.
Qed.

Lemma fallback_structure id w w' :
  structure w' = structure w -> fallback_attached id w -> fallback_attached id w'.
Proof.
  unfold structure, fallback_attached, layer_added.
  intros [= -> -> -> -> -> _ -> _ -> ->]. auto.
Qed.

Lemma skeleton_fields w w' :
  skeleton w' = skeleton w ->
  issModel (layer w') = issModel (layer w) /\ scene (layer w') = scene (layer w)
  /\ renderer (layer w') = renderer (layer w) /\ map (layer w') = map (layer w)
  /\ loaded (mapbox w') = loaded (mapbox w)
  /\ loader_pending (sys w') = loader_pending (sys w).
Proof. unfold skeleton. intros [= -> -> -> -> _ _ -> ->]. auto 10. Qed.

Lemma render_lifecycle w matrix random :
  lifecycle w ->
  lifecycle (exec (render fromLngLat meterInMercatorCoordinateUnits matrix random) w).
Proof.
  intros [H1 H2].
  destruct (skeleton_fields _ _
              (preserves_exec skeleton _ w
                 (render_skeleton fromLngLat meterInMercatorCoordinateUnits
                    matrix random)))
    as (Hm & Hs & Hr & Hp & Hl & Hd).
  unfold lifecycle, layer_added. simpl in *. rewrite Hm, Hs, Hr, Hp, Hl, Hd.
  split; [exact H1|].
  intros Hpend. destruct (H2 Hpend) as (Hn & Hc & Hrest).
  split; [exact Hn|]. split; [|exact Hrest].
  apply render_camera_Some, Hc.
Qed.

Lemma render_fallback id w matrix random :
  fallback_attached id w ->
  fallback_attached id
    (exec (render fromLngLat meterInMercatorCoordinateUnits matrix random) w).
Proof.
  intros (Hid & Hshape & Hscene & (Hc & Hadded) & Hloaded & Hpend).
  destruct (skeleton_fields _ _
              (preserves_exec skeleton _ w
                 (render_skeleton fromLngLat meterInMercatorCoordinateUnits
                    matrix random)))
    as (Hm & Hs & Hr & Hp & Hl & Hd).
  unfold fallback_attached, layer_added. simpl in *.
  rewrite Hm, Hs, Hr, Hp, Hl, Hd, render_shape.
  repeat split; try assumption; try apply Hadded.
  apply render_camera_Some, Hc.
Qed.

Lemma lifecycle_pending_loaded w :
  lifecycle w -> loader_pending (sys w) = true -> loaded (mapbox w) = true.
Proof.
  intros [H1 _] Hp. destruct (loaded (mapbox w)); [reflexivity|].
  destruct H1 as [H1 _]; [reflexivity|]. congruence.
Qed.

Lemma step_lifecycle e w : lifecycle w -> lifecycle (step e w).
Proof.
  intros Hw. pose proof (step_structure e w) as Hs.
  destruct e as [| | g | |matrix random|ms|id outcome|z| |];
    try (eapply lifecycle_structure; [exact Hs|exact Hw]); simpl.
  - destruct (loaded (mapbox w)) eqn:Hl; [exact Hw|].
    destruct Hw as [H1 _]. destruct (H1 Hl) as [_ Hnone].
    unfold lifecycle, layer_added. destruct_world w. subst.
    split; [discriminate|]. intros _. repeat split; eauto.
  - destruct (loader_pending (sys w)) eqn:Hp; [|exact Hw].
    pose proof (lifecycle_pending_loaded w Hw Hp) as Hl.
    destruct Hw as [H1 H2]. destruct (H2 Hp) as (_ & _ & [ids Hids] & _).
    unfold lifecycle, onLoad. repeat (progress preserves_unfold).
    destruct_world w. subst. run_monad. split; [intros; congruence|discriminate].
  - destruct (loader_pending (sys w)) eqn:Hp; [|exact Hw].
    pose proof (lifecycle_pending_loaded w Hw Hp) as Hl.
    destruct Hw as [H1 H2]. destruct (H2 Hp) as (_ & _ & [ids Hids] & _).
    unfold lifecycle, onError. repeat (progress preserves_unfold).
    destruct_world w. subst. run_monad. split; [intros; congruence|discriminate].
  - case_bool_decide; [|exact Hw]. apply render_lifecycle, Hw.
Qed.

Lemma step_fallback id e w :
  fallback_attached id w -> fallback_attached id (step e w).
Proof.
  intros Hw. pose proof (step_structure e w) as Hs.
  destruct e as [| | g | |matrix random|ms|i outcome|z| |];
    try (eapply fallback_structure; [exact Hs|exact Hw]); simpl.
  - assert (loaded (mapbox w) = true) as Hl by apply Hw. rewrite Hl. exact Hw.
  - assert (loader_pending (sys w) = false) as Hp by apply Hw. rewrite Hp. exact Hw.
  - assert (loader_pending (sys w) = false) as Hp by apply Hw. rewrite Hp. exact Hw.
  - case_bool_decide; [|exact Hw]. apply render_fallback, Hw.
Qed.

(** The loader's error callback attaches the procedural model. *)
Lemma onError_fallback w :
  lifecycle w -> loader_pending (sys w) = true ->
  fallback_attached (next_id w) (step ModelError w).
Proof.
  intros Hw Hp. pose proof (lifecycle_pending_loaded w Hw Hp) as Hl.
  destruct Hw as [H1 H2]. simpl. rewrite Hp.
  destruct (H2 Hp) as (Hnone & [c Hc] & [ids Hids] & [r Hr] & Hmap).
  unfold fallback_attached, layer_added, onError.
  repeat (progress preserves_unfold).
  destruct_world w. subst. run_monad.
  rewrite lookup_insert_eq.
  repeat split; eauto.
  exists (ids ++ [nid]). split; [reflexivity|].
  apply elem_of_app. right. apply list_elem_of_singleton. reflexivity.
Qed.

Lemma fallback_readiness id w : fallback_attached id w -> readiness w = ready_fallback.
Proof.
  intros (Hid & Hshape & _). unfold readiness. rewrite Hid.
  destruct (heap w !! id) as [o|]; [|discriminate].
  simpl in *. injection Hshape as Hk _. rewrite Hk. reflexivity.
Qed.

Lemma start_lifecycle page : lifecycle (start env page).
Proof.
  unfold lifecycle, start, main.
  destruct (falsy_string _ || _), (falsy_string (ISS_API_URL env));
    split; intros H; try discriminate H; split; reflexivity.
Qed.

(** In a reachable state the position [render] projects has a longitude
    and a latitude that are numbers. *)
Lemma run_current_position_not_NaN page events :
  is_nan (mapboxgl.lng (current_position (run events (start env page)))) = false.
Proof.
  assert (forall p, published (run events (start env page)) = Some p ->
            is_nan (mapboxgl.lat p) = false /\ is_nan (mapboxgl.lng p) = false) as H.
  { apply (run_invariant (fun w => forall p, published w = Some p ->
             is_nan (mapboxgl.lat p) = false /\ is_nan (mapboxgl.lng p) = false)).
    - intros e w IH p Hp.
      destruct (step_published e w) as [Heq | (id & outcome & q & _ & Hacc & Hq)].
      + apply IH. congruence.
      + apply (accepted_not_NaN outcome). congruence.
    - intros p. rewrite start_published. discriminate. }
  unfold current_position.
  destruct (published (run events (start env page))) as [p|]; [|reflexivity].
  apply (H p eq_refl).
Qed.

(** C6 (amended).  If loading the primary asset fails, readiness goes
    from loading to ready-fallback at the loader's error callback and
    stays there: the procedural model is attached, no later event replaces
    it and the loader is not started again.  A later call of [render]
    returns normally and draws a frame that contains the procedural
    model, with the matrix the call has given it, whenever the latitude of
    the current position lies in [-90, 90]; when the feed has published a
    latitude outside, the call throws and changes nothing. *)
Theorem load_failure_falls_back_for_good page events1 events2 matrix random :
  let w0 := run events1 (start env page) in
  loader_pending (sys w0) = true ->
  let w1 := step ModelError w0 in
  let w2 := run events2 w1 in
  let r := render fromLngLat meterInMercatorCoordinateUnits matrix random w2 in
  readiness w0 = loading
  /\ readiness w1 = ready_fallback
  /\ readiness w2 = ready_fallback
  /\ issModel (layer w2) = issModel (layer w1)
  /\ loader_pending (sys w2) = false
  /\ (in_range (-90) 90 (mapboxgl.lat (current_position w2)) = true ->
      fst r = Normal tt
      /\ exists f o,
           frames (snd r) = frames w2 ++ [f] /\ o ∈ drawn f
           /\ shape o = shape createISSModel
           /\ model_matrix (snd r) = Some (THREE.matrix o))
  /\ (in_range (-90) 90 (mapboxgl.lat (current_position w2)) = false ->
      (exists e, fst r = Throw e) /\ snd r = w2).
Proof.
  intros w0 Hpend w1 w2 r.
  assert (lifecycle w0) as H0.
  { apply (run_invariant lifecycle); [apply step_lifecycle|apply start_lifecycle]. }
  assert (fallback_attached (next_id w0) w1) as H1 by (apply onError_fallback; assumption).
  assert (fallback_attached (next_id w0) w2) as H2.
  { apply (run_invariant (fallback_attached (next_id w0)));
      [intros e w; apply step_fallback|exact H1]. }
  assert (is_nan (mapboxgl.lng (current_position w2)) = false) as Hlng.
  { pose proof (run_current_position_not_NaN page (events1 ++ ModelError :: events2))
      as H.
    rewrite run_app in H. exact H. }
  pose proof (render_fallback (next_id w0) w2 matrix random H2) as H3.
  destruct H2 as (Hid & Hshape & (ids & Hids & Hin) & Hadded & Hloaded & Hp).
  split; [|split; [|split; [|split; [|split; [|split]]]]].
  - unfold readiness. destruct H0 as [_ H0]. destruct (H0 Hpend) as [-> _]. reflexivity.
  - apply (fallback_readiness _ _ H1).
  - unfold readiness. rewrite Hid.
    destruct (heap w2 !! next_id w0) as [o|]; [|discriminate].
    simpl in *. injection Hshape as -> _. reflexivity.
  - destruct H1 as (-> & _). exact Hid.
  - exact Hp.
  - intros Hlat.
    destruct (render_draws fromLngLat meterInMercatorCoordinateUnits
                w2 matrix random _ ids _ Hid Hids Hadded
                (project_in_range fromLngLat _ altitude Hlng Hlat))
      as (Hret & Hframes & _).
    split; [exact Hret|].
    destruct H3 as (Hid' & Hshape' & _).
    change (snd r)
      with (exec (render fromLngLat meterInMercatorCoordinateUnits matrix random) w2)
      in *.
    destruct (heap (exec (render fromLngLat meterInMercatorCoordinateUnits
                            matrix random) w2) !! next_id w0)
      as [o|] eqn:Ho; [|discriminate].
    eexists _, o. split; [exact Hframes|]. split; [|split].
    + apply list_elem_of_omap. exists (next_id w0). split; [exact Hin|exact Ho].
    + simpl in Hshape'. congruence.
    + apply model_matrix_Some. exists (next_id w0), o. auto.
  - intros Hlat.
    destruct (project_out_of_range fromLngLat _ altitude Hlat) as [e He].
    unfold r.
    rewrite (render_throws fromLngLat meterInMercatorCoordinateUnits
               w2 matrix random _ e Hid He).
    split; [eauto|reflexivity].
Qed.

(** C5 (amended).  If the endpoint is not configured, the start-up code
    logs a diagnostic and runs to its end; the poll loop is started all
    the same: a fetch is issued at once and the interval timer is set,
    and from then on fetches are issued at [0], [2000], [4000], ... ms,
    each with the absent endpoint as its argument. *)
Theorem missing_endpoint_is_logged_and_polled page events :
  falsy_string (VITE_ISS_API_URL env) = true ->
  let w0 := start env page in
  let w := run events w0 in
  fst (main env (blank page)) = Normal tt
  /\ (ErrorLevel,
      "❌ Missing ISS API URL! Please set VITE_ISS_API_URL in your .env file")
     ∈ console (sys w0)
  /\ requests (sys w0)
     = [{| req_time := 0; req_url := VITE_ISS_API_URL env; req_settled := false |}]
  /\ timers (sys w0) = [poll_timer 2000]
  /\ poll_times w = (fun k => 2000 * k) <$> seq 0 (S (now (sys w) / 2000))
  /\ Forall (fun r => req_url r = VITE_ISS_API_URL env) (requests (sys w)).
Proof.
  intros Hurl w0 w.
  destruct (run_poll_loop page events) as (k & _ & Hnow & Htimes & Hurls).
  fold w0 in Hnow, Htimes, Hurls. fold w in Hnow, Htimes, Hurls.
  assert (now (sys w) / 2000 = k) as Hk.
  { symmetry. apply (Nat.div_unique _ 2000 k (now (sys w) - 2000 * k)); lia. }
  rewrite Hk. unfold w0, start, main, ISS_API_URL. rewrite Hurl.
  destruct (falsy_string _ || _); repeat split; try assumption.
  - simpl. rewrite !elem_of_cons. auto.
  - simpl. rewrite !elem_of_cons. auto.
Qed.

(** C1 (amended).  Every position the feed publishes has a [lat] and a
    [lng] that are not NaN: whatever the events, the register holds
    nothing or such a position.  The feed checks nothing else before it
    replaces the register; bounds and finiteness are not checked. *)
Theorem published_position_is_not_NaN page events p :
  published (run events (start env page)) = Some p ->
  is_nan (mapboxgl.lat p) = false /\ is_nan (mapboxgl.lng p) = false.
Proof.
  revert p.
  apply (run_invariant (fun w => forall p, published w = Some p ->
           is_nan (mapboxgl.lat p) = false /\ is_nan (mapboxgl.lng p) = false)).
  - intros e w IH p Hp.
    destruct (step_published e w) as [Heq | (id & outcome & q & _ & Hacc & Hq)].
    + apply IH. congruence.
    + apply (accepted_not_NaN outcome). congruence.
  - intros p. rewrite start_published. discriminate.
Qed.
End Loop.

(** ** The feed on concrete payloads *)

(** C1 as stated fails: a payload whose coordinates are out of range is
    published, and so is one whose latitude is infinite. *)
Lemma out_of_range_position_is_published :
  published (Sample.run Sample.env [Response 0 (payload Sample.out_of_range)]
               (start Sample.env Sample.page))
  = Some {| mapboxgl.lng := 500; mapboxgl.lat := 200 |}
  /\ valid_GeoPosition {| mapboxgl.lng := 500; mapboxgl.lat := 200 |} = false
  /\ published (Sample.run Sample.env [Response 0 (payload Sample.infinite)]
                  (start Sample.env Sample.page))
     = Some {| mapboxgl.lng := 0; mapboxgl.lat := infinity |}
  /\ valid_GeoPosition {| mapboxgl.lng := 0; mapboxgl.lat := infinity |} = false.
Proof. vm_compute. repeat split. Qed.

Lemma published_position_is_not_NaN_witness :
  published (Sample.run Sample.env [Response 0 (payload Sample.london)]
               (start Sample.env Sample.page))
  = Some {| mapboxgl.lng := -0.1; mapboxgl.lat := 51.6 |}
  /\ is_nan 51.6 = false /\ is_nan (-0.1) = false.
Proof.
  split.
  - vm_compute. reflexivity.
  - apply (published_position_is_not_NaN
             Sample.fromLngLat Sample.meterInMercatorCoordinateUnits
             Sample.toFixed Sample.toLocaleTimeString Sample.Box3_getCenter
             Sample.env Sample.page [Response 0 (payload Sample.london)]
             {| mapboxgl.lng := -0.1; mapboxgl.lat := 51.6 |}).
    vm_compute. reflexivity.
Defined.

(** C2 as stated fails: a latitude that is a number followed by other text
    is not numeric, and the poll publishes its leading number. *)
Lemma trailing_text_is_published :
  field_numeric Sample.trailing_text "latitude" = false
  /\ published (start Sample.env Sample.page) = None
  /\ published (exec (Sample.resume (payload Sample.trailing_text))
                  (start Sample.env Sample.page))
     = Some {| mapboxgl.lng := 5; mapboxgl.lat := 12 |}
  /\ status (exec (Sample.resume (payload Sample.trailing_text))
               (start Sample.env Sample.page))
     = "status-dot connected".
Proof. vm_compute. repeat split. Qed.

Lemma unparsable_payload_leaves_position_witness :
  (field_missing Sample.no_longitude "latitude" = true
   \/ field_missing Sample.no_longitude "longitude" = true
   \/ is_nan (field_parsed Sample.no_longitude "latitude") = true
   \/ is_nan (field_parsed Sample.no_longitude "longitude") = true)
  /\ published (exec (Sample.resume (payload Sample.no_longitude))
                  (start Sample.env Sample.page))
     = published (start Sample.env Sample.page)
  /\ status (exec (Sample.resume (payload Sample.no_longitude))
               (start Sample.env Sample.page))
     = "status-dot error"
  /\ statusText_textContent
       (dom (exec (Sample.resume (payload Sample.no_longitude))
               (start Sample.env Sample.page)))
     = "Connection Error".
Proof.
  split.
  - right. left. vm_compute. reflexivity.
  - apply (unparsable_payload_leaves_position
             Sample.toFixed Sample.toLocaleTimeString
             (start Sample.env Sample.page) true 200 "OK" Sample.no_longitude).
    right. left. vm_compute. reflexivity.
Defined.

(** The example of the specification: [{latitude:"51.6",longitude:"-0.1"}]
    publishes [{lat:51.6,lng:-0.1}]. *)
Lemma in_range_payload_is_published_witness :
  in_range (-90) 90 (field_parsed Sample.london "latitude") = true
  /\ in_range (-180) 180 (field_parsed Sample.london "longitude") = true
  /\ published (exec (Sample.resume (payload Sample.london))
                  (start Sample.env Sample.page))
     = Some {| mapboxgl.lng := -0.1; mapboxgl.lat := 51.6 |}
  /\ status (exec (Sample.resume (payload Sample.london))
               (start Sample.env Sample.page))
     = "status-dot connected"
  /\ statusText_textContent
       (dom (exec (Sample.resume (payload Sample.london))
               (start Sample.env Sample.page)))
     = "ISS Connected".
Proof.
  split; [vm_compute; reflexivity|]. split; [vm_compute; reflexivity|].
  apply (in_range_payload_is_published
           Sample.toFixed Sample.toLocaleTimeString
           (start Sample.env Sample.page) 200 "OK" Sample.london);
    vm_compute; reflexivity.
Defined.


(** ** The layer and the poll loop on concrete runs *)

Lemma render_without_model_is_skipped_witness :
  issModel (layer Sample.started) = None
  /\ fst (Sample.render Sample.cameraMatrix 0.5 Sample.started) = Normal tt
  /\ frames (exec (Sample.render Sample.cameraMatrix 0.5) Sample.started)
     = frames Sample.started
  /\ heap (exec (Sample.render Sample.cameraMatrix 0.5) Sample.started)
     = heap Sample.started
  /\ layer (exec (Sample.render Sample.cameraMatrix 0.5) Sample.started)
     = layer Sample.started
  /\ mapbox (exec (Sample.render Sample.cameraMatrix 0.5) Sample.started)
     = mapbox Sample.started.
Proof.
  split; [reflexivity|].
  apply (render_without_model_is_skipped
           Sample.fromLngLat Sample.meterInMercatorCoordinateUnits
           Sample.started Sample.cameraMatrix 0.5).
  reflexivity.
Defined.

(** At the origin and 800 km up, the sample projection gives the
    translation [(0.5, 0.5, 800000 / c)] and the scale [1 / c], for [c] the
    circumference of the earth. *)
Lemma render_composes_camera_translation_scale_witness :
  is_Some (model_matrix Sample.fallen_back)
  /\ is_nan (mapboxgl.lng (current_position Sample.fallen_back)) = false
  /\ in_range (-90) 90 (mapboxgl.lat (current_position Sample.fallen_back)) = true
  /\ model_matrix (exec (Sample.render Sample.cameraMatrix 0.5) Sample.fallen_back)
     = Some (THREE.multiply PrimFloat.add PrimFloat.mul
               (THREE.fromArray Sample.cameraMatrix)
               (THREE.scale PrimFloat.mul
                  (THREE.makeTranslation 0%float 1%float
                     0.5%float 0.5%float (800000 / Sample.earthCircumference)%float)
                  (THREE.mkVector3 (1 / Sample.earthCircumference)%float
                                   (- (1 / Sample.earthCircumference))%float
                                   (1 / Sample.earthCircumference)%float))).
Proof.
  assert (is_Some (model_matrix Sample.fallen_back)) as H.
  { apply is_Some_alt. vm_compute. exact I. }
  assert (is_nan (mapboxgl.lng (current_position Sample.fallen_back)) = false) as Hlng
    by (vm_compute; reflexivity).
  assert (in_range (-90) 90 (mapboxgl.lat (current_position Sample.fallen_back)) = true)
    as Hlat by (vm_compute; reflexivity).
  split; [exact H|]. split; [exact Hlng|]. split; [exact Hlat|].
  eapply eq_trans.
  - exact (proj1 (render_composes_camera_translation_scale
                    Sample.fromLngLat Sample.meterInMercatorCoordinateUnits
                    Sample.fallen_back Sample.cameraMatrix 0.5 H) Hlng Hlat).
  - vm_compute. reflexivity.
Defined.

(** C4 as stated fails: once the feed has published the latitude 200,
    [render] throws in Mapbox's projection and assigns nothing; the model
    keeps the matrix it had (the identity here), which is not the product
    the claim gives (whose first element is the scale, below 1). *)
Lemma out_of_range_position_is_not_projected :
  let w :=
    Sample.run Sample.env [Response 0 (payload Sample.out_of_range)]
      Sample.fallen_back in
  let modelAsMercator := Sample.fromLngLat (current_position w) 800000 in
  let s := Sample.meterInMercatorCoordinateUnits modelAsMercator in
  current_position w = {| mapboxgl.lng := 500; mapboxgl.lat := 200 |}
  /\ is_Some (model_matrix w)
  /\ fst (Sample.render Sample.cameraMatrix 0.5 w)
     = Throw (NewError "Invalid LngLat latitude value: must be between -90 and 90")
  /\ model_matrix (exec (Sample.render Sample.cameraMatrix 0.5) w)
     = Some (THREE.identity 0%float 1%float)
  /\ (THREE.te0
        (THREE.multiply PrimFloat.add PrimFloat.mul
           (THREE.fromArray Sample.cameraMatrix)
           (THREE.scale PrimFloat.mul
              (THREE.makeTranslation 0%float 1%float
                 (mapboxgl.x modelAsMercator) (mapboxgl.y modelAsMercator)
                 (or_zero (mapboxgl.z modelAsMercator)))
              (THREE.mkVector3 s (- s)%float s)))
      <? 1)%float = true.
Proof.
  intros w modelAsMercator s.
  split; [vm_compute; reflexivity|].
  split; [apply is_Some_alt; vm_compute; exact I|].
  repeat split; vm_compute; reflexivity.
Qed.



(** C5 as stated fails: with no endpoint configured the first fetch is
    issued all the same, and 4000 ms later three have been. *)
Lemma polls_are_issued_without_endpoint :
  falsy_string (VITE_ISS_API_URL Sample.env_no_url) = true
  /\ requests (sys (start Sample.env_no_url Sample.page))
     = [{| req_time := 0; req_url := None; req_settled := false |}]
  /\ poll_times (Sample.run Sample.env_no_url [Advance 4000]
                   (start Sample.env_no_url Sample.page))
     = [0; 2000; 4000].
Proof. vm_compute. repeat split. Qed.

Lemma missing_endpoint_is_logged_and_polled_witness :
  falsy_string (VITE_ISS_API_URL Sample.env_no_url) = true
  /\ (ErrorLevel,
      "❌ Missing ISS API URL! Please set VITE_ISS_API_URL in your .env file")
     ∈ console (sys (start Sample.env_no_url Sample.page))
  /\ Forall (fun r => req_url r = None)
       (requests (sys (Sample.run Sample.env_no_url [Advance 4000]
                         (start Sample.env_no_url Sample.page)))).
Proof.
  assert (falsy_string (VITE_ISS_API_URL Sample.env_no_url) = true) as H by reflexivity.
  destruct (missing_endpoint_is_logged_and_polled
              Sample.fromLngLat Sample.meterInMercatorCoordinateUnits
              Sample.toFixed Sample.toLocaleTimeString Sample.Box3_getCenter
              Sample.env_no_url Sample.page [Advance 4000] H)
    as (_ & Hlog & _ & _ & _ & Hurls).
  split; [exact H|]. split; [exact Hlog|exact Hurls].
Defined.

Lemma load_failure_falls_back_for_good_witness :
  let host_run :=
    run Sample.fromLngLat Sample.meterInMercatorCoordinateUnits
        Sample.toFixed Sample.toLocaleTimeString Sample.Box3_getCenter Sample.env in
  let host_step :=
    step Sample.fromLngLat Sample.meterInMercatorCoordinateUnits
         Sample.toFixed Sample.toLocaleTimeString Sample.Box3_getCenter Sample.env in
  let w0 := host_run [MapLoad] (start Sample.env Sample.page) in
  let w2 := host_run [Response 0 (payload Sample.london); Advance 2000;
                      HostFrame Sample.otherMatrix 0.5]
              (host_step ModelError w0) in
  loader_pending (sys w0) = true
  /\ in_range (-90) 90 (mapboxgl.lat (current_position w2)) = true
  /\ readiness w0 = loading
  /\ readiness w2 = ready_fallback
  /\ fst (render Sample.fromLngLat Sample.meterInMercatorCoordinateUnits
             Sample.cameraMatrix 0.5 w2) = Normal tt.
Proof.
  intros host_run host_step w0 w2.
  assert (loader_pending (sys w0) = true) as H by (vm_compute; reflexivity).
  assert (in_range (-90) 90 (mapboxgl.lat (current_position w2)) = true) as Hlat
    by (vm_compute; reflexivity).
  destruct (load_failure_falls_back_for_good
              Sample.fromLngLat Sample.meterInMercatorCoordinateUnits
              Sample.toFixed Sample.toLocaleTimeString Sample.Box3_getCenter
              Sample.env Sample.page [MapLoad]
              [Response 0 (payload Sample.london); Advance 2000;
               HostFrame Sample.otherMatrix 0.5]
              Sample.cameraMatrix 0.5 H)
    as (Hl & _ & Hf & _ & _ & Hr & _).
  split; [exact H|]. split; [exact Hlat|]. split; [exact Hl|]. split; [exact Hf|].
  exact (proj1 (Hr Hlat)).
Defined.

(** C6 as stated fails: after the fallback, once the feed has published
    the latitude 200, a call of [render] throws and draws nothing. *)
Lemma fallback_render_throws_after_out_of_range_position :
  let w2 :=
    Sample.run Sample.env [MapLoad; ModelError; Response 0 (payload Sample.out_of_range)]
      (start Sample.env Sample.page) in
  let r := Sample.render Sample.cameraMatrix 0.5 w2 in
  readiness w2 = ready_fallback
  /\ published w2 = Some {| mapboxgl.lng := 500; mapboxgl.lat := 200 |}
  /\ fst r = Throw (NewError "Invalid LngLat latitude value: must be between -90 and 90")
  /\ frames (snd r) = [].
Proof. vm_compute. repeat split. Qed.

(** * More of the program: the controls, the map and the layer's phases *)

(** ** The feed, continued *)

Section FeedCamera.
Variable toFixed : float -> nat -> string.
Variable toLocaleTimeString : nat -> string.

Local Abbreviation resume := (fetchIssPosition_resume toFixed toLocaleTimeString).

(** What a settled request leaves of the camera, the follow flag, the
    clock and the layer's objects. *)
Lemma resume_camera outcome w :
  let w' := exec (resume outcome) w in
  moves (mapbox w')
  = moves (mapbox w)
    ++ match accepted outcome with
       | Some p => if isFollowingISS w then [follow_move p (getZoom (mapbox w))] else []
       | None => []
       end
  /\ isFollowingISS w' = isFollowingISS w
  /\ getZoom (mapbox w') = getZoom (mapbox w)
  /\ loaded (mapbox w') = loaded (mapbox w)
  /\ layers (mapbox w') = layers (mapbox w).
Proof.
  destruct (accepted outcome) as [p|] eqn:Hacc.
  - destruct outcome as [|ok st stt [data|]]; simpl in Hacc; try discriminate.
    2: { destruct ok; discriminate. }
    destruct ok; [|discriminate].
    unfold fetchIssPosition_resume.
    destruct (get_property data "longitude") as [e1|vlng]; [discriminate|].
    destruct (get_property data "latitude") as [e2|vlat]; [discriminate|].
    preserves_unfold. run_monad.
    destruct (isNaN (parseFloat vlng) || isNaN (parseFloat vlat)); [discriminate|].
    injection Hacc as <-. simpl.
    destruct (sources (mapbox w) !! "iss-marker"); run_monad;
      destruct (isFollowingISS w) eqn:Hfol; run_monad;
      destruct (elements (dom w) !! "position") eqn:Hp; run_monad;
      rewrite ?lookup_insert_ne by discriminate;
      destruct (elements (dom w) !! "lastUpdate") eqn:Hl; run_monad;
      rewrite ?app_nil_r; repeat split; assumption.
  - destruct (resume_rejected toFixed toLocaleTimeString outcome w Hacc)
      as (_ & _ & _ & Hm & _).
    simpl. rewrite app_nil_r.
    assert (isFollowingISS (exec (resume outcome) w) = isFollowingISS w) as Hf.
    { apply preserves_exec. preserves_auto. }
    rewrite Hm. auto.
Qed.

(** X1.  A request that fails in transport (the promise rejects, the
    status is not a success, or the body is not JSON) is caught: the call
    returns normally, one error is logged and the status shows a
    connection error; the layer, its objects, the frames, the map, the
    info panel, the follow flag and the schedule are as they were. *)
Theorem failed_request_only_reports outcome w :
  transport_failure outcome = true ->
  let w' := exec (resume outcome) w in
  fst (resume outcome w) = Normal tt
  /\ status w' = "status-dot error"
  /\ statusText_textContent (dom w') = "Connection Error"
  /\ (exists text, console (sys w') = console (sys w) ++ [(ErrorLevel, text)])
  /\ layer w' = layer w /\ heap w' = heap w /\ frames w' = frames w
  /\ mapbox w' = mapbox w /\ elements (dom w') = elements (dom w)
  /\ isFollowingISS w' = isFollowingISS w /\ clock w' = clock w.
Proof.
  intros H. destruct outcome as [|[] st stt [data|]]; try discriminate H;
    simpl; repeat split; eexists; reflexivity.
Qed.

End FeedCamera.

(** ** The event loop, continued *)

Section More.
Variable fromLngLat : mapboxgl.LngLat -> float -> mapboxgl.MercatorCoordinate.
Variable meterInMercatorCoordinateUnits : mapboxgl.MercatorCoordinate -> float.
Variable toFixed : float -> nat -> string.
Variable toLocaleTimeString : nat -> string.
Variable Box3_getCenter : THREE.Object3D -> THREE.Vector3 float.
Variable env : Env.

Local Abbreviation host_step :=
  (step fromLngLat meterInMercatorCoordinateUnits toFixed toLocaleTimeString
        Box3_getCenter env).
Local Abbreviation host_run :=
  (run fromLngLat meterInMercatorCoordinateUnits toFixed toLocaleTimeString
       Box3_getCenter env).
Local Abbreviation resume := (fetchIssPosition_resume toFixed toLocaleTimeString).
Local Abbreviation render_frame := (render fromLngLat meterInMercatorCoordinateUnits).

Local Arguments Nat.mul : simpl never.

(** What no timer callback changes and the clock is no part of is kept
    by a tick, and by any number of them. *)
Lemma tick_frame {X} (f : World -> X) :
  (forall g w, f (with_sys g w) = f w) ->
  (forall c, preserves f (run_callback env c)) ->
  forall w, f (tick env w) = f w.
Proof.
  intros Hsys Hcb w. unfold tick. rewrite fold_callbacks by exact Hcb. apply Hsys.
Qed.

Lemma advance_frame {X} (f : World -> X) :
  (forall g w, f (with_sys g w) = f w) ->
  (forall c, preserves f (run_callback env c)) ->
  forall ms w, f (Nat.iter ms (tick env) w) = f w.
Proof.
  intros Hsys Hcb ms w.
  apply (iter_invariant (fun w' => f w' = f w)); [|reflexivity].
  intros w' Hw'. rewrite tick_frame; assumption.
Qed.

(** A property the callbacks keep and the clock is no part of. *)
Lemma advance_invariant (P : World -> Prop) :
  (forall g w, P w -> P (with_sys g w)) ->
  (forall c w, P w -> P (exec (run_callback env c) w)) ->
  forall ms w, P w -> P (Nat.iter ms (tick env) w).
Proof.
  intros Hsys Hcb. apply iter_invariant. intros w Hw. unfold tick.
  generalize (List.filter (is_due (S (now (sys w)))) (timers (sys w))).
  intros l.
  assert (P (with_sys
               (fun s => set_timers (flat_map (reschedule (S (now (sys w)))) (timers (sys w)))
                           (set_now (S (now (sys w))) s)) w)) as H by apply Hsys, Hw.
  revert H. generalize (with_sys
               (fun s => set_timers (flat_map (reschedule (S (now (sys w)))) (timers (sys w)))
                           (set_now (S (now (sys w))) s)) w).
  induction l as [|tm l IH]; intros w1 H1; simpl; [exact H1|].
  apply IH, Hcb, H1.
Qed.

(** The loader's callbacks, a frame and the passing of time keep an
    observation that each of them keeps and the clock is no part of. *)
Lemma step_frame {X} (f : World -> X) e w :
  (forall g w, f (with_sys g w) = f w) ->
  (forall c, preserves f (run_callback env c)) ->
  (forall meshes, preserves f (onLoad Box3_getCenter meshes)) ->
  preserves f onError ->
  (forall matrix random, preserves f (render_frame matrix random)) ->
  match e with
  | ModelProgress | ModelLoaded _ | ModelError | HostFrame _ _ | Advance _ =>
      f (host_step e w) = f w
  | _ => True
  end.
Proof.
  intros Hsys Hcb Hload Herr Hrender.
  destruct e as [| | meshes | |matrix random|ms|id outcome|z| |]; simpl; try exact I.
  - destruct (loader_pending (sys w)); [|reflexivity].
    apply preserves_exec. unfold onProgress, console_log.
    apply preserves_modify. intros w'. apply Hsys.
  - destruct (loader_pending (sys w)); [|reflexivity].
    rewrite preserves_exec by apply Hload. apply Hsys.
  - destruct (loader_pending (sys w)); [|reflexivity].
    rewrite preserves_exec by apply Herr. apply Hsys.
  - case_bool_decide; [|reflexivity]. apply preserves_exec, Hrender.
  - apply advance_frame; assumption.
Qed.

Ltac frame_auto :=
  first [ solve [intros; reflexivity]
        | solve [intros []; unfold run_callback; preserves_auto]
        | solve [preserves_auto] ].

(** An observation across one of the other events, by running it. *)
Ltac control_auto f :=
  cbn [step];
  first [ reflexivity
        | apply (preserves_exec f); preserves_auto ].

(** *** The map's layers and source, and the ground marker *)

Lemma step_map_and_register e w :
  match e with
  | MapLoad | Response _ _ => True
  | _ => map_and_register (host_step e w) = map_and_register w
  end.
Proof.
  pose proof (step_frame map_and_register e w) as H.
  destruct e as [| | meshes | |matrix random|ms|id outcome|z| |];
    try exact I; try (apply H; frame_auto); control_auto map_and_register.
Qed.

Lemma resume_map_and_register outcome w :
  map_and_register (exec (resume outcome) w)
  = match accepted outcome with
    | Some p =>
        (loaded (mapbox w), layers (mapbox w),
         (if bool_decide (is_Some (sources (mapbox w) !! "iss-marker"))
          then <["iss-marker" :=
                   {| mapboxgl.coordinates := (mapboxgl.lng p, mapboxgl.lat p) |}]>
                 (sources (mapbox w))
          else sources (mapbox w)),
         Some p)
    | None => map_and_register w
    end.
Proof.
  unfold map_and_register.
  destruct (resume_camera toFixed toLocaleTimeString outcome w)
    as (_ & _ & _ & -> & ->).
  destruct (accepted outcome) as [p|] eqn:Hacc.
  - destruct (resume_accepted toFixed toLocaleTimeString outcome p w Hacc)
      as (_ & -> & _ & _ & _ & -> & _).
    reflexivity.
  - destruct (resume_rejected toFixed toLocaleTimeString outcome w Hacc)
      as (-> & _ & _ & -> & _).
    reflexivity.
Qed.

Lemma load_map_and_register w :
  loaded (mapbox (exec on_map_load w)) = true
  /\ layers (mapbox (exec on_map_load w))
     = (layers (mapbox w) ++ ["iss-layer"]) ++ ["iss-marker-layer"]
  /\ sources (mapbox (exec on_map_load w))
     = <["iss-marker" := {| mapboxgl.coordinates := (0, 0)%float |}]> (sources (mapbox w))
  /\ published (exec on_map_load w) = published w.
Proof. repeat split. Qed.

Lemma start_map_and_register page :
  map_and_register (start env page) = (false, [], ∅, None).
Proof.
  unfold start. rewrite preserves_exec; [reflexivity|].
  unfold main. preserves_auto.
Qed.

Lemma step_map_objects e w : map_objects w -> map_objects (host_step e w).
Proof.
  intros Hw. pose proof (step_map_and_register e w) as Hs.
  unfold map_objects, map_and_register in *.
  destruct e as [| | meshes | |matrix random|ms|id outcome|z| |]; cbn [step] in *;
    try (exact Hw);
    try (injection Hs as -> -> -> _; exact Hw).
  - cbn [step]. destruct (loaded (mapbox w)) eqn:Hl; [rewrite Hl; exact Hw|].
    destruct Hw as [Hlayers Hsources].
    destruct (load_map_and_register w) as (-> & -> & -> & _).
    rewrite Hlayers, Hsources. split; [reflexivity|].
    rewrite dom_insert_L, dom_empty_L. apply (right_id_L ∅ (∪)).
  - cbn [step]. destruct (requests (sys w) !! id) as [r|]; [|exact Hw].
    destruct (req_settled r); [exact Hw|].
    pose proof (resume_map_and_register outcome
                  (with_sys (fun s => set_requests (<[id:=settle r]> (requests s)) s) w))
      as Hr.
    unfold map_and_register in Hr.
    destruct (accepted outcome) as [p|]; injection Hr as -> -> -> _; [|exact Hw].
    destruct (loaded (mapbox w)); case_bool_decide as Hm; try exact Hw.
    + destruct Hw as [Hlayers Hsources]. split; [exact Hlayers|].
      rewrite dom_insert_lookup_L by exact Hm. exact Hsources.
    + destruct Hw as [_ Hsources]. rewrite Hsources, lookup_empty in Hm.
      destruct Hm as [? Hm]. discriminate Hm.
Qed.

(** X3.  The map holds no layer and no source before its [load] event;
    from then on it holds the custom layer and the marker layer, in this
    order, and the one source of the marker, whatever happens. *)
Theorem map_holds_its_two_layers_and_one_source page events :
  let w := host_run events (start env page) in
  if loaded (mapbox w)
  then layers (mapbox w) = ["iss-layer"; "iss-marker-layer"]
       /\ base.dom (sources (mapbox w)) = ({["iss-marker"]} : gset string)
  else layers (mapbox w) = [] /\ sources (mapbox w) = ∅.
Proof.
  apply (run_invariant fromLngLat meterInMercatorCoordinateUnits toFixed
           toLocaleTimeString Box3_getCenter env map_objects).
  - apply step_map_objects.
  - pose proof (start_map_and_register page) as H.
    unfold map_objects, map_and_register in *. injection H as -> -> -> _. auto.
Qed.

Lemma step_marker e w : marker_follows_register w -> marker_follows_register (host_step e w).
Proof.
  intros Hw. pose proof (step_map_and_register e w) as Hs.
  unfold marker_follows_register, marker, map_and_register in *.
  destruct e as [| | meshes | |matrix random|ms|id outcome|z| |]; cbn [step] in *;
    try (exact Hw);
    try (injection Hs as _ _ -> ->; exact Hw).
  - cbn [step]. destruct (loaded (mapbox w)) eqn:Hl; [exact Hw|].
    destruct (load_map_and_register w) as (_ & _ & -> & _).
    rewrite lookup_insert_eq. simpl. left. reflexivity.
  - cbn [step]. destruct (requests (sys w) !! id) as [r|]; [|exact Hw].
    destruct (req_settled r); [exact Hw|].
    pose proof (resume_map_and_register outcome
                  (with_sys (fun s => set_requests (<[id:=settle r]> (requests s)) s) w))
      as Hr.
    unfold map_and_register, published in *.
    destruct (accepted outcome) as [p|]; injection Hr as _ _ -> ->; [|exact Hw].
    case_bool_decide as Hm.
    + rewrite lookup_insert_eq. simpl. right. reflexivity.
    + destruct (sources (mapbox w) !! "iss-marker") eqn:Hlook; [|exact I].
      exfalso. apply Hm. eauto.
Qed.

Lemma step_marker_mirrors e w : marker_mirrors w -> marker_mirrors (host_step e w).
Proof.
  intros (Hl & p & Hp & Hm). pose proof (step_map_and_register e w) as Hs.
  unfold marker_mirrors, marker, map_and_register in *.
  destruct e as [| | meshes | |matrix random|ms|id outcome|z| |]; cbn [step] in *;
    try (split; [exact Hl|exists p; split; [exact Hp|exact Hm]]);
    try (injection Hs as -> _ -> ->; split; [exact Hl|exists p; split; [exact Hp|exact Hm]]).
  - rewrite Hl. eauto.
  - destruct (requests (sys w) !! id) as [r|]; [|eauto].
    destruct (req_settled r); [eauto|].
    pose proof (resume_map_and_register outcome
                  (with_sys (fun s => set_requests (<[id:=settle r]> (requests s)) s) w))
      as Hr.
    unfold map_and_register, published in *.
    destruct (accepted outcome) as [q|]; injection Hr as -> _ -> ->; [|eauto].
    split; [exact Hl|]. exists q. split; [reflexivity|].
    cbn [with_sys mapbox] in *.
    rewrite bool_decide_eq_true_2, lookup_insert_eq; [reflexivity|].
    destruct (sources (mapbox w) !! "iss-marker"); [eauto|discriminate Hm].
Qed.

(** X4.  Every position published after the map has loaded is mirrored
    to the ground marker, and nothing else moves the marker.  Until the
    first response is accepted after the map's [load], the marker is at
    [(0, 0)], where the [load] handler puts it, or at the published
    position; when a response is accepted in a state where the map has
    loaded, the marker is set to [[lng, lat]] of the position it
    publishes; and from then on, whatever happens, the marker is at the
    position that is published. *)
Theorem marker_mirrors_positions_published_after_load
    page events1 events2 id r outcome p :
  let w1 := host_run events1 (start env page) in
  loaded (mapbox w1) = true ->
  requests (sys w1) !! id = Some r -> req_settled r = false ->
  accepted outcome = Some p ->
  let w2 := host_step (Response id outcome) w1 in
  let w3 := host_run events2 w2 in
  (marker w1 = Some (0, 0)%float
   \/ marker w1 = (fun q => (mapboxgl.lng q, mapboxgl.lat q)) <$> published w1)
  /\ published w2 = Some p
  /\ marker w2 = Some (mapboxgl.lng p, mapboxgl.lat p)
  /\ exists q, published w3 = Some q
               /\ marker w3 = Some (mapboxgl.lng q, mapboxgl.lat q).
Proof.
  intros w1 Hl Hr Hs Hacc w2 w3.
  assert (map_objects w1) as Hmap.
  { apply (run_invariant fromLngLat meterInMercatorCoordinateUnits toFixed
             toLocaleTimeString Box3_getCenter env map_objects);
      [apply step_map_objects|].
    pose proof (start_map_and_register page) as H.
    unfold map_objects, map_and_register in *. injection H as -> -> -> _. auto. }
  assert (marker_follows_register w1) as Hfollows.
  { apply (run_invariant fromLngLat meterInMercatorCoordinateUnits toFixed
             toLocaleTimeString Box3_getCenter env marker_follows_register);
      [apply step_marker|].
    pose proof (start_map_and_register page) as H.
    unfold marker_follows_register, marker, map_and_register in *.
    injection H as _ _ -> _. rewrite lookup_empty. exact I. }
  assert (is_Some (sources (mapbox w1) !! "iss-marker")) as Hsrc.
  { unfold map_objects in Hmap. rewrite Hl in Hmap. destruct Hmap as [_ Hdom].
    apply (elem_of_dom (D := gset string)). rewrite Hdom.
    apply elem_of_singleton. reflexivity. }
  assert (marker_mirrors w2) as H2.
  { unfold w2. cbn [step]. rewrite Hr, Hs.
    pose proof (resume_map_and_register outcome
                  (with_sys (fun s => set_requests (<[id:=settle r]> (requests s)) s) w1))
      as Hres.
    rewrite Hacc in Hres. unfold marker_mirrors, marker, map_and_register in *.
    injection Hres as -> _ -> ->. split; [exact Hl|]. exists p. split; [reflexivity|].
    cbn [with_sys mapbox].
    rewrite bool_decide_eq_true_2, lookup_insert_eq; [reflexivity|exact Hsrc]. }
  assert (marker_mirrors w3) as H3.
  { apply (run_invariant fromLngLat meterInMercatorCoordinateUnits toFixed
             toLocaleTimeString Box3_getCenter env marker_mirrors);
      [apply step_marker_mirrors|exact H2]. }
  split; [|split; [|split]].
  - unfold marker_follows_register in Hfollows.
    destruct (marker w1) as [c|] eqn:Hc.
    + destruct Hfollows as [->|Hf]; [left; reflexivity|right; exact Hf].
    + unfold marker in Hc. destruct Hsrc as [f Hf]. rewrite Hf in Hc. discriminate Hc.
  - destruct H2 as (_ & q & Hq & Hm).
    assert (published w2 = Some p) as Hp.
    { unfold w2. cbn [step]. rewrite Hr, Hs.
      apply (resume_accepted toFixed toLocaleTimeString outcome p _ Hacc). }
    exact Hp.
  - destruct H2 as (_ & q & Hq & Hm).
    assert (published w2 = Some p) as Hp.
    { unfold w2. cbn [step]. rewrite Hr, Hs.
      apply (resume_accepted toFixed toLocaleTimeString outcome p _ Hacc). }
    assert (q = p) as -> by congruence. rewrite Hm. reflexivity.
  - destruct H3 as (_ & q & Hq & Hm). exists q. auto.
Qed.

(** *** The info panel and the status indicator *)

Lemma resume_elements outcome w :
  elements (dom (exec (resume outcome) w))
  = match accepted outcome with
    | Some p => shown toFixed toLocaleTimeString p (now (sys w)) (elements (dom w))
    | None => elements (dom w)
    end.
Proof.
  destruct (accepted outcome) as [p|] eqn:Hacc.
  - apply (resume_accepted toFixed toLocaleTimeString outcome p w Hacc).
  - destruct outcome as [|ok st stt [data|]]; simpl in Hacc.
    + reflexivity.
    + destruct ok; [|reflexivity].
      unfold fetchIssPosition_resume.
      destruct (get_property data "longitude") as [e1|vlng]; [reflexivity|].
      destruct (get_property data "latitude") as [e2|vlat]; [reflexivity|].
      run_monad.
      destruct (isNaN (parseFloat vlng) || isNaN (parseFloat vlat)); [reflexivity|].
      discriminate.
    + destruct ok; reflexivity.
Qed.

(** Writing to a key that is present adds no key. *)
Lemma insert_present_is_Some (m : gmap string string) k v key :
  is_Some (m !! k) ->
  is_Some (<[k := v]> m !! key) <-> is_Some (m !! key).
Proof.
  intros Hk. rewrite lookup_insert_is_Some.
  destruct (decide (k = key)) as [<-|Hne]; tauto.
Qed.

(** [updateISSInfo] writes to the two elements it looks up, where they
    exist, and to no other. *)
Lemma shown_lookup p t els key :
  (is_Some (shown toFixed toLocaleTimeString p t els !! key) <-> is_Some (els !! key))
  /\ (key <> "position" -> key <> "lastUpdate" ->
      shown toFixed toLocaleTimeString p t els !! key = els !! key).
Proof.
  unfold shown. split.
  - repeat case_bool_decide;
      rewrite ?insert_present_is_Some by assumption; reflexivity.
  - intros H1 H2. repeat case_bool_decide;
      rewrite ?lookup_insert_ne by congruence; reflexivity.
Qed.


Lemma step_elements e w :
  match e with
  | Response _ _ => True
  | _ => elements (dom (host_step e w)) = elements (dom w)
  end.
Proof.
  pose proof (step_frame (fun w => elements (dom w)) e w) as H.
  destruct e as [| | meshes | |matrix random|ms|id outcome|z| |]; try exact I;
    try (apply H; frame_auto); try control_auto (fun w => elements (dom w)).
  cbn [step]. destruct (loaded (mapbox w)); reflexivity.
Qed.

(** What [updateISSInfo] leaves in the two elements it looks up. *)
Lemma shown_fields p t els :
  shown toFixed toLocaleTimeString p t els !! "position"
  = (fun _ => toFixed (mapboxgl.lat p) 4 +:+ "°, "
              +:+ toFixed (mapboxgl.lng p) 4 +:+ "°") <$> els !! "position"
  /\ shown toFixed toLocaleTimeString p t els !! "lastUpdate"
     = (fun _ => toLocaleTimeString t) <$> els !! "lastUpdate".
Proof.
  unfold shown. split.
  - repeat case_bool_decide;
      rewrite ?(lookup_insert_ne _ "lastUpdate" "position") by discriminate;
      rewrite ?lookup_insert_eq;
      repeat match goal with
             | H : is_Some (_ !! _) |- _ => destruct H as [? H]
             | H : ¬ is_Some (_ !! _) |- _ => apply eq_None_not_Some in H
             end;
      rewrite ?lookup_insert_ne in * by discriminate;
      repeat match goal with H : els !! _ = _ |- _ => rewrite H end;
      reflexivity.
  - repeat case_bool_decide;
      rewrite ?lookup_insert_eq;
      rewrite ?(lookup_insert_ne _ "position" "lastUpdate") in * by discriminate;
      repeat match goal with
             | H : is_Some (_ !! _) |- _ => destruct H as [? H]
             | H : ¬ is_Some (_ !! _) |- _ => apply eq_None_not_Some in H
             end;
      repeat match goal with H : els !! _ = _ |- _ => rewrite H end;
      reflexivity.
Qed.

(** One event writes the elements only when it is an accepted response. *)
Lemma step_info_elements e w :
  elements (dom (host_step e w)) = elements (dom w)
  \/ exists id outcome p,
       e = Response id outcome /\ accepted outcome = Some p
       /\ elements (dom (host_step e w))
          = shown toFixed toLocaleTimeString p (now (sys w)) (elements (dom w)).
Proof.
  pose proof (step_elements e w) as Hs.
  destruct e as [| | meshes | |matrix random|ms|id outcome|z| |]; auto.
  cbn [step]. destruct (requests (sys w) !! id) as [r|]; [|auto].
  destruct (req_settled r); [auto|].
  rewrite resume_elements. destruct (accepted outcome) as [p|] eqn:Hacc; [|auto].
  right. exists id, outcome, p. auto.
Qed.

Lemma run_info_elements events w :
  let els := elements (dom w) in
  let els' := elements (dom (host_run events w)) in
  (is_Some (els' !! "position") <-> is_Some (els !! "position"))
  /\ (is_Some (els' !! "lastUpdate") <-> is_Some (els !! "lastUpdate"))
  /\ (els' !! "position" = els !! "position"
      \/ exists id outcome p,
           Response id outcome ∈ events /\ accepted outcome = Some p
           /\ els' !! "position"
              = Some (toFixed (mapboxgl.lat p) 4 +:+ "°, "
                      +:+ toFixed (mapboxgl.lng p) 4 +:+ "°"))
  /\ (els' !! "lastUpdate" = els !! "lastUpdate"
      \/ exists t, els' !! "lastUpdate" = Some (toLocaleTimeString t)).
Proof.
  revert w. induction events as [|e events IH]; intros w; cbn zeta.
  { repeat split; auto. }
  change (host_run (e :: events) w) with (host_run events (host_step e w)).
  destruct (IH (host_step e w)) as (I1 & I2 & I3 & I4). cbn zeta in *.
  assert (forall id outcome,
            Response id outcome ∈ events -> Response id outcome ∈ e :: events) as Hin
    by (intros; rewrite elem_of_cons; auto).
  destruct (step_info_elements e w) as [Heq|(id & outcome & p & -> & Hacc & Heq)];
    rewrite Heq in *.
  - split; [exact I1|]. split; [exact I2|]. split; [|exact I4].
    destruct I3 as [I3|(id & outcome & p & Hi & Hacc & I3)]; [auto|].
    right. exists id, outcome, p. auto.
  - destruct (shown_lookup p (now (sys w)) (elements (dom w)) "position") as [L1 _].
    destruct (shown_lookup p (now (sys w)) (elements (dom w)) "lastUpdate") as [L2 _].
    destruct (shown_fields p (now (sys w)) (elements (dom w))) as [F1 F2].
    split; [rewrite I1; exact L1|]. split; [rewrite I2; exact L2|]. split.
    + destruct I3 as [I3|(id' & outcome' & p' & Hi & Hacc' & I3)].
      * rewrite I3, F1.
        destruct (elements (dom w) !! "position"); [|auto].
        right. exists id, outcome, p. rewrite elem_of_cons. auto.
      * right. exists id', outcome', p'. auto.
    + destruct I4 as [I4|I4]; [|auto].
      rewrite I4, F2. destruct (elements (dom w) !! "lastUpdate"); [|auto].
      right. eexists. reflexivity.
Qed.

(** X5.  The two elements of the info panel that the feed writes are
    written only when a response is accepted, and never created: after
    any events, [position] and [lastUpdate] are on the page exactly if
    they were when it was loaded; the text of [position] is the page's
    own, or the latitude and longitude, as [toFixed(4)] prints them, of
    one of the accepted responses that were delivered; and the text of
    [lastUpdate] is the page's own or a time as [toLocaleTimeString]
    prints it. *)
Theorem info_panel_is_written_only_by_accepted_responses page events :
  let els := elements (dom (host_run events (start env page))) in
  (is_Some (els !! "position") <-> is_Some (page !! "position"))
  /\ (is_Some (els !! "lastUpdate") <-> is_Some (page !! "lastUpdate"))
  /\ (els !! "position" = page !! "position"
      \/ exists id outcome p,
           Response id outcome ∈ events /\ accepted outcome = Some p
           /\ els !! "position"
              = Some (toFixed (mapboxgl.lat p) 4 +:+ "°, "
                      +:+ toFixed (mapboxgl.lng p) 4 +:+ "°"))
  /\ (els !! "lastUpdate" = page !! "lastUpdate"
      \/ exists t, els !! "lastUpdate" = Some (toLocaleTimeString t)).
Proof.
  pose proof (run_info_elements events (start env page)) as H. cbn zeta in H.
  assert (elements (dom (start env page)) = page) as Hpage.
  { apply (preserves_exec (fun w => elements (dom w)) (main env) (blank page)).
    unfold main. preserves_auto. }
  rewrite Hpage in H. exact H.
Qed.

Lemma callback_status c w :
  status_shown w ∈ status_pairs ->
  status_shown (exec (run_callback env c) w) ∈ status_pairs.
Proof.
  intros Hw. destruct c; [exact Hw|].
  unfold status_pairs. simpl. rewrite !elem_of_cons. auto.
Qed.

Lemma step_status e w :
  status_shown w ∈ status_pairs -> status_shown (host_step e w) ∈ status_pairs.
Proof.
  intros Hw.
  destruct e as [| | meshes | |matrix random|ms|id outcome|z| |]; cbn [step].
  - destruct (loaded (mapbox w)); exact Hw.
  - destruct (loader_pending (sys w)); exact Hw.
  - destruct (loader_pending (sys w)); [|exact Hw].
    rewrite preserves_exec; [exact Hw|]. preserves_auto.
  - destruct (loader_pending (sys w)); [|exact Hw].
    rewrite preserves_exec; [exact Hw|]. preserves_auto.
  - case_bool_decide; [|exact Hw].
    rewrite preserves_exec; [exact Hw|]. preserves_auto.
  - apply (advance_invariant (fun w => status_shown w ∈ status_pairs)).
    + intros g w' H. exact H.
    + apply callback_status.
    + exact Hw.
  - destruct (requests (sys w) !! id) as [r|]; [|exact Hw].
    destruct (req_settled r); [exact Hw|].
    unfold status_shown, status_pairs. rewrite !elem_of_cons.
    destruct (accepted outcome) as [p|] eqn:Hacc.
    + destruct (resume_accepted toFixed toLocaleTimeString outcome p
                  (with_sys (fun s => set_requests (<[id:=settle r]> (requests s)) s) w)
                  Hacc) as (_ & _ & Hs & Ht & _).
      unfold status in Hs. rewrite Hs, Ht. auto.
    + destruct (resume_rejected toFixed toLocaleTimeString outcome
                  (with_sys (fun s => set_requests (<[id:=settle r]> (requests s)) s) w)
                  Hacc) as (_ & Hs & Ht & _).
      unfold status in Hs. rewrite Hs, Ht. auto 6.
  - exact Hw.
  - unfold status_shown, status_pairs. rewrite !elem_of_cons.
    unfold toggleFollowISS. run_monad. destruct (isFollowingISS w); simpl; auto.
  - unfold status_shown, status_pairs. rewrite !elem_of_cons. simpl. auto.
Qed.

(** X6.  The status indicator always shows one of four pairs of class
    and text: connecting at start-up, connected with [ISS Connected] or
    [Following ISS], or error with [Connection Error]; the dot's class and
    the text beside it never disagree. *)
Theorem status_indicator_shows_a_known_pair page events :
  let w := host_run events (start env page) in
  (statusDot_className (dom w), statusText_textContent (dom w))
  ∈ [("status-dot connecting", "Connecting...");
     ("status-dot connected", "ISS Connected");
     ("status-dot connected", "Following ISS");
     ("status-dot error", "Connection Error")].
Proof.
  apply (run_invariant fromLngLat meterInMercatorCoordinateUnits toFixed
           toLocaleTimeString Box3_getCenter env
           (fun w => status_shown w ∈ status_pairs)).
  - apply step_status.
  - unfold start, main, status_shown, status_pairs.
    destruct (falsy_string _ || _), (falsy_string (ISS_API_URL env)); simpl;
      rewrite !elem_of_cons; auto.
Qed.

(** *** The Mapbox token *)

Lemma step_alerts e w : alerts (dom (host_step e w)) = alerts (dom w).
Proof.
  pose proof (step_frame (fun w => alerts (dom w)) e w) as H.
  destruct e as [| | meshes | |matrix random|ms|id outcome|z| |];
    try (apply H; frame_auto); try control_auto (fun w => alerts (dom w)); cbn [step].
  - destruct (loaded (mapbox w)); reflexivity.
  - destruct (requests (sys w) !! id) as [r|]; [|reflexivity].
    destruct (req_settled r); [reflexivity|].
    rewrite (preserves_exec (fun w => alerts (dom w))); [reflexivity|]. preserves_auto.
Qed.

(** X7.  The check of the Mapbox token reports once: if the token is
    missing, empty or the placeholder, the start-up code logs an error and
    shows one alert, before the map is constructed; with any other token
    it shows no alert and logs no such error.  No alert is ever shown
    after that, whatever happens. *)
Theorem unusable_token_is_reported_once page events :
  let bad :=
    falsy_string (VITE_MAPBOX_ACCESS_TOKEN env)
    || bool_decide (VITE_MAPBOX_ACCESS_TOKEN env = Some "YOUR_MAPBOX_ACCESS_TOKEN") in
  let w0 := start env page in
  alerts (dom w0)
  = (if bad then ["Missing Mapbox access token! Please check your .env file."]
     else [])
  /\ ((ErrorLevel,
       "❌ Missing Mapbox access token! Please set VITE_MAPBOX_ACCESS_TOKEN in your .env file")
      ∈ console (sys w0) <-> bad = true)
  /\ alerts (dom (host_run events w0)) = alerts (dom w0).
Proof.
  intros bad w0. split; [|split; [split|]].
  - unfold w0, bad, start, main, MAPBOX_ACCESS_TOKEN.
    destruct (falsy_string _ || _), (falsy_string (ISS_API_URL env)); reflexivity.
  - unfold w0, bad, start, main, MAPBOX_ACCESS_TOKEN.
    destruct (falsy_string _ || _); [reflexivity|].
    destruct (falsy_string (ISS_API_URL env)); simpl;
      rewrite ?elem_of_cons, elem_of_nil; intros H; decompose [or] H;
      discriminate || contradiction.
  - intros Hbad. unfold w0, start, main, MAPBOX_ACCESS_TOKEN. fold bad. rewrite Hbad.
    destruct (falsy_string (ISS_API_URL env)); simpl; rewrite !elem_of_cons; auto.
  - apply (run_invariant fromLngLat meterInMercatorCoordinateUnits toFixed
             toLocaleTimeString Box3_getCenter env
             (fun w => alerts (dom w) = alerts (dom w0))); [|reflexivity].
    intros e w Hw. rewrite step_alerts. exact Hw.
Qed.

(** *** Responses that arrive out of order *)

Lemma resume_requests outcome w :
  requests (sys (exec (resume outcome) w)) = requests (sys w).
Proof. apply (preserves_exec (fun w => requests (sys w))). preserves_auto. Qed.

(** X8.  Responses are applied in the order they arrive, not in the
    order the requests were issued: of two requests in flight, if the
    response to one arrives and then the response to the other, both
    accepted, the position of the second arrival stays published,
    whichever request was issued first; the marker is at it when its
    source exists. *)
Theorem last_arrival_is_published w i j ri rj oi oj pi pj :
  i <> j ->
  requests (sys w) !! i = Some ri -> req_settled ri = false ->
  requests (sys w) !! j = Some rj -> req_settled rj = false ->
  accepted oi = Some pi -> accepted oj = Some pj ->
  let w1 := host_step (Response j oj) w in
  let w2 := host_step (Response i oi) w1 in
  published w1 = Some pj
  /\ published w2 = Some pi
  /\ (is_Some (sources (mapbox w) !! "iss-marker") ->
      mapboxgl.coordinates <$> sources (mapbox w2) !! "iss-marker"
      = Some (mapboxgl.lng pi, mapboxgl.lat pi)).
Proof.
  intros Hij Hi Hsi Hj Hsj Hoi Hoj w1 w2.
  assert (w1 = exec (resume oj)
                 (with_sys (fun s => set_requests (<[j:=settle rj]> (requests s)) s) w))
    as Hw1.
  { unfold w1. cbn [step]. rewrite Hj, Hsj. reflexivity. }
  assert (requests (sys w1) !! i = Some ri) as Hi1.
  { rewrite Hw1, resume_requests. cbn [with_sys sys set_requests requests].
    rewrite list_lookup_insert_ne by congruence. exact Hi. }
  assert (w2 = exec (resume oi)
                 (with_sys (fun s => set_requests (<[i:=settle ri]> (requests s)) s) w1))
    as Hw2.
  { unfold w2. cbn [step]. rewrite Hi1, Hsi. reflexivity. }
  pose proof (resume_map_and_register oj
                (with_sys (fun s => set_requests (<[j:=settle rj]> (requests s)) s) w))
    as H1.
  pose proof (resume_map_and_register oi
                (with_sys (fun s => set_requests (<[i:=settle ri]> (requests s)) s) w1))
    as H2.
  rewrite <- Hw1, Hoj in H1. rewrite <- Hw2, Hoi in H2.
  unfold map_and_register in H1, H2.
  injection H1 as _ _ Hs1 Hp1. injection H2 as _ _ Hs2 Hp2.
  repeat split; try assumption.
  intros Hm. rewrite Hs2.
  cbn [with_sys mapbox] in *.
  rewrite bool_decide_eq_true_2.
  - rewrite lookup_insert_eq. reflexivity.
  - rewrite Hs1. rewrite bool_decide_eq_true_2 by exact Hm.
    rewrite lookup_insert_eq. eauto.
Qed.

(** *** The loading screen *)

Lemma step_loading_screen e w :
  match e with
  | MapLoad | Advance _ => True
  | _ => loading_screen (host_step e w) = loading_screen w
  end.
Proof.
  destruct e as [| | meshes | |matrix random|ms|id outcome|z| |]; cbn [step];
    try exact I.
  - destruct (loader_pending (sys w)); reflexivity.
  - destruct (loader_pending (sys w)); [|reflexivity].
    rewrite (preserves_exec loading_screen); [reflexivity|]. preserves_auto.
  - destruct (loader_pending (sys w)); [|reflexivity].
    rewrite (preserves_exec loading_screen); [reflexivity|]. preserves_auto.
  - case_bool_decide; [|reflexivity].
    apply (preserves_exec loading_screen). preserves_auto.
  - destruct (requests (sys w) !! id) as [r|]; [|reflexivity].
    destruct (req_settled r); [reflexivity|].
    rewrite (preserves_exec loading_screen); [reflexivity|]. preserves_auto.
  - reflexivity.
  - apply (preserves_exec loading_screen). preserves_auto.
  - reflexivity.
Qed.

Lemma loading_screen_fields w w' :
  loading_screen w' = loading_screen w ->
  loaded (mapbox w') = loaded (mapbox w) /\ timers (sys w') = timers (sys w)
  /\ now (sys w') = now (sys w)
  /\ loadingScreen_hidden (dom w') = loadingScreen_hidden (dom w).
Proof. unfold loading_screen. intros [= -> -> -> ->]. auto. Qed.

(** One tick when the interval timer is the only timer, and when the
    timeout of the loading screen is pending too. *)
Lemma tick_before w d :
  timers (sys w) = [poll_timer d] ->
  loaded (mapbox (tick env w)) = loaded (mapbox w)
  /\ timers (sys (tick env w))
     = [poll_timer (if Nat.eqb d (S (now (sys w))) then d + 2000 else d)]
  /\ now (sys (tick env w)) = S (now (sys w))
  /\ loadingScreen_hidden (dom (tick env w)) = loadingScreen_hidden (dom w).
Proof.
  intros Ht. unfold tick. rewrite Ht. cbn [List.filter flat_map].
  unfold is_due, reschedule, is_due. cbn [due poll_timer period callback].
  destruct (Nat.eqb d (S (now (sys w)))); repeat split.
Qed.

Lemma tick_after w d h :
  timers (sys w) = [poll_timer d; hide_timer h] ->
  loaded (mapbox (tick env w)) = loaded (mapbox w)
  /\ timers (sys (tick env w))
     = poll_timer (if Nat.eqb d (S (now (sys w))) then d + 2000 else d)
       :: (if Nat.eqb h (S (now (sys w))) then [] else [hide_timer h])
  /\ now (sys (tick env w)) = S (now (sys w))
  /\ loadingScreen_hidden (dom (tick env w))
     = loadingScreen_hidden (dom w) || Nat.eqb h (S (now (sys w))).
Proof.
  intros Ht. unfold tick. rewrite Ht. cbn [List.filter flat_map].
  unfold is_due, reschedule, is_due. cbn [due poll_timer hide_timer period callback].
  destruct (Nat.eqb d (S (now (sys w)))), (Nat.eqb h (S (now (sys w))));
    repeat split; cbn; rewrite ?orb_false_r, ?orb_true_r; reflexivity.
Qed.

Lemma tick_before_load w : before_load w -> before_load (tick env w).
Proof.
  intros Hw Hl.
  assert (loaded (mapbox w) = false) as Hl0.
  { rewrite <- Hl. symmetry. apply (tick_frame (fun w => loaded (mapbox w))); frame_auto. }
  destruct (Hw Hl0) as (d & Ht & Hd & Hh).
  destruct (tick_before w d Ht) as (_ & -> & -> & ->).
  exists (if Nat.eqb d (S (now (sys w))) then d + 2000 else d).
  split; [reflexivity|]. split; [|exact Hh].
  destruct (Nat.eqb_spec d (S (now (sys w)))); lia.
Qed.

Lemma tick_after_load h w : after_load h w -> after_load h (tick env w).
Proof.
  intros (Hl & d & Hd & [(Hh & Ht & Hs)|(Hh & Ht & Hs)]).
  - destruct (tick_after w d h Ht) as (Hl' & Ht' & Hn' & Hs').
    split; [congruence|]. rewrite Ht', Hn', Hs', Hs.
    exists (if Nat.eqb d (S (now (sys w))) then d + 2000 else d).
    split; [|destruct (Nat.eqb_spec h (S (now (sys w)))) as [E|E]].
    + destruct (Nat.eqb_spec d (S (now (sys w)))); lia.
    + right. repeat split. lia.
    + left. repeat split. lia.
  - destruct (tick_before w d Ht) as (Hl' & Ht' & Hn' & Hs').
    split; [congruence|]. rewrite Ht', Hn', Hs', Hs.
    exists (if Nat.eqb d (S (now (sys w))) then d + 2000 else d).
    split; [|right; repeat split; lia].
    destruct (Nat.eqb_spec d (S (now (sys w)))); lia.
Qed.

Lemma step_before_load e w : before_load w -> before_load (host_step e w).
Proof.
  intros Hw. pose proof (step_loading_screen e w) as Hs.
  destruct e as [| | meshes | |matrix random|ms|id outcome|z| |];
    try (apply loading_screen_fields in Hs as (Hl & Ht & Hn & Hh);
         unfold before_load; rewrite Hl, Ht, Hn, Hh; exact Hw).
  - cbn [step]. destruct (loaded (mapbox w)) eqn:Hl; [exact Hw|].
    intros H. discriminate H.
  - cbn [step]. apply iter_invariant; [apply tick_before_load|exact Hw].
Qed.

Lemma step_after_load h e w : after_load h w -> after_load h (host_step e w).
Proof.
  intros Hw. pose proof (step_loading_screen e w) as Hs.
  destruct e as [| | meshes | |matrix random|ms|id outcome|z| |];
    try (apply loading_screen_fields in Hs as (Hl & Ht & Hn & Hh);
         unfold after_load; rewrite Hl, Ht, Hn, Hh; exact Hw).
  - cbn [step]. destruct Hw as [Hl Hw]. rewrite Hl. split; assumption.
  - cbn [step]. apply iter_invariant; [apply tick_after_load|exact Hw].
Qed.

Lemma start_before_load page : before_load (start env page).
Proof.
  intros _. exists 2000. unfold start, main.
  destruct (falsy_string _ || _), (falsy_string (ISS_API_URL env));
    repeat split; simpl; lia.
Qed.

Lemma load_after_load w :
  before_load w -> loaded (mapbox w) = false ->
  after_load (now (sys w) + 2000) (host_step MapLoad w).
Proof.
  intros Hw Hl. destruct (Hw Hl) as (d & Ht & Hd & Hh).
  cbn [step]. rewrite Hl. split; [reflexivity|].
  exists d. split; [exact Hd|]. left.
  assert (timers (sys (exec on_map_load w))
          = timers (sys w) ++ [hide_timer (now (sys w) + 2000)]) as -> by reflexivity.
  rewrite Ht. repeat split; [|exact Hh].
  change (now (sys (exec on_map_load w))) with (now (sys w)). lia.
Qed.

Lemma step_loaded e w :
  loaded (mapbox w) = false -> loaded (mapbox (host_step e w)) = true -> e = MapLoad.
Proof.
  intros Hl Hl'. pose proof (step_loading_screen e w) as Hs.
  destruct e as [| | meshes | |matrix random|ms|id outcome|z| |];
    try reflexivity; exfalso;
    try (apply loading_screen_fields in Hs as (Hs & _); congruence).
  cbn [step] in Hl'.
  rewrite (advance_frame (fun w => loaded (mapbox w))) in Hl' by frame_auto.
  congruence.
Qed.

Lemma run_timers page events :
  let w := host_run events (start env page) in
  before_load w /\ (loaded (mapbox w) = true -> exists h, after_load h w).
Proof.
  apply (run_invariant fromLngLat meterInMercatorCoordinateUnits toFixed
           toLocaleTimeString Box3_getCenter env
           (fun w => before_load w
                     /\ (loaded (mapbox w) = true -> exists h, after_load h w))).
  - intros e w [Hb Ha]. split; [apply step_before_load, Hb|]. intros Hl'.
    destruct (loaded (mapbox w)) eqn:Hl.
    + destruct (Ha eq_refl) as [h Hh]. exists h. apply step_after_load, Hh.
    + rewrite (step_loaded e w Hl Hl'). eexists. apply load_after_load; assumption.
  - split; [apply start_before_load|]. intros H.
    pose proof (start_map_and_register page) as Hs.
    unfold map_and_register in Hs. injection Hs as Hs _ _ _. congruence.
Qed.

(** X22.  Timers do not accumulate: in every state the page can reach,
    the interval timer of the poll loop is pending, due in the future,
    and there is at most one other timer, the timeout that hides the
    loading screen, pending only during the 2000 ms after the map's
    [load] event. *)
Theorem timers_never_accumulate page events :
  let w := host_run events (start env page) in
  exists d,
    now (sys w) < d
    /\ (timers (sys w) = [poll_timer d]
        \/ exists h,
             now (sys w) < h
             /\ timers (sys w)
                = [poll_timer d;
                   {| callback := CbHideLoadingScreen; due := h; period := None |}]
             /\ loaded (mapbox w) = true
             /\ loadingScreen_hidden (dom w) = false).
Proof.
  intros w. destruct (run_timers page events) as [Hb Ha]. fold w in Hb, Ha.
  destruct (loaded (mapbox w)) eqn:Hl.
  - destruct (Ha eq_refl) as (h & _ & d & Hd & [(Hh & Ht & Hs)|(Hh & Ht & Hs)]);
      exists d; split; try exact Hd; [right|left; exact Ht].
    exists h. auto.
  - destruct (Hb Hl) as (d & Ht & Hd & _). exists d. auto.
Qed.

(** X9.  The loading screen shows until the map has loaded, and is
    hidden 2000 ms after the map's [load] event: whatever else happens in
    between and afterwards, it shows at every time before that and is
    hidden at every time from then on. *)
Theorem loading_screen_hides_2000_ms_after_map_load page events1 events2 :
  let w0 := host_run events1 (start env page) in
  loaded (mapbox w0) = false ->
  let w := host_run events2 (host_step MapLoad w0) in
  loadingScreen_hidden (dom w0) = false
  /\ loadingScreen_hidden (dom w) = bool_decide (now (sys w0) + 2000 <= now (sys w)).
Proof.
  intros w0 Hl w.
  assert (before_load w0) as H0.
  { apply (run_invariant fromLngLat meterInMercatorCoordinateUnits toFixed
             toLocaleTimeString Box3_getCenter env before_load);
      [apply step_before_load|apply start_before_load]. }
  destruct (H0 Hl) as (d & Ht & Hd & Hh). split; [exact Hh|].
  pose proof (load_after_load w0 H0 Hl) as H1.
  assert (after_load (now (sys w0) + 2000) w) as (_ & d' & _ & [(Hn & _ & Hs)|(Hn & _ & Hs)]).
  { apply (run_invariant fromLngLat meterInMercatorCoordinateUnits toFixed
             toLocaleTimeString Box3_getCenter env
             (after_load (now (sys w0) + 2000)));
      [intros e w'; apply step_after_load|exact H1]. }
  - rewrite Hs. symmetry. apply bool_decide_eq_false_2. lia.
  - rewrite Hs. symmetry. apply bool_decide_eq_true_2. lia.
Qed.

(** *** The phases of the layer *)

Lemma in_phase_structure ph w w' :
  structure w' = structure w -> in_phase ph w -> in_phase ph w'.
Proof.
  unfold structure. intros [= Hm Hs Hc Hr Hp Ht Hh Hn Hl Hd].
  destruct ph; unfold in_phase, layer_added, base_objects;
    rewrite ?Hm, ?Hs, ?Hc, ?Hr, ?Hp, ?Ht, ?Hh, ?Hn, ?Hl, ?Hd; auto.
Qed.

Lemma render_skip_structure w matrix random :
  issModel (layer w) = None ->
  structure (exec (render_frame matrix random) w) = structure w.
Proof.
  intros H. unfold render. preserves_unfold. run_monad. rewrite H.
  destruct (random <? 0.01)%float; reflexivity.
Qed.

Lemma render_phase ph w matrix random :
  in_phase ph w -> in_phase ph (exec (render_frame matrix random) w).
Proof.
  intros Hw. destruct ph as [| |sh].
  - eapply in_phase_structure; [|exact Hw].
    apply render_skip_structure, Hw.
  - eapply in_phase_structure; [|exact Hw].
    apply render_skip_structure, Hw.
  - destruct Hw as (Hl & Hp & Hm & Hs & Ht & Hn & (Hc & Hadded) & (H0 & H1 & H2) & H3).
    pose proof (preserves_exec skeleton _ w
                  (render_skeleton fromLngLat meterInMercatorCoordinateUnits
                     matrix random)) as Hsk.
    unfold skeleton in Hsk. injection Hsk as Hm' Hs' Hr' Hp' Ht' Hn' Hl' Hd'.
    unfold in_phase, layer_added, base_objects.
    rewrite Hm', Hs', Hr', Hp', Ht', Hn', Hl', Hd', !render_shape.
    repeat split; try assumption; try apply Hadded.
    apply render_camera_Some, Hc.
Qed.

(** Looking an object up in a heap written out as inserts and updates. *)
Ltac heap_lookup :=
  repeat first [ rewrite lookup_insert_eq
               | rewrite lookup_insert_ne by discriminate
               | rewrite lookup_alter_eq
               | rewrite lookup_alter_ne by discriminate ].

Lemma load_phase w : in_phase Unloaded w -> in_phase AssetLoading (exec on_map_load w).
Proof.
  intros (Hl & Hp & Hm & Hs & Ht & Hn).
  unfold in_phase, layer_added, base_objects, on_map_load, onAdd.
  repeat (progress preserves_unfold).
  destruct_world w. subst. run_monad.
  heap_lookup. repeat split; eauto.
Qed.

Lemma onLoad_phase meshes w :
  in_phase AssetLoading w ->
  in_phase (ModelReady (primary_shape meshes))
    (exec (onLoad Box3_getCenter meshes) (with_sys (set_loader_pending false) w)).
Proof.
  intros (Hl & Hp & Hm & Hs & Ht & Hn & ([c Hc] & _ & [r Hr] & Hmap) & (H0 & H1 & H2)).
  unfold in_phase, layer_added, base_objects, onLoad.
  repeat (progress preserves_unfold).
  destruct_world w. subst. run_monad.
  heap_lookup. repeat split; eauto.
Qed.

Lemma onError_phase w :
  in_phase AssetLoading w ->
  in_phase (ModelReady (shape createISSModel))
    (exec onError (with_sys (set_loader_pending false) w)).
Proof.
  intros (Hl & Hp & Hm & Hs & Ht & Hn & ([c Hc] & _ & [r Hr] & Hmap) & (H0 & H1 & H2)).
  unfold in_phase, layer_added, base_objects, onError.
  repeat (progress preserves_unfold).
  destruct_world w. subst. run_monad.
  heap_lookup. repeat split; eauto.
Qed.

Lemma step_phase e ph w : in_phase ph w -> in_phase (next_phase e ph) (host_step e w).
Proof.
  intros Hw.
  pose proof (step_structure fromLngLat meterInMercatorCoordinateUnits toFixed
                toLocaleTimeString Box3_getCenter env e w) as Hs.
  destruct e as [| | meshes | |matrix random|ms|id outcome|z| |];
    try (replace (next_phase _ ph) with ph by (destruct ph; reflexivity);
         eapply in_phase_structure; [exact Hs|exact Hw]);
    cbn [step].
  - destruct ph as [| |sh]; cbn [next_phase].
    + assert (loaded (mapbox w) = false) as -> by apply Hw. apply load_phase, Hw.
    + assert (loaded (mapbox w) = true) as -> by apply Hw. exact Hw.
    + assert (loaded (mapbox w) = true) as -> by apply Hw. exact Hw.
  - destruct ph as [| |sh]; cbn [next_phase].
    + assert (loader_pending (sys w) = false) as -> by apply Hw. exact Hw.
    + assert (loader_pending (sys w) = true) as -> by apply Hw. apply onLoad_phase, Hw.
    + assert (loader_pending (sys w) = false) as -> by apply Hw. exact Hw.
  - destruct ph as [| |sh]; cbn [next_phase].
    + assert (loader_pending (sys w) = false) as -> by apply Hw. exact Hw.
    + assert (loader_pending (sys w) = true) as -> by apply Hw. apply onError_phase, Hw.
    + assert (loader_pending (sys w) = false) as -> by apply Hw. exact Hw.
  - replace (next_phase _ ph) with ph by (destruct ph; reflexivity).
    case_bool_decide; [|exact Hw]. apply render_phase, Hw.
Qed.

Lemma start_phase page : in_phase Unloaded (start env page).
Proof.
  unfold in_phase, start, main.
  destruct (falsy_string _ || _), (falsy_string (ISS_API_URL env)); repeat split.
Qed.

Lemma run_phase events ph w :
  in_phase ph w ->
  in_phase (fold_left (fun ph e => next_phase e ph) events ph) (host_run events w).
Proof.
  revert ph w. induction events as [|e events IH]; intros ph w Hw; [exact Hw|].
  simpl. apply IH, step_phase, Hw.
Qed.

(** X10.  The layer is a machine of three states, and the events drive
    it as follows: the first [load] of the map sets the layer up (camera,
    renderer, a scene of the two lights and the test cube, in this order)
    and starts the loader; the loader's callback then attaches a model as
    the fourth object of the scene, the processed asset or the procedural
    model; no other event, and no later callback, changes the state, the
    scene or the shape of any of its objects. *)
Theorem layer_is_a_machine_of_three_phases page events :
  in_phase (phase_after events) (host_run events (start env page)).
Proof. apply run_phase, start_phase. Qed.

Lemma phase_stays_ready events sh :
  fold_left (fun ph e => next_phase e ph) events (ModelReady sh) = ModelReady sh.
Proof.
  induction events as [|e events IH]; [reflexivity|].
  simpl. destruct e; exact IH.
Qed.

Lemma phase_shapes events ph :
  (forall sh, ph = ModelReady sh -> model_shape sh) ->
  forall sh, fold_left (fun ph e => next_phase e ph) events ph = ModelReady sh ->
             model_shape sh.
Proof.
  revert ph. induction events as [|e events IH]; intros ph Hph sh; [apply Hph|].
  simpl. apply IH. intros sh' H.
  destruct ph as [| |sh0], e as [| | meshes | |matrix random|ms|id outcome|z| |];
    simpl in H; try discriminate H; try (apply Hph; exact H);
    injection H as <-; [right; eexists|left]; reflexivity.
Qed.

(** A reachable state with a model attached is in the third phase. *)
Lemma attached_phase page events id :
  issModel (layer (host_run events (start env page))) = Some id ->
  exists sh, model_shape sh /\ id = 3
             /\ in_phase (ModelReady sh) (host_run events (start env page)).
Proof.
  intros Hid. pose proof (run_phase events Unloaded _ (start_phase page)) as Hph.
  destruct (fold_left _ events Unloaded) as [| |sh] eqn:Hfold.
  - destruct Hph as (_ & _ & Hm & _). congruence.
  - destruct Hph as (_ & _ & Hm & _). congruence.
  - exists sh. split; [|split; [|exact Hph]].
    + apply (phase_shapes events Unloaded); [discriminate|exact Hfold].
    + destruct Hph as (_ & _ & Hm & _). congruence.
Qed.

Lemma render_skip_normal w matrix random :
  issModel (layer w) = None -> fst (render_frame matrix random w) = Normal tt.
Proof.
  intros H. unfold render. preserves_unfold. run_monad. rewrite H.
  destruct (random <? 0.01)%float; reflexivity.
Qed.

(** X11.  [render] throws exactly when Mapbox refuses the position: in
    every state the page can reach, a call returns normally if no model
    is attached or the latitude of the current position lies in
    [-90, 90]; with a model attached and a latitude outside, which the
    feed can publish, it throws before it has changed anything.  The
    layer's camera, renderer and map, which [render] dereferences, exist
    whenever a model is attached. *)
Theorem render_throws_exactly_for_a_latitude_out_of_range page events matrix random :
  let w := host_run events (start env page) in
  let r := render_frame matrix random w in
  (issModel (layer w) = None -> fst r = Normal tt)
  /\ (in_range (-90) 90 (mapboxgl.lat (current_position w)) = true -> fst r = Normal tt)
  /\ (is_Some (issModel (layer w)) ->
      in_range (-90) 90 (mapboxgl.lat (current_position w)) = false ->
      (exists e, fst r = Throw e) /\ snd r = w).
Proof.
  intros w r.
  pose proof (run_phase events Unloaded _ (start_phase page)) as Hph. fold w in Hph.
  pose proof (run_current_position_not_NaN fromLngLat meterInMercatorCoordinateUnits
                toFixed toLocaleTimeString Box3_getCenter env page events) as Hlng.
  fold w in Hlng.
  split; [|split].
  - apply render_skip_normal.
  - intros Hlat. destruct (fold_left _ events Unloaded) as [| |sh].
    + apply render_skip_normal, Hph.
    + apply render_skip_normal, Hph.
    + destruct Hph as (_ & _ & Hm & Hs & _ & _ & Hadded & _).
      apply (render_draws fromLngLat meterInMercatorCoordinateUnits w matrix random
               _ _ _ Hm Hs Hadded (project_in_range fromLngLat _ altitude Hlng Hlat)).
  - intros [id Hid] Hlat.
    destruct (project_out_of_range fromLngLat _ altitude Hlat) as [e He].
    unfold r.
    rewrite (render_throws fromLngLat meterInMercatorCoordinateUnits
               w matrix random id e Hid He).
    split; [eauto|reflexivity].
Qed.

(** What a frame leaves in the matrix and the update flag of the model
    and of the test cube. *)
Lemma render_placement w matrix random id c i m :
  issModel (layer w) = Some id -> testCube (layer w) = Some c ->
  i = id \/ i = c ->
  MercatorCoordinate_fromLngLat fromLngLat (current_position w) altitude = inr m ->
  placement <$> heap (exec (render_frame matrix random) w) !! i
  = (fun _ => (Matrix4_multiply (THREE.fromArray matrix)
                 (modelMatrix (modelTransform meterInMercatorCoordinateUnits m)),
               false))
    <$> heap w !! i.
Proof.
  intros Hid Hc Hi Hm. unfold render, current_position, published, placement in *.
  repeat (progress preserves_unfold).
  destruct_world w. subst. run_monad. rewrite Hm.
  destruct (random <? 0.001)%float, cam, rd, sc, attached; simpl;
    rewrite ?lookup_alter; repeat case_decide; subst;
    try (destruct Hi; congruence);
    destruct (hp !! _); reflexivity.
Qed.

Lemma fromArray_id (matrix : THREE.Matrix4 float) : THREE.fromArray matrix = matrix.
Proof. destruct matrix. reflexivity. Qed.

(** X12.  Every frame the host asks for once a model is attached, while
    the latitude of the current position lies in [-90, 90], is drawn: one
    frame is added, with the host's matrix as projection and the four
    objects of the scene in order: the ambient light, the directional
    light, the magenta test cube and the model (the procedural one or a
    processed asset).  The cube and the model are drawn with the same
    matrix, the camera matrix times the translation by Mapbox's projection
    of the current position at 800000 m, scaled by [(s, -s, s)], with
    automatic updates off; and another repaint is requested. *)
Theorem frame_draws_lights_cube_and_model page events matrix random :
  let w := host_run events (start env page) in
  is_Some (issModel (layer w)) ->
  in_range (-90) 90 (mapboxgl.lat (current_position w)) = true ->
  let w' := host_step (HostFrame matrix random) w in
  let modelAsMercator := fromLngLat (current_position w) 800000 in
  let s := meterInMercatorCoordinateUnits modelAsMercator in
  exists light1 light2 cube model,
    frames w'
    = frames w ++ [{| drawn := [light1; light2; cube; model]; projection := matrix |}]
    /\ shape light1 = ambientLight_shape
    /\ shape light2 = directionalLight_shape
    /\ shape cube = testCube_shape
    /\ model_shape (shape model)
    /\ placement cube = placement model
    /\ placement model
       = (THREE.multiply PrimFloat.add PrimFloat.mul matrix
            (THREE.scale PrimFloat.mul
               (THREE.makeTranslation 0%float 1%float
                  (mapboxgl.x modelAsMercator) (mapboxgl.y modelAsMercator)
                  (or_zero (mapboxgl.z modelAsMercator)))
               (THREE.mkVector3 s (- s)%float s)),
          false)
    /\ model_matrix w' = Some (THREE.matrix model)
    /\ repaints (mapbox w') = S (repaints (mapbox w)).
Proof.
  intros w [id Hid] Hlat w' modelAsMercator s.
  destruct (attached_phase page events id Hid) as (sh & Hsh & -> & Hph).
  fold w in Hph.
  pose proof (run_current_position_not_NaN fromLngLat meterInMercatorCoordinateUnits
                toFixed toLocaleTimeString Box3_getCenter env page events) as Hlng.
  fold w in Hlng.
  pose proof (project_in_range fromLngLat _ altitude Hlng Hlat) as Hproj.
  assert (map_objects w) as Hmap.
  { apply (run_invariant fromLngLat meterInMercatorCoordinateUnits toFixed
             toLocaleTimeString Box3_getCenter env map_objects);
      [apply step_map_objects|].
    pose proof (start_map_and_register page) as H.
    unfold map_objects, map_and_register in *. injection H as -> -> -> _. auto. }
  assert (w' = exec (render_frame matrix random) w) as Hw'.
  { unfold w'. cbn [step]. rewrite bool_decide_eq_true_2; [reflexivity|].
    unfold map_objects in Hmap.
    assert (loaded (mapbox w) = true) as Hl by apply Hph.
    rewrite Hl in Hmap. destruct Hmap as [-> _]. rewrite !elem_of_cons. auto. }
  pose proof (render_phase _ w matrix random Hph) as Hph'. rewrite <- Hw' in Hph'.
  destruct Hph as (_ & _ & Hm & Hs & Ht & _ & Hadded & _).
  destruct (render_draws fromLngLat meterInMercatorCoordinateUnits w matrix random
              _ _ _ Hm Hs Hadded Hproj) as (_ & Hframes & Hrep).
  rewrite <- Hw' in Hframes, Hrep.
  pose proof (render_placement w matrix random 3 2 2 _ Hm Ht (or_intror eq_refl) Hproj)
    as Hp2.
  pose proof (render_placement w matrix random 3 2 3 _ Hm Ht (or_introl eq_refl) Hproj)
    as Hp3.
  rewrite <- Hw' in Hp2, Hp3.
  destruct Hph' as (_ & _ & Hm' & _ & _ & _ & _ & (H0 & H1 & H2) & H3).
  rewrite Hframes. unfold model_matrix. rewrite Hm'.
  cbn [omap list_omap mbind option_bind]. rewrite fromArray_id in *.
  unfold ObjId in *.
  apply fmap_Some in H0 as (o0 & E0 & S0). apply fmap_Some in H1 as (o1 & E1 & S1).
  apply fmap_Some in H2 as (o2 & E2 & S2). apply fmap_Some in H3 as (o3 & E3 & S3).
  rewrite E2 in Hp2. rewrite E3 in Hp3. rewrite E0, E1, E2, E3.
  simpl in Hp2, Hp3. symmetry in Hp2, Hp3.
  apply fmap_Some in Hp2 as (? & _ & Hp2). apply fmap_Some in Hp3 as (? & _ & Hp3).
  exists o0, o1, o2, o3.
  repeat split; try congruence.
  exact Hp3.
Qed.

(** X13.  A model, once attached, is never replaced: from a reachable
    state with a model, after any further events (frames, polls, later
    loader events, anything) the same object is the model, with the kind
    and the meshes it had, the scene holds the same objects, readiness is
    what it was, and the loader is not pending. *)
Theorem attached_model_is_never_replaced page events1 events2 id :
  let w1 := host_run events1 (start env page) in
  issModel (layer w1) = Some id ->
  let w2 := host_run events2 w1 in
  issModel (layer w2) = Some id
  /\ shape <$> heap w2 !! id = shape <$> heap w1 !! id
  /\ is_Some (heap w2 !! id)
  /\ scene (layer w2) = scene (layer w1)
  /\ readiness w2 = readiness w1
  /\ loader_pending (sys w2) = false.
Proof.
  intros w1 Hid w2.
  destruct (attached_phase page events1 id Hid) as (sh & _ & -> & H1).
  fold w1 in H1.
  pose proof (run_phase events2 _ _ H1) as H2.
  rewrite phase_stays_ready in H2. fold w2 in H2.
  destruct H1 as (_ & _ & Hm1 & Hs1 & _ & _ & _ & _ & Hsh1).
  destruct H2 as (_ & Hp2 & Hm2 & Hs2 & _ & _ & _ & _ & Hsh2).
  unfold ObjId in *.
  apply fmap_Some in Hsh1 as (o1 & E1 & S1). apply fmap_Some in Hsh2 as (o2 & E2 & S2).
  repeat split; try congruence.
  - rewrite E1, E2. simpl. congruence.
  - rewrite E2. eauto.
  - unfold readiness. rewrite Hm1, Hm2. unfold ObjId. rewrite E1, E2. simpl.
    assert (THREE.kind o2 = THREE.kind o1) as -> by (unfold shape in *; congruence).
    reflexivity.
Qed.

(** X14.  When the loader delivers the asset, [onLoad] attaches it as the
    model: scaled by a tenth, with the meshes of the asset followed by
    the cube [onLoad] adds, all made visible (white, with a grey glow,
    opaque; so the cube added as red is drawn white), and then the green
    wireframe box, which is added after the traversal and keeps its
    colour.  The model is appended to the scene, readiness becomes
    ready-primary and the loader is no longer pending. *)
Theorem loaded_asset_is_scaled_made_visible_and_attached page events meshes :
  let w0 := host_run events (start env page) in
  loader_pending (sys w0) = true ->
  let w1 := host_step (ModelLoaded meshes) w0 in
  exists id o,
    issModel (layer w0) = None
    /\ issModel (layer w1) = Some id /\ heap w1 !! id = Some o
    /\ THREE.kind o = THREE.GltfScene
    /\ THREE.object_scale o = THREE.mkVector3 0.1%float 0.1%float 0.1%float
    /\ THREE.children o = List.map brighten (meshes ++ [simpleISS]) ++ [debugBox]
    /\ Forall made_visible (List.map brighten (meshes ++ [simpleISS]))
    /\ THREE.color (THREE.material debugBox) = 0x00FF00%N
    /\ scene (layer w1) = (fun ids => ids ++ [id]) <$> scene (layer w0)
    /\ readiness w1 = ready_primary
    /\ loader_pending (sys w1) = false.
Proof.
  intros w0 Hpend w1.
  pose proof (run_phase events Unloaded _ (start_phase page)) as Hph. fold w0 in Hph.
  destruct (fold_left _ events Unloaded) as [| |sh].
  - destruct Hph as (_ & Hp & _). congruence.
  - destruct Hph as (Hl & Hp & Hm & Hs & Ht & Hn & ([c Hc] & _ & [r Hr] & Hmap) & _).
    unfold w1. cbn [step]. rewrite Hpend.
    generalize dependent w0. intros w0.
    unfold readiness, onLoad. repeat (progress preserves_unfold).
    destruct_world w0. intros. subst. run_monad.
    eexists 3, _. heap_lookup. simpl.
    split; [reflexivity|]. split; [reflexivity|]. split; [reflexivity|].
    repeat split.
    apply Forall_forall. intros m Hin. apply list_elem_of_fmap in Hin as (m0 & -> & _).
    repeat split.
  - destruct Hph as (_ & Hp & _). congruence.
Qed.

(** *** The controls *)

Local Abbreviation host_page_step :=
  (page_step fromLngLat meterInMercatorCoordinateUnits toFixed toLocaleTimeString
             Box3_getCenter env).
Local Abbreviation host_page_run :=
  (page_run fromLngLat meterInMercatorCoordinateUnits toFixed toLocaleTimeString
            Box3_getCenter env).

Lemma page_run_invariant (P : Page -> Prop) :
  (forall e pg, P pg -> P (host_page_step e pg)) ->
  forall events pg, P pg -> P (host_page_run events pg).
Proof.
  intros Hstep events. induction events as [|e events IH]; intros pg Hpg.
  - exact Hpg.
  - apply IH, Hstep, Hpg.
Qed.

(** The keys, one by one. *)
Lemma handleKeydown_cases key pg :
  (key = "Escape" /\ handleKeydown key pg = if panelOpen pg then toggleInfoPanel pg else pg)
  \/ (key ∈ ["f"; "F"] /\ handleKeydown key pg = with_world (exec toggleFollowISS) pg)
  \/ (key ∈ ["r"; "R"] /\ handleKeydown key pg = with_world (exec resetMapView) pg)
  \/ (key ∈ ["i"; "I"] /\ handleKeydown key pg = toggleInfoPanel pg)
  \/ ((key ∉ ["Escape"; "f"; "F"; "r"; "R"; "i"; "I"]) /\ handleKeydown key pg = pg).
Proof.
  unfold handleKeydown.
  destruct (String.eqb_spec key "Escape") as [->|H1]; [left; auto|].
  destruct (String.eqb_spec key "f") as [->|H2];
    [right; left; rewrite !elem_of_cons; auto|].
  destruct (String.eqb_spec key "F") as [->|H3];
    [right; left; rewrite !elem_of_cons; auto|].
  destruct (String.eqb_spec key "r") as [->|H4];
    [right; right; left; rewrite !elem_of_cons; auto|].
  destruct (String.eqb_spec key "R") as [->|H5];
    [right; right; left; rewrite !elem_of_cons; auto|].
  destruct (String.eqb_spec key "i") as [->|H6];
    [right; right; right; left; rewrite !elem_of_cons; auto|].
  destruct (String.eqb_spec key "I") as [->|H7];
    [right; right; right; left; rewrite !elem_of_cons; auto|].
  right; right; right; right. split; [|reflexivity].
  rewrite !elem_of_cons, elem_of_nil. tauto.
Qed.

Lemma step_follow_control e w :
  match e with
  | ClickFollow | ClickReset => True
  | _ => follow_control (host_step e w) = follow_control w
  end.
Proof.
  destruct e as [| | meshes | |matrix random|ms|id outcome|z| |]; cbn [step];
    try exact I.
  - destruct (loaded (mapbox w)); [reflexivity|].
    apply (preserves_exec follow_control). preserves_auto.
  - destruct (loader_pending (sys w)); reflexivity.
  - destruct (loader_pending (sys w)); [|reflexivity].
    rewrite (preserves_exec follow_control); [reflexivity|]. preserves_auto.
  - destruct (loader_pending (sys w)); [|reflexivity].
    rewrite (preserves_exec follow_control); [reflexivity|]. preserves_auto.
  - case_bool_decide; [|reflexivity].
    apply (preserves_exec follow_control). preserves_auto.
  - apply advance_frame; frame_auto.
  - destruct (requests (sys w) !! id) as [r|]; [|reflexivity].
    destruct (req_settled r); [reflexivity|].
    rewrite (preserves_exec follow_control); [reflexivity|]. preserves_auto.
  - reflexivity.
Qed.

Lemma button_agrees_control initial w w' :
  follow_control w' = follow_control w -> button_agrees initial w -> button_agrees initial w'.
Proof. unfold follow_control, button_agrees. intros [= -> -> ->]. auto. Qed.

Lemma follow_control_flag w w' :
  follow_control w' = follow_control w -> isFollowingISS w' = isFollowingISS w.
Proof. unfold follow_control. intros [= _ _ ->]. reflexivity. Qed.

Lemma toggleInfoPanel_button initial pg :
  button_agrees initial (world pg) -> button_agrees initial (world (toggleInfoPanel pg)).
Proof.
  intros [_ H]. unfold button_agrees, toggleInfoPanel, follow_label. simpl.
  split; [right; reflexivity|exact H].
Qed.

Lemma toggleFollowISS_button initial w : button_agrees initial (exec toggleFollowISS w).
Proof.
  unfold button_agrees, toggleFollowISS, follow_label, follow_colour. run_monad.
  destruct (isFollowingISS w); simpl; auto.
Qed.

Lemma resetMapView_button initial w : button_agrees initial (exec resetMapView w).
Proof. unfold button_agrees. simpl. auto. Qed.

Lemma page_step_button initial e pg :
  button_agrees initial (world pg) -> button_agrees initial (world (host_page_step e pg)).
Proof.
  intros Hpg. destruct e as [e|key| |]; cbn [page_step].
  - pose proof (step_follow_control e (world pg)) as Hs.
    destruct e as [| | meshes | |matrix random|ms|id outcome|z| |];
      try (eapply button_agrees_control; [exact Hs|exact Hpg]).
    + apply toggleFollowISS_button.
    + apply resetMapView_button.
  - destruct (handleKeydown_cases key pg) as [[_ ->]|[[_ ->]|[[_ ->]|[[_ ->]|[_ ->]]]]].
    + destruct (panelOpen pg); [apply toggleInfoPanel_button|]; exact Hpg.
    + apply toggleFollowISS_button.
    + apply resetMapView_button.
    + apply toggleInfoPanel_button, Hpg.
    + exact Hpg.
  - apply toggleInfoPanel_button, Hpg.
  - apply toggleInfoPanel_button, Hpg.
Qed.

(** X15.  The follow button never contradicts the follow flag: after
    any events (clicks, keys, polls, frames), its label is the one the
    page came with or the one for the current flag ([Stop Following]
    when following, [Follow ISS] when not), and its background is the one
    the page came with or the colour for the current flag. *)
Theorem follow_button_agrees_with_follow_flag page events :
  let w := world (host_page_run events (page_start env page)) in
  (followISSBtn_textContent (dom w) = ""
   \/ followISSBtn_textContent (dom w)
      = (if isFollowingISS w then "Stop Following" else "Follow ISS"))
  /\ (followISSBtn_background (dom w) = ""
      \/ followISSBtn_background (dom w)
         = (if isFollowingISS w then "#ef4444" else "#3b82f6")).
Proof.
  apply (page_run_invariant (fun pg => button_agrees (dom (blank page)) (world pg))).
  - intros e pg. apply page_step_button.
  - unfold button_agrees, page_start, start, main. cbn [world].
    destruct (falsy_string _ || _), (falsy_string (ISS_API_URL env)); simpl; auto.
Qed.

(** X16.  The controls touch nothing of the feed or the layer: a key
    press, a click on the menu or the panel's close button, a click on
    the follow or the reset button leave the layer and its objects, the
    frames drawn, the marker, the info panel's text, the requests, the
    timers and the loader as they were. *)
Theorem controls_leave_feed_and_layer_alone key pg :
  feed_and_layer (world (handleKeydown key pg)) = feed_and_layer (world pg)
  /\ feed_and_layer (world (toggleInfoPanel pg)) = feed_and_layer (world pg)
  /\ feed_and_layer (exec toggleFollowISS (world pg)) = feed_and_layer (world pg)
  /\ feed_and_layer (exec resetMapView (world pg)) = feed_and_layer (world pg).
Proof.
  assert (feed_and_layer (exec toggleFollowISS (world pg)) = feed_and_layer (world pg))
    as Hf by (apply (preserves_exec feed_and_layer); preserves_auto).
  assert (feed_and_layer (exec resetMapView (world pg)) = feed_and_layer (world pg))
    as Hr by reflexivity.
  repeat split; try assumption.
  destruct (handleKeydown_cases key pg) as [[_ ->]|[[_ ->]|[[_ ->]|[[_ ->]|[_ ->]]]]];
    try assumption; try reflexivity.
  destruct (panelOpen pg); reflexivity.
Qed.

Lemma step_moves e w :
  match e with
  | ClickFollow | ClickReset => True
  | _ => isFollowingISS w = false ->
         moves (mapbox (host_step e w)) = moves (mapbox w)
  end.
Proof.
  pose proof (step_frame (fun w => moves (mapbox w)) e w) as H.
  destruct e as [| | meshes | |matrix random|ms|id outcome|z| |];
    try exact I; intros Hf; cbn [step] in H |- *.
  - destruct (loaded (mapbox w)); reflexivity.
  - apply H; frame_auto.
  - apply H; frame_auto.
  - apply H; frame_auto.
  - apply H; frame_auto.
  - apply H; frame_auto.
  - cbn [step]. destruct (requests (sys w) !! id) as [r|]; [|reflexivity].
    destruct (req_settled r); [reflexivity|].
    destruct (resume_camera toFixed toLocaleTimeString outcome
                (with_sys (fun s => set_requests (<[id:=settle r]> (requests s)) s) w))
      as (-> & _).
    cbn [with_sys isFollowingISS mapbox]. rewrite Hf.
    destruct (accepted outcome); apply app_nil_r.
  - reflexivity.
Qed.

Lemma quiet_step e pg :
  asks_camera e = false ->
  isFollowingISS (world pg) = false ->
  isFollowingISS (world (host_page_step e pg)) = false
  /\ moves (mapbox (world (host_page_step e pg))) = moves (mapbox (world pg)).
Proof.
  intros He Hf. destruct e as [e|key| |]; cbn [page_step].
  - pose proof (step_follow_control e (world pg)) as Hc.
    pose proof (step_moves e (world pg)) as Hm.
    destruct e as [| | meshes | |matrix random|ms|id outcome|z| |];
      try discriminate He;
      (split; [|apply Hm, Hf]);
      lazy beta iota in Hc; apply follow_control_flag in Hc;
      cbn [with_world world]; rewrite Hc; exact Hf.
  - destruct (handleKeydown_cases key pg)
      as [[_ ->]|[[Hk _]|[[Hk _]|[[_ ->]|[_ ->]]]]].
    + destruct (panelOpen pg); auto.
    + exfalso. simpl in He. apply bool_decide_eq_false in He. apply He.
      rewrite !elem_of_cons in *. tauto.
    + exfalso. simpl in He. apply bool_decide_eq_false in He. apply He.
      rewrite !elem_of_cons in *. tauto.
    + auto.
    + auto.
  - auto.
  - auto.
Qed.

Lemma quiet_run events pg :
  quiet events = true ->
  isFollowingISS (world pg) = false ->
  isFollowingISS (world (host_page_run events pg)) = false
  /\ moves (mapbox (world (host_page_run events pg))) = moves (mapbox (world pg)).
Proof.
  revert pg. induction events as [|e events IH]; intros pg Hq Hf; [auto|].
  simpl in Hq. apply andb_true_iff in Hq as [He Hq].
  apply negb_true_iff in He.
  destruct (quiet_step e pg He Hf) as [Hf' Hm'].
  destruct (IH (host_page_step e pg) Hq Hf') as [Hf'' Hm''].
  split; [exact Hf''|]. simpl. rewrite Hm''. exact Hm'.
Qed.

(** X17.  The page moves the map's camera only when asked: as long as
    the user neither clicks the follow or the reset button nor presses
    [f], [F], [r] or [R], whatever else happens (polls answered or not,
    frames, other keys, zooming, time passing), the page asks the map
    for no camera move and does not follow the station. *)
Theorem camera_moves_only_when_asked page events :
  quiet events = true ->
  let w := world (host_page_run events (page_start env page)) in
  moves (mapbox w) = [] /\ isFollowingISS w = false.
Proof.
  intros Hq w.
  assert (isFollowingISS (start env page) = false /\ moves (mapbox (start env page)) = [])
    as [Hf Hm].
  { unfold start, main.
    destruct (falsy_string _ || _), (falsy_string (ISS_API_URL env)); auto. }
  destruct (quiet_run events (page_start env page) Hq Hf) as [Hf' Hm'].
  split; [|exact Hf']. unfold w. rewrite Hm'. exact Hm.
Qed.

(** X18.  Resetting the view stops following: after a click on the reset
    button the map is asked for one [flyTo] back to [(0, 0)] at zoom 1.5,
    and from then on, until the user asks again, no response of the feed
    moves the camera, whether or not the station was followed before. *)
Theorem reset_stops_following events pg :
  quiet events = true ->
  let pg1 := host_page_step (Loop ClickReset) pg in
  let pg2 := host_page_run events pg1 in
  moves (mapbox (world pg2))
  = moves (mapbox (world pg))
    ++ [FlyTo {| mapboxgl.center := (0, 0)%float; mapboxgl.zoom := 1.5;
                 mapboxgl.pitch := Some 0%float; mapboxgl.bearing := Some 0%float;
                 mapboxgl.duration := 2000 |}]
  /\ isFollowingISS (world pg2) = false
  /\ handleKeydown "r" pg = pg1 /\ handleKeydown "R" pg = pg1.
Proof.
  intros Hq pg1 pg2.
  destruct (quiet_run events pg1 Hq eq_refl) as [Hf Hm].
  repeat split; [|exact Hf]. unfold pg2. rewrite Hm. reflexivity.
Qed.

(** *** The info panel's flag *)

Lemma page_step_panel e pg : panel_agrees pg -> panel_agrees (host_page_step e pg).
Proof.
  intros Hpg. destruct e as [e|key| |]; cbn [page_step]; try (split; reflexivity).
  - exact Hpg.
  - destruct (handleKeydown_cases key pg) as [[_ ->]|[[_ ->]|[[_ ->]|[[_ ->]|[_ ->]]]]];
      try exact Hpg; try (split; reflexivity).
    destruct (panelOpen pg); [split; reflexivity|exact Hpg].
Qed.

(** X19.  The info panel follows its flag: from a page whose panel and
    menu button carry the classes [open] and [active] exactly when the
    flag is set, this stays so after any events; [Escape] then leaves the
    panel closed, whether it was open or not, and the follow and reset
    keys and the polls do not open or close it. *)
Theorem panel_classes_follow_flag_and_escape_closes events pg :
  infoPanel_open pg = panelOpen pg -> menuToggle_active pg = panelOpen pg ->
  let pg' := host_page_run events pg in
  let closed := handleKeydown "Escape" pg' in
  infoPanel_open pg' = panelOpen pg' /\ menuToggle_active pg' = panelOpen pg'
  /\ panelOpen closed = false /\ infoPanel_open closed = false
  /\ menuToggle_active closed = false
  /\ (forall e key, key ∈ ["f"; "F"; "r"; "R"] ->
        panelOpen (host_page_step (Loop e) pg') = panelOpen pg'
        /\ panelOpen (handleKeydown key pg') = panelOpen pg').
Proof.
  intros H1 H2 pg' closed.
  assert (panel_agrees pg') as [H1' H2'].
  { apply page_run_invariant; [apply page_step_panel|split; assumption]. }
  split; [exact H1'|]. split; [exact H2'|].
  assert (closed = if panelOpen pg' then toggleInfoPanel pg' else pg') as ->
    by reflexivity.
  split; [|split; [|split]].
  - destruct (panelOpen pg') eqn:Hopen; [cbn; rewrite Hopen|]; auto.
  - destruct (panelOpen pg') eqn:Hopen; [cbn; rewrite Hopen; reflexivity|congruence].
  - destruct (panelOpen pg') eqn:Hopen; [cbn; rewrite Hopen; reflexivity|congruence].
  - intros e key Hk. split; [reflexivity|].
    rewrite !elem_of_cons, elem_of_nil in Hk.
    destruct Hk as [->|[->|[->|[->|[]]]]]; reflexivity.
Qed.

(** *** Where a published position comes from *)

Lemma run_published events w :
  published (host_run events w) = published w
  \/ exists id outcome p,
       Response id outcome ∈ events /\ accepted outcome = Some p
       /\ published (host_run events w) = Some p.
Proof.
  revert w. induction events as [|e events IH]; intros w; [left; reflexivity|].
  change (host_run (e :: events) w) with (host_run events (host_step e w)).
  destruct (IH (host_step e w)) as [Heq|(id & outcome & p & Hin & Hacc & Hp)].
  - destruct (step_published fromLngLat meterInMercatorCoordinateUnits toFixed
                toLocaleTimeString Box3_getCenter env e w)
      as [Hs|(id & outcome & p & -> & Hacc & Hp)].
    + left. congruence.
    + right. exists id, outcome, p. rewrite elem_of_cons. split; [auto|].
      split; [exact Hacc|congruence].
  - right. exists id, outcome, p. rewrite elem_of_cons. auto.
Qed.

(** X20.  Nothing but the feed publishes a position, and it publishes
    only what a response carried: after any events the register is empty,
    or it holds the position with which one of the responses delivered
    got past the validation of [fetchIssPosition]. *)
Theorem published_position_comes_from_a_delivered_response page events :
  let w := host_run events (start env page) in
  published w = None
  \/ exists id outcome p,
       Response id outcome ∈ events /\ accepted outcome = Some p
       /\ published w = Some p.
Proof.
  intros w. destruct (run_published events (start env page)) as [H|H].
  - left. unfold w. rewrite H.
    apply (start_published env page).
  - right. exact H.
Qed.
End More.

(** ** The controls, the map and the phases on concrete runs *)

(** A response with status 503 and no body. *)
Lemma failed_request_only_reports_witness :
  let w := start Sample.env Sample.page in
  let outcome := Responded false 503 "Service Unavailable" None in
  let w' := exec (fetchIssPosition_resume Sample.toFixed Sample.toLocaleTimeString
                    outcome) w in
  transport_failure outcome = true
  /\ status w' = "status-dot error"
  /\ layer w' = layer w /\ mapbox w' = mapbox w.
Proof.
  intros w outcome w'.
  assert (transport_failure outcome = true) as H by reflexivity.
  destruct (failed_request_only_reports Sample.toFixed Sample.toLocaleTimeString
              outcome w H) as (_ & Hs & _ & _ & Hl & _ & _ & Hm & _).
  split; [exact H|]. split; [exact Hs|]. split; [exact Hl|exact Hm].
Defined.



(** Two requests are in flight after 2000 ms; the answer to the second
    arrives first, and the answer to the first is what stays published. *)
Lemma last_arrival_is_published_witness :
  let host_step :=
    step Sample.fromLngLat Sample.meterInMercatorCoordinateUnits
         Sample.toFixed Sample.toLocaleTimeString Sample.Box3_getCenter Sample.env in
  let w := host_step (Advance 2000) (start Sample.env Sample.page) in
  let w1 := host_step (Response 1 (payload Sample.out_of_range)) w in
  let w2 := host_step (Response 0 (payload Sample.london)) w1 in
  req_time <$> requests (sys w) = [0; 2000]
  /\ published w1 = Some {| mapboxgl.lng := 500; mapboxgl.lat := 200 |}
  /\ published w2 = Some {| mapboxgl.lng := -0.1; mapboxgl.lat := 51.6 |}.
Proof.
  intros host_step w w1 w2.
  split; [vm_compute; reflexivity|].
  assert (requests (sys w) !! 0
          = Some {| req_time := 0; req_url := VITE_ISS_API_URL Sample.env;
                    req_settled := false |}) as H0 by (vm_compute; reflexivity).
  assert (requests (sys w) !! 1
          = Some {| req_time := 2000; req_url := VITE_ISS_API_URL Sample.env;
                    req_settled := false |}) as H1 by (vm_compute; reflexivity).
  assert (accepted (payload Sample.london)
          = Some {| mapboxgl.lng := -0.1; mapboxgl.lat := 51.6 |}) as Ha
    by (vm_compute; reflexivity).
  assert (accepted (payload Sample.out_of_range)
          = Some {| mapboxgl.lng := 500; mapboxgl.lat := 200 |}) as Hb
    by (vm_compute; reflexivity).
  assert (0 <> 1) as Hne by discriminate.
  destruct (last_arrival_is_published
              Sample.fromLngLat Sample.meterInMercatorCoordinateUnits
              Sample.toFixed Sample.toLocaleTimeString Sample.Box3_getCenter
              Sample.env w 0 1 _ _ _ _ _ _ Hne H0 eq_refl H1 eq_refl Ha Hb)
    as (Hp1 & Hp2 & _).
  split; [exact Hp1|exact Hp2].
Defined.

(** The screen still shows 1999 ms after the map's [load], and is hidden
    a millisecond later. *)
Lemma loading_screen_hides_2000_ms_after_map_load_witness :
  let host_run :=
    run Sample.fromLngLat Sample.meterInMercatorCoordinateUnits
        Sample.toFixed Sample.toLocaleTimeString Sample.Box3_getCenter Sample.env in
  let host_step :=
    step Sample.fromLngLat Sample.meterInMercatorCoordinateUnits
         Sample.toFixed Sample.toLocaleTimeString Sample.Box3_getCenter Sample.env in
  let w0 := host_run [Advance 500] (start Sample.env Sample.page) in
  loaded (mapbox w0) = false
  /\ loadingScreen_hidden (dom (host_run [Advance 1999] (host_step MapLoad w0))) = false
  /\ loadingScreen_hidden
       (dom (host_run [Advance 1999; Response 0 Rejected; Advance 1]
               (host_step MapLoad w0))) = true.
Proof.
  intros host_run host_step w0.
  assert (loaded (mapbox w0) = false) as H by (vm_compute; reflexivity).
  split; [exact H|]. split.
  - eapply eq_trans.
    + exact (proj2 (loading_screen_hides_2000_ms_after_map_load
                      Sample.fromLngLat Sample.meterInMercatorCoordinateUnits
                      Sample.toFixed Sample.toLocaleTimeString Sample.Box3_getCenter
                      Sample.env Sample.page [Advance 500] [Advance 1999] H)).
    + vm_compute. reflexivity.
  - eapply eq_trans.
    + exact (proj2 (loading_screen_hides_2000_ms_after_map_load
                      Sample.fromLngLat Sample.meterInMercatorCoordinateUnits
                      Sample.toFixed Sample.toLocaleTimeString Sample.Box3_getCenter
                      Sample.env Sample.page [Advance 500]
                      [Advance 1999; Response 0 Rejected; Advance 1] H)).
    + vm_compute. reflexivity.
Defined.

(** A frame once the procedural model is attached. *)
Lemma frame_draws_lights_cube_and_model_witness :
  let host_run :=
    run Sample.fromLngLat Sample.meterInMercatorCoordinateUnits
        Sample.toFixed Sample.toLocaleTimeString Sample.Box3_getCenter Sample.env in
  let host_step :=
    step Sample.fromLngLat Sample.meterInMercatorCoordinateUnits
         Sample.toFixed Sample.toLocaleTimeString Sample.Box3_getCenter Sample.env in
  let w :=
    host_run [MapLoad; ModelError; Response 0 (payload Sample.london)]
      (start Sample.env Sample.page) in
  let w' := host_step (HostFrame Sample.cameraMatrix 0.5) w in
  is_Some (issModel (layer w))
  /\ in_range (-90) 90 (mapboxgl.lat (current_position w)) = true
  /\ exists light1 light2 cube model,
       frames w'
       = frames w ++ [{| drawn := [light1; light2; cube; model];
                         projection := Sample.cameraMatrix |}]
       /\ shape cube = testCube_shape
       /\ placement cube = placement model.
Proof.
  intros host_run host_step w w'.
  assert (is_Some (issModel (layer w))) as H.
  { apply is_Some_alt. vm_compute. exact I. }
  assert (in_range (-90) 90 (mapboxgl.lat (current_position w)) = true) as Hlat
    by (vm_compute; reflexivity).
  split; [exact H|]. split; [exact Hlat|].
  destruct (frame_draws_lights_cube_and_model
              Sample.fromLngLat Sample.meterInMercatorCoordinateUnits
              Sample.toFixed Sample.toLocaleTimeString Sample.Box3_getCenter
              Sample.env Sample.page
              [MapLoad; ModelError; Response 0 (payload Sample.london)]
              Sample.cameraMatrix 0.5 H Hlat)
    as (l1 & l2 & c & m & Hf & _ & _ & Hc & _ & Hp & _).
  exists l1, l2, c, m. split; [exact Hf|]. split; [exact Hc|exact Hp].
Defined.

(** The map has loaded; two responses are accepted, and the marker is at
    the position of the second. *)
Lemma marker_mirrors_positions_published_after_load_witness :
  let host_run :=
    run Sample.fromLngLat Sample.meterInMercatorCoordinateUnits
        Sample.toFixed Sample.toLocaleTimeString Sample.Box3_getCenter Sample.env in
  let host_step :=
    step Sample.fromLngLat Sample.meterInMercatorCoordinateUnits
         Sample.toFixed Sample.toLocaleTimeString Sample.Box3_getCenter Sample.env in
  let w1 := host_run [MapLoad; Advance 2000] (start Sample.env Sample.page) in
  let w2 := host_step (Response 0 (payload Sample.london)) w1 in
  let w3 :=
    host_run [HostFrame Sample.cameraMatrix 0.5;
              Response 1 (payload Sample.out_of_range); ClickFollow] w2 in
  loaded (mapbox w1) = true
  /\ marker w1 = Some (0, 0)%float
  /\ marker w2 = Some ((-0.1)%float, 51.6%float)
  /\ exists q, published w3 = Some q
               /\ marker w3 = Some (mapboxgl.lng q, mapboxgl.lat q).
Proof.
  intros host_run host_step w1 w2 w3.
  assert (loaded (mapbox w1) = true) as Hl by (vm_compute; reflexivity).
  assert (requests (sys w1) !! 0
          = Some {| req_time := 0; req_url := VITE_ISS_API_URL Sample.env;
                    req_settled := false |}) as Hr by (vm_compute; reflexivity).
  assert (accepted (payload Sample.london)
          = Some {| mapboxgl.lng := -0.1; mapboxgl.lat := 51.6 |}) as Ha
    by (vm_compute; reflexivity).
  destruct (marker_mirrors_positions_published_after_load
              Sample.fromLngLat Sample.meterInMercatorCoordinateUnits
              Sample.toFixed Sample.toLocaleTimeString Sample.Box3_getCenter
              Sample.env Sample.page [MapLoad; Advance 2000]
              [HostFrame Sample.cameraMatrix 0.5;
               Response 1 (payload Sample.out_of_range); ClickFollow]
              0 _ _ _ Hl Hr eq_refl Ha)
    as (_ & _ & H2 & H3).
  split; [exact Hl|]. split; [vm_compute; reflexivity|]. split; [exact H2|exact H3].
Defined.

(** The asset is attached; a late error of the loader, a frame and a
    response do not replace it. *)
Lemma attached_model_is_never_replaced_witness :
  let host_run :=
    run Sample.fromLngLat Sample.meterInMercatorCoordinateUnits
        Sample.toFixed Sample.toLocaleTimeString Sample.Box3_getCenter Sample.env in
  let w1 := host_run [MapLoad; ModelLoaded []] (start Sample.env Sample.page) in
  let w2 := host_run [ModelError; HostFrame Sample.cameraMatrix 0.5;
                      Response 0 (payload Sample.london)] w1 in
  issModel (layer w1) = Some 3
  /\ issModel (layer w2) = Some 3
  /\ readiness w2 = readiness w1.
Proof.
  intros host_run w1 w2.
  assert (issModel (layer w1) = Some 3) as H by (vm_compute; reflexivity).
  destruct (attached_model_is_never_replaced
              Sample.fromLngLat Sample.meterInMercatorCoordinateUnits
              Sample.toFixed Sample.toLocaleTimeString Sample.Box3_getCenter
              Sample.env Sample.page [MapLoad; ModelLoaded []]
              [ModelError; HostFrame Sample.cameraMatrix 0.5;
               Response 0 (payload Sample.london)] 3 H)
    as (Hm & _ & _ & _ & Hr & _).
  split; [exact H|]. split; [exact Hm|exact Hr].
Defined.

(** An asset of one mesh: the model has three, the last the green box. *)
Lemma loaded_asset_is_scaled_made_visible_and_attached_witness :
  let host_run :=
    run Sample.fromLngLat Sample.meterInMercatorCoordinateUnits
        Sample.toFixed Sample.toLocaleTimeString Sample.Box3_getCenter Sample.env in
  let host_step :=
    step Sample.fromLngLat Sample.meterInMercatorCoordinateUnits
         Sample.toFixed Sample.toLocaleTimeString Sample.Box3_getCenter Sample.env in
  let w0 := host_run [MapLoad] (start Sample.env Sample.page) in
  let w1 := host_step (ModelLoaded [simpleISS]) w0 in
  loader_pending (sys w0) = true
  /\ exists id o,
       issModel (layer w1) = Some id /\ heap w1 !! id = Some o
       /\ THREE.children o = [brighten simpleISS; brighten simpleISS; debugBox]
       /\ readiness w1 = ready_primary.
Proof.
  intros host_run host_step w0 w1.
  assert (loader_pending (sys w0) = true) as H by (vm_compute; reflexivity).
  split; [exact H|].
  destruct (loaded_asset_is_scaled_made_visible_and_attached
              Sample.fromLngLat Sample.meterInMercatorCoordinateUnits
              Sample.toFixed Sample.toLocaleTimeString Sample.Box3_getCenter
              Sample.env Sample.page [MapLoad] [simpleISS] H)
    as (id & o & _ & Hm & Ho & _ & _ & Hc & _ & _ & _ & Hr & _).
  exists id, o. split; [exact Hm|]. split; [exact Ho|]. split; [exact Hc|exact Hr].
Defined.

(** Polls, the panel's key and time: no camera move. *)
Lemma camera_moves_only_when_asked_witness :
  let events :=
    [Loop MapLoad; Loop (Response 0 (payload Sample.london)); Keydown "i";
     Loop (Advance 2000); Loop (Response 1 (payload Sample.out_of_range))] in
  let w :=
    world (page_run Sample.fromLngLat Sample.meterInMercatorCoordinateUnits
             Sample.toFixed Sample.toLocaleTimeString Sample.Box3_getCenter Sample.env
             events (page_start Sample.env Sample.page)) in
  quiet events = true /\ moves (mapbox w) = [] /\ isFollowingISS w = false.
Proof.
  intros events w.
  assert (quiet events = true) as H by reflexivity.
  split; [exact H|].
  exact (camera_moves_only_when_asked
           Sample.fromLngLat Sample.meterInMercatorCoordinateUnits
           Sample.toFixed Sample.toLocaleTimeString Sample.Box3_getCenter
           Sample.env Sample.page events H).
Defined.

(** Following, then reset: the next response moves nothing. *)
Lemma reset_stops_following_witness :
  let host_page_step :=
    page_step Sample.fromLngLat Sample.meterInMercatorCoordinateUnits
      Sample.toFixed Sample.toLocaleTimeString Sample.Box3_getCenter Sample.env in
  let host_page_run :=
    page_run Sample.fromLngLat Sample.meterInMercatorCoordinateUnits
      Sample.toFixed Sample.toLocaleTimeString Sample.Box3_getCenter Sample.env in
  let events := [Loop (Response 0 (payload Sample.london))] in
  let pg := host_page_step (Loop ClickFollow) (page_start Sample.env Sample.page) in
  let pg2 := host_page_run events (host_page_step (Loop ClickReset) pg) in
  quiet events = true
  /\ isFollowingISS (world pg) = true
  /\ isFollowingISS (world pg2) = false
  /\ length (moves (mapbox (world pg2))) = 1.
Proof.
  intros host_page_step host_page_run events pg pg2.
  assert (quiet events = true) as H by reflexivity.
  destruct (reset_stops_following
              Sample.fromLngLat Sample.meterInMercatorCoordinateUnits
              Sample.toFixed Sample.toLocaleTimeString Sample.Box3_getCenter
              Sample.env events pg H) as (Hm & Hf & _).
  split; [exact H|]. split; [reflexivity|]. split; [exact Hf|].
  eapply eq_trans; [exact (f_equal (@length CameraMove) Hm)|reflexivity].
Defined.

(** The panel is opened with [i]; [Escape] closes it. *)
Lemma panel_classes_follow_flag_and_escape_closes_witness :
  let pg := page_start Sample.env Sample.page in
  let pg' :=
    page_run Sample.fromLngLat Sample.meterInMercatorCoordinateUnits
      Sample.toFixed Sample.toLocaleTimeString Sample.Box3_getCenter Sample.env
      [Keydown "i"; Loop ClickFollow] pg in
  (infoPanel_open pg = panelOpen pg /\ menuToggle_active pg = panelOpen pg)
  /\ panelOpen pg' = true
  /\ infoPanel_open pg' = panelOpen pg'
  /\ panelOpen (handleKeydown "Escape" pg') = false.
Proof.
  intros pg pg'.
  destruct (panel_classes_follow_flag_and_escape_closes
              Sample.fromLngLat Sample.meterInMercatorCoordinateUnits
              Sample.toFixed Sample.toLocaleTimeString Sample.Box3_getCenter
              Sample.env [Keydown "i"; Loop ClickFollow] pg eq_refl eq_refl)
    as (H1 & _ & H3 & _).
  split; [split; reflexivity|]. split; [reflexivity|]. split; [exact H1|exact H3].
Defined.
